(** * OptionTree: binomial and trinomial lattice pricers (options.py)

    A shallow embedding of [options.py] (Python 2: [xrange], integer [/] on
    ints) and the properties of its two pricers.

    Numbers.  Python floats are idealised as the real numbers [R] of the
    Standard Library, so rounding and overflow are outside the model; an int
    used in float arithmetic is its image under [IZR].  What Python raises on
    reals is kept: a float division by zero raises [ZeroDivisionError],
    [math.sqrt] of a negative number raises [ValueError], [0.0 ** n] with
    [n < 0] raises [ZeroDivisionError], a list index out of range raises
    [IndexError], and reading a local variable that was never assigned raises
    [UnboundLocalError].

    Dates.  [datetime.strptime(_, '%m/%d/%Y')] yields midnight of a calendar
    day; such a date is its day number in [Z].  A [datetime] in general has
    a resolution of one microsecond: the running [day] of the sweep is a
    number of microseconds in [Z], and [timedelta(days=x)] is [x] days
    rounded to whole microseconds. *)

From Stdlib Require Import String.
From Stdlib Require Import Reals ZArith List Bool Lra Lia Psatz.
From Stdlib Require Import Sorted Permutation.
Import ListNotations.

Local Open Scope Z_scope.
Local Open Scope R_scope.

(** ** Exceptions and the error monad *)

(** A Python exception is identified by the name of its class. *)
Definition exn : Type := string.

Definition ZeroDivisionError : exn := "ZeroDivisionError"%string.
Definition ValueError : exn := "ValueError"%string.
Definition IndexError : exn := "IndexError"%string.
Definition UnboundLocalError : exn := "UnboundLocalError"%string.

(** The error names of the specification; no statement of the program
    raises them. *)
Definition InvalidContractType : exn := "InvalidContractType"%string.
Definition InvalidPeriodCount : exn := "InvalidPeriodCount"%string.

Definition result (A : Type) : Type := (exn + A)%type.

Definition ret {A : Type} (a : A) : result A := inr a.

Definition raise {A : Type} (e : exn) : result A := inl e.

Definition bind {A B : Type} (m : result A) (k : A -> result B) : result B :=
  match m with
  | inl e => inl e
  | inr a => k a
  end.

Notation "x <- m ;; k" := (bind m (fun x => k))
  (at level 61, m at next level, right associativity).

(** [for x in xs: body], the loop state threaded through the iterations; the
    first exception ends the loop. *)
Fixpoint for_ {S A : Type} (xs : list A) (body : A -> S -> result S) (s : S)
  : result S :=
  match xs with
  | [] => ret s
  | x :: xs' => s' <- body x s ;; for_ xs' body s'
  end.

(** ** Python primitives *)

(** [a / b] on floats. *)
Definition py_div (a b : R) : result R :=
  if Req_dec_T b 0 then raise ZeroDivisionError else ret (a / b).

(** [math.sqrt]. *)
Definition py_sqrt (x : R) : result R :=
  if Rlt_dec x 0 then raise ValueError else ret (sqrt x).

(** [x ** n], a float to an int power. *)
Definition py_pow (x : R) (n : Z) : result R :=
  if Req_dec_T x 0
  then (if (n <? 0)%Z then raise ZeroDivisionError else ret (powerRZ x n))
  else ret (powerRZ x n).

(** [max(a, b, c)]: the first argument is kept unless a later one is
    strictly greater. *)
Definition py_max3 (a b c : R) : R :=
  let m := a in
  let m := if Rgt_dec b m then b else m in
  if Rgt_dec c m then c else m.

(** [range(n)] and [xrange(hi, -1, -1)]. *)
Definition range (n : Z) : list Z :=
  map Z.of_nat (seq 0 (Z.to_nat n)).

Fixpoint countdown (n : nat) : list Z :=
  match n with
  | O => []
  | S k => Z.of_nat k :: countdown k
  end.

Definition xrange_down (hi : Z) : list Z :=
  countdown (Z.to_nat (hi + 1)).

(** The position a list index denotes: a negative index counts from the
    end. *)
Definition py_index {A : Type} (l : list A) (k : Z) : option nat :=
  let n := Z.of_nat (length l) in
  if ((0 <=? k) && (k <? n))%Z then Some (Z.to_nat k)
  else if ((- n <=? k) && (k <? 0))%Z then Some (Z.to_nat (n + k))
  else None.

Definition py_getitem {A : Type} (l : list A) (k : Z) : result A :=
  match py_index l k with
  | Some j =>
      match nth_error l j with
      | Some x => ret x
      | None => raise IndexError
      end
  | None => raise IndexError
  end.

Fixpoint list_set {A : Type} (l : list A) (j : nat) (v : A) : list A :=
  match l, j with
  | [], _ => []
  | _ :: xs, O => v :: xs
  | x :: xs, S j' => x :: list_set xs j' v
  end.

Definition py_setitem {A : Type} (l : list A) (k : Z) (v : A)
  : result (list A) :=
  match py_index l k with
  | Some j => ret (list_set l j v)
  | None => raise IndexError
  end.

(** ** Dates *)

Definition us_per_day : Z := 86400000000%Z.

(** The [datetime] of midnight of day number [d], in microseconds. *)
Definition midnight (d : Z) : Z := (d * us_per_day)%Z.

(** [round_to_long] of CPython 2.7's datetime module: to the nearest
    integer, a half away from zero ([floor(x + 0.5)] for [x >= 0],
    [ceil(x - 0.5)] otherwise).  Python 3 rounds a half to even; the two
    differ only on exact halves. *)
Definition round_to_long (x : R) : Z :=
  if Rle_dec 0 x then Int_part (x + / 2)
  else (- Int_part (- x + / 2))%Z.

(** [timedelta(days=x)] for a float [x], in microseconds.  The constructor
    takes the whole days and the whole microseconds of [x] exactly and
    rounds the remaining fraction of a microsecond with [round_to_long]; on
    real numbers that is [x] days in microseconds, rounded. *)
Definition timedelta_days (x : R) : Z := round_to_long (x * IZR us_per_day).

(** ** Helpers (options.py, lines 7-15) *)

Definition discount (amt days rfr : R) : R :=
  amt * exp (- rfr * (days / 365)).

Definition exercise_call (stock strike : R) : R := stock - strike.

Definition exercise_put (stock strike : R) : R := strike - stock.

(** ** class Option (lines 18-39) *)

(** A dividend [(date, amt)]. *)
Definition dividend : Type := (Z * R)%type.

(** The [info] dictionary.  The keys [divs] and [periods] are optional (their
    [KeyError] is caught), the others are read unguarded and taken to be
    present. *)
Record Info : Type := mkInfo {
  info_today : Z;
  info_type : string;
  info_price : R;
  info_strike : R;
  info_vola : R;
  info_expi : Z;
  info_rfr : R;
  info_divs : option (list dividend);
  info_periods : option Z
}.

Record Option : Type := mkOption {
  today : Z;
  type : string;
  price : R;
  strike : R;
  vola : R;
  expi : Z;
  rfr : R;
  divs : list dividend;
  periods : Z;
  tstep : R
}.

(** [list.sort(key=lambda x: x[0])] is a stable sort; the stable insertion
    sort computes the same list. *)
Fixpoint insert_by_date (d : dividend) (l : list dividend) : list dividend :=
  match l with
  | [] => [d]
  | x :: xs =>
      if (fst d <=? fst x)%Z then d :: x :: xs
      else x :: insert_by_date d xs
  end.

Definition sort_by_date (l : list dividend) : list dividend :=
  fold_right insert_by_date [] l.

Definition after_today (t : Z) (div : dividend) : bool := (t <? fst div)%Z.

Definition init_divs (info : Info) : list dividend :=
  match info_divs info with
  | Some ds => sort_by_date (filter (after_today (info_today info)) ds)
  | None => []
  end.

Definition init_periods (info : Info) : Z :=
  match info_periods info with
  | Some p => p
  | None => 3%Z
  end.

(** [Option.__init__]. *)
Definition Option_init (info : Info) : result Option :=
  let today := info_today info in
  let expi := info_expi info in
  let divs := init_divs info in
  let periods := init_periods info in
  tstep <- py_div (IZR (expi - today)) (IZR periods) ;;
  ret {| today := today; type := info_type info; price := info_price info;
         strike := info_strike info; vola := info_vola info; expi := expi;
         rfr := info_rfr info; divs := divs; periods := periods;
         tstep := tstep |}.

(** ** What the two pricers share *)

Definition payoff : Type := R -> R -> R.

(** The [if]/[elif] on [self.type] (lines 57-60, 125-128): with any other
    type the local variable [exercise] stays unassigned. *)
Definition resolve_exercise (ty : string) : option payoff :=
  if String.eqb ty "call" then Some exercise_call
  else if String.eqb ty "put" then Some exercise_put
  else None.

(** The call [exercise(price, self.strike)]. *)
Definition call_exercise (exercise : option payoff) (price strike : R)
  : result R :=
  match exercise with
  | Some f => ret (f price strike)
  | None => raise UnboundLocalError
  end.

(** Lines 67-69 and 136-138: the loop accumulating [start_div_val]. *)
Definition start_div_val (o : Option) : R :=
  fold_left
    (fun acc div => acc + discount (snd div) (IZR (fst div - today o)) (rfr o))
    (divs o) 0.

(** Lines 70 and 139. *)
Definition adj_price (o : Option) : R := price o - start_div_val o.

(** The variables [day], [cur_div_val] and [last_div] of the sweep. *)
Record escrow : Type := mkEscrow {
  day : Z;
  cur_div_val : R;
  last_div : Z
}.

(** Lines 72-74 and 141-143. *)
Definition escrow_init (o : Option) : escrow :=
  {| day := midnight (expi o);
     cur_div_val := 0;
     last_div := (Z.of_nat (length (divs o)) - 1)%Z |}.

(** Lines 92-96 and 161-165, the same text in the two pricers. *)
Definition escrow_step (o : Option) (e : escrow) : result escrow :=
  let day' := (day e - timedelta_days (tstep o))%Z in
  upd <- (if (0 <=? last_div e)%Z
          then
            div <- py_getitem (divs o) (last_div e) ;;
            if (day' <? midnight (fst div))%Z
            then ret (cur_div_val e + snd div, (last_div e - 1)%Z)
            else ret (cur_div_val e, last_div e)
          else ret (cur_div_val e, last_div e)) ;;
  ret {| day := day';
         cur_div_val := discount (fst upd) (tstep o) (rfr o);
         last_div := snd upd |}.

(** The escrow after [k] steps of a sweep. *)
Fixpoint escrow_after (o : Option) (k : nat) : result escrow :=
  match k with
  | O => ret (escrow_init o)
  | S k' => e <- escrow_after o k' ;; escrow_step o e
  end.

(** ** Binomial pricer (lines 44-100) *)

Definition high_mult (vola tstep : R) : result R :=
  r <- py_sqrt (tstep / 365) ;;
  ret (exp (vola * r)).

Definition high_p (rfr vola tstep : R) : result R :=
  u <- high_mult vola tstep ;;
  d <- py_div 1 u ;;
  py_div (exp (rfr * tstep / 365) - d) (u - d).

Module BinOption.

(** The lattice parameters [up], [p_up], [p_down] (lines 61-63). *)
Record params : Type := mkParams { up : R; p_up : R; p_down : R }.

Definition lattice_params (o : Option) : result params :=
  up <- high_mult (vola o) (tstep o) ;;
  p_up <- high_p (rfr o) (vola o) (tstep o) ;;
  ret {| up := up; p_up := p_up; p_down := 1 - p_up |}.

(** Line 65: the length of the buffer. *)
Definition size (periods : Z) : Z := ((periods + 1) * (periods + 2) / 2)%Z.

Definition firstNode (step : Z) : Z := (step * (step + 1) / 2)%Z.

Definition childNode (step : Z) : Z := ((step + 1) * (step + 2) / 2)%Z.

(** Lines 80-90: the body of the inner loop. *)
Definition node (o : Option) (exercise : option payoff) (q : params)
    (adj_price cur_div_val : R) (step i : Z) (pricetree : list R)
  : result (list R) :=
  pw <- py_pow (up q) (2 * i - step) ;;
  let price := adj_price * pw in
  let price := price + cur_div_val in
  exer_val <- call_exercise exercise price (strike o) ;;
  bin_val <- (if (step <? periods o)%Z
              then
                c0 <- py_getitem pricetree (childNode step + i) ;;
                c1 <- py_getitem pricetree (childNode step + i + 1) ;;
                let weighted_avg := p_down q * c0 + p_up q * c1 in
                ret (discount weighted_avg (tstep o) (rfr o))
              else ret 0) ;;
  py_setitem pricetree (firstNode step + i) (py_max3 bin_val exer_val 0).

(** Lines 76-96: the body of the outer loop. *)
Definition level (o : Option) (exercise : option payoff) (q : params)
    (adj_price : R) (step : Z) (st : list R * escrow)
  : result (list R * escrow) :=
  pricetree <- for_ (range (step + 1))
                 (node o exercise q adj_price (cur_div_val (snd st)) step)
                 (fst st) ;;
  e <- escrow_step o (snd st) ;;
  ret (pricetree, e).

(** Lines 75-96: the sweep, from a buffer and an escrow. *)
Definition sweep (o : Option) (exercise : option payoff) (q : params)
    (adj_price : R) (st : list R * escrow) : result (list R * escrow) :=
  for_ (xrange_down (periods o)) (level o exercise q adj_price) st.

Definition pricetree (o : Option) : result (list R) :=
  let exercise := resolve_exercise (type o) in
  q <- lattice_params o ;;
  let pricetree := repeat 0 (Z.to_nat (size (periods o))) in
  st <- sweep o exercise q (adj_price o) (pricetree, escrow_init o) ;;
  ret (fst st).

Definition value (o : Option) : result R :=
  t <- pricetree o ;;
  py_getitem t 0.

End BinOption.

(** ** Trinomial pricer (lines 104-169) *)

Definition tri_high_mult (vola tstep : R) : result R :=
  r <- py_sqrt (2 * tstep / 365) ;;
  ret (exp (vola * r)).

Definition tri_low_mult (vola tstep : R) : result R :=
  r <- py_sqrt (2 * tstep / 365) ;;
  ret (exp (- vola * r)).

Definition tri_high_p (rfr vola tstep : R) : result R :=
  r <- py_sqrt (tstep / 365 / 2) ;;
  let const := vola * r in
  let num := exp (rfr * tstep / 365 / 2) - exp (- const) in
  let den := exp const - exp (- const) in
  x <- py_div num den ;;
  py_pow x 2.

Definition tri_low_p (rfr vola tstep : R) : result R :=
  r <- py_sqrt (tstep / 365 / 2) ;;
  let const := vola * r in
  let num := exp const - exp (rfr * tstep / 365 / 2) in
  let den := exp const - exp (- const) in
  x <- py_div num den ;;
  py_pow x 2.

Module TrinOption.

(** The lattice parameters (lines 129-132). *)
Record params : Type :=
  mkParams { up : R; p_up : R; p_down : R; p_mid : R }.

Definition lattice_params (o : Option) : result params :=
  up <- tri_high_mult (vola o) (tstep o) ;;
  p_up <- tri_high_p (rfr o) (vola o) (tstep o) ;;
  p_down <- tri_low_p (rfr o) (vola o) (tstep o) ;;
  ret {| up := up; p_up := p_up; p_down := p_down;
         p_mid := 1 - p_up - p_down |}.

(** Line 134: the length of the buffer. *)
Definition size (periods : Z) : Z := ((periods + 1) ^ 2)%Z.

Definition firstNode (step : Z) : Z := (step ^ 2)%Z.

Definition childNode (step : Z) : Z := ((step + 1) ^ 2)%Z.

(** Lines 149-159: the body of the inner loop. *)
Definition node (o : Option) (exercise : option payoff) (q : params)
    (adj_price cur_div_val : R) (step i : Z) (pricetree : list R)
  : result (list R) :=
  pw <- py_pow (up q) (i - step) ;;
  let price := adj_price * pw in
  let price := price + cur_div_val in
  exer_val <- call_exercise exercise price (strike o) ;;
  trin_val <- (if (step <? periods o)%Z
               then
                 c0 <- py_getitem pricetree (childNode step + i) ;;
                 c1 <- py_getitem pricetree (childNode step + i + 1) ;;
                 c2 <- py_getitem pricetree (childNode step + i + 2) ;;
                 let weighted_avg :=
                   p_down q * c0 + p_mid q * c1 + p_up q * c2 in
                 ret (discount weighted_avg (tstep o) (rfr o))
               else ret 0) ;;
  py_setitem pricetree (firstNode step + i) (py_max3 trin_val exer_val 0).

(** Lines 145-165: the body of the outer loop. *)
Definition level (o : Option) (exercise : option payoff) (q : params)
    (adj_price : R) (step : Z) (st : list R * escrow)
  : result (list R * escrow) :=
  pricetree <- for_ (range (2 * step + 1))
                 (node o exercise q adj_price (cur_div_val (snd st)) step)
                 (fst st) ;;
  e <- escrow_step o (snd st) ;;
  ret (pricetree, e).

(** Lines 144-165: the sweep, from a buffer and an escrow. *)
Definition sweep (o : Option) (exercise : option payoff) (q : params)
    (adj_price : R) (st : list R * escrow) : result (list R * escrow) :=
  for_ (xrange_down (periods o)) (level o exercise q adj_price) st.

Definition pricetree (o : Option) : result (list R) :=
  let exercise := resolve_exercise (type o) in
  q <- lattice_params o ;;
  let pricetree := repeat 0 (Z.to_nat (size (periods o))) in
  st <- sweep o exercise q (adj_price o) (pricetree, escrow_init o) ;;
  ret (fst st).

Definition value (o : Option) : result R :=
  t <- pricetree o ;;
  py_getitem t 0.

End TrinOption.

(** ** The specification's formulas

    These definitions follow the words of the specification; the theorems
    compare them with the program above. *)

(** The buffer entry at flat offset [k]. *)
Definition peek (t : list R) (k : Z) : R := nth (Z.to_nat k) t 0.

Module Spec.

(** Section 4.2: the payoff of a contract type. *)
Definition exerciseValue (contractType : string) (underlyingPrice strike : R)
  : R :=
  if String.eqb contractType "call" then underlyingPrice - strike
  else strike - underlyingPrice.

(** The mathematical maximum of three numbers. *)
Definition max3 (a b c : R) : R := Rmax (Rmax a b) c.

(** Section 4.3, binomial. *)
Definition bin_up (volatility tstep : R) : R :=
  exp (volatility * sqrt (tstep / 365)).

Definition bin_down (volatility tstep : R) : R :=
  1 / bin_up volatility tstep.

Definition bin_pUp (riskFreeRate volatility tstep : R) : R :=
  (exp (riskFreeRate * tstep / 365) - bin_down volatility tstep)
  / (bin_up volatility tstep - bin_down volatility tstep).

Definition bin_pDown (riskFreeRate volatility tstep : R) : R :=
  1 - bin_pUp riskFreeRate volatility tstep.

(** Section 4.3, trinomial. *)
Definition tri_up (volatility tstep : R) : R :=
  exp (volatility * sqrt (2 * tstep / 365)).

Definition tri_c (volatility tstep : R) : R :=
  volatility * sqrt (tstep / 365 / 2).

Definition tri_pUp (riskFreeRate volatility tstep : R) : R :=
  let c := tri_c volatility tstep in
  ((exp (riskFreeRate * tstep / 365 / 2) - exp (- c))
   / (exp c - exp (- c))) ^ 2.

Definition tri_pDown (riskFreeRate volatility tstep : R) : R :=
  let c := tri_c volatility tstep in
  ((exp c - exp (riskFreeRate * tstep / 365 / 2))
   / (exp c - exp (- c))) ^ 2.

Definition tri_pMid (riskFreeRate volatility tstep : R) : R :=
  1 - tri_pUp riskFreeRate volatility tstep
    - tri_pDown riskFreeRate volatility tstep.

(** Section 4.4: the present value of the retained dividends. *)
Definition initialDividendPV (o : Option) : R :=
  fold_right Rplus 0
    (map (fun d => discount (snd d) (IZR (fst d - today o)) (rfr o))
         (divs o)).

Definition adjustedStartPrice (o : Option) : R :=
  price o - initialDividendPV o.

(** Section 4.4, word for word: one update of the escrow with the current
    date decremented by [tstep] days exactly, dates as real numbers of
    days. *)
Record exact_escrow : Type := mkExactEscrow {
  currentDate : R;
  currentDividendValue : R;
  cursor : Z
}.

Definition exact_init (o : Option) : exact_escrow :=
  {| currentDate := IZR (expi o);
     currentDividendValue := 0;
     cursor := (Z.of_nat (length (divs o)) - 1)%Z |}.

Definition exact_update (o : Option) (e : exact_escrow) : exact_escrow :=
  let newDate := currentDate e - tstep o in
  let absorbed :=
    match (if (0 <=? cursor e)%Z
           then nth_error (divs o) (Z.to_nat (cursor e))
           else None) with
    | Some d =>
        if Rgt_dec (IZR (fst d)) newDate
        then (currentDividendValue e + snd d, (cursor e - 1)%Z)
        else (currentDividendValue e, cursor e)
    | None => (currentDividendValue e, cursor e)
    end in
  {| currentDate := newDate;
     currentDividendValue := discount (fst absorbed) (tstep o) (rfr o);
     cursor := snd absorbed |}.

(** Section 4.4 with the date type of the program: one update of the
    escrow, the current date decremented by [step] microseconds.  The
    dividend under the cursor, when it is dated strictly after the new date,
    is added and the cursor moves back; then the running value is discounted
    one step. *)
Definition escrow_update_by (o : Option) (step : Z) (e : escrow) : escrow :=
  let newDate := (day e - step)%Z in
  let absorbed :=
    match (if (0 <=? last_div e)%Z
           then nth_error (divs o) (Z.to_nat (last_div e))
           else None) with
    | Some d =>
        if (newDate <? midnight (fst d))%Z
        then (cur_div_val e + snd d, (last_div e - 1)%Z)
        else (cur_div_val e, last_div e)
    | None => (cur_div_val e, last_div e)
    end in
  {| day := newDate;
     cur_div_val := discount (fst absorbed) (tstep o) (rfr o);
     last_div := snd absorbed |}.

(** The step is [tstep] days rounded to whole microseconds. *)
Definition escrow_update (o : Option) (e : escrow) : escrow :=
  escrow_update_by o (timedelta_days (tstep o)) e.

(** Section 4.5, items 1-4: the value of node [i] of step [s], its children
    read in the buffer [t] at the offsets [child] and [child + 1]. *)
Definition bin_nodeValue (o : Option) (up pUp pDown currentDividendValue : R)
    (child : Z) (s i : Z) (t : list R) : R :=
  let price :=
    adjustedStartPrice o * powerRZ up (2 * i - s) + currentDividendValue in
  let exerciseVal := exerciseValue (type o) price (strike o) in
  let continuationVal :=
    if (s =? periods o)%Z then 0
    else discount (pDown * peek t child + pUp * peek t (child + 1))
                  (tstep o) (rfr o) in
  max3 continuationVal exerciseVal 0.

(** Section 4.6: the same for the trinomial lattice, three children. *)
Definition tri_nodeValue (o : Option)
    (up pUp pMid pDown currentDividendValue : R)
    (child : Z) (s i : Z) (t : list R) : R :=
  let price :=
    adjustedStartPrice o * powerRZ up (i - s) + currentDividendValue in
  let exerciseVal := exerciseValue (type o) price (strike o) in
  let continuationVal :=
    if (s =? periods o)%Z then 0
    else discount (pDown * peek t child + pMid * peek t (child + 1)
                   + pUp * peek t (child + 2))
                  (tstep o) (rfr o) in
  max3 continuationVal exerciseVal 0.

End Spec.

(** Sections 4.5 and 4.6 as a property of a whole buffer: every node of
    every step holds its value, the children read in the block of the next
    step; [currentDividendValue s] is the escrow while step [s] is
    processed. *)
Definition binomial_backward_induction (o : Option) (up pUp pDown : R)
    (currentDividendValue : Z -> R) (t : list R) : Prop :=
  forall s i : Z, (0 <= i <= s)%Z -> (s <= periods o)%Z ->
    peek t (s * (s + 1) / 2 + i)
    = Spec.bin_nodeValue o up pUp pDown (currentDividendValue s)
        ((s + 1) * (s + 2) / 2 + i) s i t.

Definition trinomial_backward_induction (o : Option) (up pUp pMid pDown : R)
    (currentDividendValue : Z -> R) (t : list R) : Prop :=
  forall s i : Z, (0 <= i <= 2 * s)%Z -> (s <= periods o)%Z ->
    peek t (s ^ 2 + i)
    = Spec.tri_nodeValue o up pUp pMid pDown (currentDividendValue s)
        ((s + 1) ^ 2 + i) s i t.

(** ** The common shape of the two sweeps

    Both outer loops run one inner loop over the nodes of a step and then
    update the escrow; they differ in the number of nodes of a step and in
    the body of the inner loop.  [BinOption.level] and [TrinOption.level] are
    instances of [lattice_level], the two sweeps of [lattice_sweep]. *)

Section LatticeShape.

Variable o : Option.
Variable width : Z -> Z.
Variable node : R -> Z -> Z -> list R -> result (list R).

Definition lattice_level (step : Z) (st : list R * escrow)
  : result (list R * escrow) :=
  pricetree <- for_ (range (width step))
                 (node (cur_div_val (snd st)) step) (fst st) ;;
  e <- escrow_step o (snd st) ;;
  ret (pricetree, e).

Definition lattice_sweep (st : list R * escrow)
  : result (list R * escrow) :=
  for_ (xrange_down (periods o)) lattice_level st.

End LatticeShape.

(** The cursor is a position of the dividend list, or -1. *)
Definition cursor_ok (o : Option) (e : escrow) : Prop :=
  (-1 <= last_div e < Z.of_nat (length (divs o)))%Z.

(** The escrow after [k] updates of the specification. *)
Definition escrow_at (o : Option) (k : nat) : escrow :=
  Nat.iter k (Spec.escrow_update o) (escrow_init o).

(** Ascending order of the dividend dates. *)
Definition by_date (a b : dividend) : Prop := (fst a <= fst b)%Z.

(** The [divs] entry of the input, empty when the key is missing. *)
Definition input_divs (info : Info) : list dividend :=
  match info_divs info with
  | Some ds => ds
  | None => []
  end.

(** The errors of float arithmetic. *)
Definition arithmetic_error (e : exn) : Prop :=
  e = ZeroDivisionError \/ e = ValueError.

(** ** Sample contracts

    The example data of the source (lines 172-174), dates as day numbers:
    1/19/2018 is day 736713, 4/19/2018 day 736803, 4/21/2018 day 736805 and
    5/19/2018 day 736833. *)

Definition testDivs : list dividend := [(736803%Z, 2); (736805%Z, 2)].

Definition testInfo : Info :=
  {| info_today := 736713; info_type := "call"; info_price := 50;
     info_strike := 50; info_vola := 4 / 10; info_expi := 736833;
     info_rfr := 9 / 100; info_divs := Some testDivs;
     info_periods := Some 200%Z |}.

(** The object [BinOption(testInfo)] (or [TrinOption(testInfo)]). *)
Definition testOp : Option :=
  {| today := 736713; type := "call"; price := 50; strike := 50;
     vola := 4 / 10; expi := 736833; rfr := 9 / 100; divs := testDivs;
     periods := 200; tstep := IZR (736833 - 736713) / IZR 200 |}.

(** The same contract with the default of three periods, 40 days each: both
    dividends fall into the last period. *)
Definition coarseInfo : Info :=
  {| info_today := 736713; info_type := "call"; info_price := 50;
     info_strike := 50; info_vola := 4 / 10; info_expi := 736833;
     info_rfr := 9 / 100; info_divs := Some testDivs;
     info_periods := None |}.

Definition coarseOp : Option :=
  {| today := 736713; type := "call"; price := 50; strike := 50;
     vola := 4 / 10; expi := 736833; rfr := 9 / 100; divs := testDivs;
     periods := 3; tstep := IZR (736833 - 736713) / IZR 3 |}.

(** A contract of an unknown type. *)
Definition straddleOp : Option :=
  {| today := 736713; type := "straddle"; price := 50; strike := 50;
     vola := 4 / 10; expi := 736833; rfr := 9 / 100; divs := [];
     periods := 3; tstep := IZR (736833 - 736713) / IZR 3 |}.

(** Input with a negative and with a zero period count. *)
Definition negativePeriodsInfo : Info :=
  {| info_today := 736713; info_type := "call"; info_price := 50;
     info_strike := 50; info_vola := 4 / 10; info_expi := 736833;
     info_rfr := 9 / 100; info_divs := None;
     info_periods := Some (-3)%Z |}.

Definition zeroPeriodsInfo : Info :=
  {| info_today := 736713; info_type := "call"; info_price := 50;
     info_strike := 50; info_vola := 4 / 10; info_expi := 736833;
     info_rfr := 9 / 100; info_divs := None;
     info_periods := Some 0%Z |}.

(** The sample contract without dividends, three periods. *)
Definition plainOp : Option :=
  {| today := 736713; type := "call"; price := 50; strike := 50;
     vola := 4 / 10; expi := 736833; rfr := 9 / 100; divs := [];
     periods := 3; tstep := IZR (736833 - 736713) / IZR 3 |}.

(** The sample contract with a volatility of 0. *)
Definition flatOp : Option :=
  {| today := 736713; type := "call"; price := 50; strike := 50;
     vola := 0; expi := 736833; rfr := 9 / 100; divs := [];
     periods := 3; tstep := IZR (736833 - 736713) / IZR 3 |}.

(** Input whose expiry date is before the valuation date, with three
    periods and with minus three. *)
Definition expiredInfo : Info :=
  {| info_today := 736833; info_type := "call"; info_price := 50;
     info_strike := 50; info_vola := 4 / 10; info_expi := 736713;
     info_rfr := 9 / 100; info_divs := None;
     info_periods := None |}.

Definition backdatedOp : Option :=
  {| today := 736833; type := "straddle"; price := 50; strike := 50;
     vola := 4 / 10; expi := 736713; rfr := 9 / 100; divs := [];
     periods := -3; tstep := IZR (736713 - 736833) / IZR (-3) |}.

(** A contract with another strike, and with another spot price. *)
Definition with_strike (o : Option) (k : R) : Option :=
  {| today := today o; type := type o; price := price o; strike := k;
     vola := vola o; expi := expi o; rfr := rfr o; divs := divs o;
     periods := periods o; tstep := tstep o |}.

Definition with_price (o : Option) (s : R) : Option :=
  {| today := today o; type := type o; price := s; strike := strike o;
     vola := vola o; expi := expi o; rfr := rfr o; divs := divs o;
     periods := periods o; tstep := tstep o |}.

(** The sample contract as a put, three periods. *)
Definition putOp : Option :=
  {| today := 736713; type := "put"; price := 50; strike := 50;
     vola := 4 / 10; expi := 736833; rfr := 9 / 100; divs := testDivs;
     periods := 3; tstep := IZR (736833 - 736713) / IZR 3 |}.

(** A contract of 4 days and 14 periods with one dividend, 2 days before the
    expiry date: the time step is not a whole number of microseconds. *)
Definition shortOp : Option :=
  {| today := 736713; type := "call"; price := 50; strike := 50;
     vola := 4 / 10; expi := 736717; rfr := 9 / 100;
     divs := [(736715%Z, 2)];
     periods := 14; tstep := IZR (736717 - 736713) / IZR 14 |}.

(** The input of [shortOp]. *)
Definition shortInfo : Info :=
  {| info_today := 736713; info_type := "call"; info_price := 50;
     info_strike := 50; info_vola := 4 / 10; info_expi := 736717;
     info_rfr := 9 / 100; info_divs := Some [(736715%Z, 2)];
     info_periods := Some 14%Z |}.

(** The sample input with seven periods. *)
Definition seventhsInfo : Info :=
  {| info_today := 736713; info_type := "call"; info_price := 50;
     info_strike := 50; info_vola := 4 / 10; info_expi := 736833;
     info_rfr := 9 / 100; info_divs := Some testDivs;
     info_periods := Some 7%Z |}.

(** * Properties *)

(** ** The model on small inputs *)

Example range_3 : range 3 = [0; 1; 2]%Z.
Proof. reflexivity. Qed.

Example range_negative : range (-2) = [].
Proof. reflexivity. Qed.

Example xrange_down_3 : xrange_down 3 = [3; 2; 1; 0]%Z.
Proof. reflexivity. Qed.

Example xrange_down_negative : xrange_down (-1) = [].
Proof. reflexivity. Qed.

Example bin_offsets_3 :
  map BinOption.firstNode [0; 1; 2; 3]%Z = [0; 1; 3; 6]%Z
  /\ BinOption.size 3 = 10%Z.
Proof. split; reflexivity. Qed.

Example tri_offsets_3 :
  map TrinOption.firstNode [0; 1; 2; 3]%Z = [0; 1; 4; 9]%Z
  /\ TrinOption.size 3 = 16%Z.
Proof. split; reflexivity. Qed.

Example getitem_negative_index :
  py_getitem [10; 20; 30]%Z (-1) = inr 30%Z
  /\ py_getitem [10; 20; 30]%Z 3 = inl IndexError
  /\ py_getitem [10; 20; 30]%Z (-4) = inl IndexError.
Proof. repeat split; reflexivity. Qed.

(** A dividend on the valuation date is dropped, the others are sorted, two
    of one date in their input order. *)
Example init_divs_sample :
  init_divs
    {| info_today := 100; info_type := "put"; info_price := 1;
       info_strike := 1; info_vola := 1; info_expi := 200; info_rfr := 0;
       info_divs := Some [(150%Z, 1); (100%Z, 2); (120%Z, 3); (150%Z, 4);
                          (90%Z, 5)];
       info_periods := None |}
  = [(120%Z, 3); (150%Z, 1); (150%Z, 4)].
Proof. reflexivity. Qed.

(** ** The error monad and the loops *)

Lemma bind_inr {A B : Type} (m : result A) (k : A -> result B) (b : B) :
  bind m k = inr b -> exists a, m = inr a /\ k a = inr b.
Proof.
  destruct m as [e | a]; simpl; intros H; [discriminate | eauto].
Qed.

Lemma for_app {S A : Type} (xs ys : list A) (body : A -> S -> result S)
    (s : S) :
  for_ (xs ++ ys) body s = (s' <- for_ xs body s ;; for_ ys body s').
Proof.
  revert s; induction xs as [| x xs IH]; intros s; simpl; [reflexivity |].
  destruct (body x s) as [e | s']; simpl; [reflexivity | apply IH].
Qed.

Lemma range_succ (n : Z) :
  (0 <= n)%Z -> range (n + 1) = range n ++ [n].
Proof.
  intros Hn; unfold range.
  replace (Z.to_nat (n + 1)) with (S (Z.to_nat n)) by lia.
  rewrite seq_S, map_app; simpl.
  now rewrite Z2Nat.id by lia.
Qed.

(** A loop over [range n] that cannot fail while its invariant holds: it
    ends, in a state of the invariant. *)
Lemma for_range_total {S : Type} (body : Z -> S -> result S)
    (I : Z -> S -> Prop) (n : Z) (s0 : S) :
  (0 <= n)%Z ->
  I 0%Z s0 ->
  (forall i s, (0 <= i < n)%Z -> I i s ->
     exists s', body i s = inr s' /\ I (i + 1)%Z s') ->
  exists s1, for_ (range n) body s0 = inr s1 /\ I n s1.
Proof.
  intros Hn H0 Hstep.
  cut (forall m : nat, (Z.of_nat m <= n)%Z ->
         exists s1, for_ (range (Z.of_nat m)) body s0 = inr s1
                    /\ I (Z.of_nat m) s1).
  { intros Hcut. specialize (Hcut (Z.to_nat n)).
    rewrite Z2Nat.id in Hcut by lia. apply Hcut; lia. }
  induction m as [| m IH]; intros Hm.
  - exists s0; split; [reflexivity | exact H0].
  - destruct IH as [s1 [Hrun Hinv]]; [lia |].
    destruct (Hstep (Z.of_nat m) s1) as [s2 [Hbody Hinv2]]; [lia | exact Hinv |].
    exists s2. rewrite Nat2Z.inj_succ. unfold Z.succ.
    rewrite range_succ by lia. rewrite for_app, Hrun; simpl.
    rewrite Hbody; split; [reflexivity | exact Hinv2].
Qed.

(** The same for the descending loop: [I k] holds when [k] steps remain. *)
Lemma for_countdown_total {S : Type} (body : Z -> S -> result S)
    (I : nat -> S -> Prop) (n : nat) (s0 : S) :
  I n s0 ->
  (forall k s, (k < n)%nat -> I (Datatypes.S k) s ->
     exists s', body (Z.of_nat k) s = inr s' /\ I k s') ->
  exists s1, for_ (countdown n) body s0 = inr s1 /\ I O s1.
Proof.
  revert s0; induction n as [| n IH]; intros s0 H0 Hstep.
  - exists s0; split; [reflexivity | exact H0].
  - destruct (Hstep n s0) as [s' [Hbody Hinv]]; [lia | exact H0 |].
    simpl. rewrite Hbody; simpl.
    apply IH; [exact Hinv |].
    intros k s Hk; apply Hstep; lia.
Qed.

(** ** The buffer *)

Lemma list_set_length {A : Type} (l : list A) (j : nat) (v : A) :
  length (list_set l j v) = length l.
Proof.
  revert j; induction l as [| x xs IH]; intros [| j]; simpl; auto.
Qed.

Lemma nth_list_set {A : Type} (l : list A) (j k : nat) (v d : A) :
  (j < length l)%nat ->
  nth k (list_set l j v) d = if Nat.eqb k j then v else nth k l d.
Proof.
  revert j k; induction l as [| x xs IH]; intros j k Hj; simpl in Hj; [lia |].
  destruct j as [| j], k as [| k]; simpl; try reflexivity.
  apply IH; lia.
Qed.

Lemma py_index_in_range {A : Type} (l : list A) (k : Z) :
  (0 <= k < Z.of_nat (length l))%Z -> py_index l k = Some (Z.to_nat k).
Proof.
  intros Hk; unfold py_index.
  destruct (Z.leb_spec 0 k); [| lia].
  destruct (Z.ltb_spec k (Z.of_nat (length l))); [reflexivity | lia].
Qed.

Lemma py_getitem_in_range {A : Type} (l : list A) (k : Z) (d : A) :
  (0 <= k < Z.of_nat (length l))%Z ->
  py_getitem l k = inr (nth (Z.to_nat k) l d).
Proof.
  intros Hk; unfold py_getitem.
  rewrite py_index_in_range by exact Hk.
  destruct (nth_error l (Z.to_nat k)) as [x |] eqn:E.
  - now rewrite (nth_error_nth _ _ d E).
  - apply nth_error_None in E; lia.
Qed.

Lemma py_getitem_nth_error {A : Type} (l : list A) (k : Z) :
  (0 <= k < Z.of_nat (length l))%Z ->
  exists x, nth_error l (Z.to_nat k) = Some x /\ py_getitem l k = inr x.
Proof.
  intros Hk; unfold py_getitem.
  rewrite py_index_in_range by exact Hk.
  destruct (nth_error l (Z.to_nat k)) as [x |] eqn:E.
  - exists x; split; reflexivity.
  - apply nth_error_None in E; lia.
Qed.

Lemma py_setitem_in_range {A : Type} (l : list A) (k : Z) (v : A) :
  (0 <= k < Z.of_nat (length l))%Z ->
  py_setitem l k v = inr (list_set l (Z.to_nat k) v).
Proof.
  intros Hk; unfold py_setitem.
  now rewrite py_index_in_range by exact Hk.
Qed.

Lemma peek_list_set (t : list R) (j k : Z) (v : R) :
  (0 <= j < Z.of_nat (length t))%Z -> (0 <= k)%Z ->
  peek (list_set t (Z.to_nat j) v) k = if (k =? j)%Z then v else peek t k.
Proof.
  intros Hj Hk; unfold peek.
  rewrite nth_list_set by lia.
  destruct (Z.eqb_spec k j) as [-> | Hne].
  - now rewrite Nat.eqb_refl.
  - destruct (Nat.eqb_spec (Z.to_nat k) (Z.to_nat j)); [lia | reflexivity].
Qed.

(** ** [max] *)

Lemma py_max3_spec (a b c : R) : py_max3 a b c = Spec.max3 a b c.
Proof.
  unfold py_max3, Spec.max3.
  destruct (Rgt_dec b a) as [Hb | Hb].
  - rewrite (Rmax_right a b) by lra.
    destruct (Rgt_dec c b); [rewrite Rmax_right | rewrite Rmax_left]; lra.
  - rewrite (Rmax_left a b) by lra.
    destruct (Rgt_dec c a); [rewrite Rmax_right | rewrite Rmax_left]; lra.
Qed.

Lemma max3_floor (a b : R) : 0 <= Spec.max3 a b 0.
Proof. unfold Spec.max3; apply Rmax_r. Qed.

(** ** The payoff *)

Lemma resolve_exercise_known (ty : string) :
  ty = "call"%string \/ ty = "put"%string ->
  resolve_exercise ty = Some (Spec.exerciseValue ty).
Proof.
  intros [-> | ->]; reflexivity.
Qed.

Lemma resolve_exercise_unknown (ty : string) :
  ty <> "call"%string -> ty <> "put"%string -> resolve_exercise ty = None.
Proof.
  intros Hc Hp; unfold resolve_exercise.
  destruct (String.eqb_spec ty "call"); [contradiction |].
  destruct (String.eqb_spec ty "put"); [contradiction | reflexivity].
Qed.

(** ** The escrow *)

Lemma start_div_val_sum (o : Option) :
  start_div_val o = Spec.initialDividendPV o.
Proof.
  unfold start_div_val, Spec.initialDividendPV.
  set (g := fun d : dividend =>
              discount (snd d) (IZR (fst d - today o)) (rfr o)).
  assert (H : forall (l : list dividend) (acc : R),
             fold_left (fun a d => a + g d) l acc
             = acc + fold_right Rplus 0 (map g l)).
  { induction l as [| d l IH]; intros acc; simpl; [lra |].
    rewrite IH; apply Rplus_assoc. }
  rewrite H; apply Rplus_0_l.
Qed.

Lemma escrow_step_update (o : Option) (e : escrow) :
  cursor_ok o e -> escrow_step o e = inr (Spec.escrow_update o e).
Proof.
  intros Hc; unfold cursor_ok in Hc.
  unfold escrow_step, Spec.escrow_update, Spec.escrow_update_by.
  destruct (Z.leb_spec 0 (last_div e)) as [Hpos | Hneg]; [| reflexivity].
  destruct (py_getitem_nth_error (divs o) (last_div e)) as [d [Hn Hg]];
    [lia |].
  rewrite Hg, Hn; simpl.
  destruct (day e - timedelta_days (tstep o) <? midnight (fst d))%Z;
    reflexivity.
Qed.

Lemma escrow_update_cursor (o : Option) (e : escrow) :
  (last_div e - 1 <= last_div (Spec.escrow_update o e) <= last_div e)%Z
  /\ ((0 <= last_div e)%Z \/
      last_div (Spec.escrow_update o e) = last_div e).
Proof.
  unfold Spec.escrow_update, Spec.escrow_update_by.
  destruct (Z.leb_spec 0 (last_div e)) as [Hpos | Hneg]; simpl.
  - split; [| left; exact Hpos].
    destruct (nth_error (divs o) (Z.to_nat (last_div e))) as [d |]; simpl;
      [destruct (day e - timedelta_days (tstep o) <? midnight (fst d))%Z;
       simpl |]; lia.
  - split; [lia | right; reflexivity].
Qed.

Lemma escrow_update_cursor_ok (o : Option) (e : escrow) :
  cursor_ok o e -> cursor_ok o (Spec.escrow_update o e).
Proof.
  unfold cursor_ok; intros Hc.
  destruct (escrow_update_cursor o e) as [Hb [Hpos | Heq]]; lia.
Qed.

(** An update that finds the dividend under its cursor dated after the new
    date absorbs that dividend, and no other. *)
Lemma escrow_update_absorbs (o : Option) (e : escrow) (d : dividend) :
  (0 <= last_div e)%Z ->
  nth_error (divs o) (Z.to_nat (last_div e)) = Some d ->
  (day e - timedelta_days (tstep o) < midnight (fst d))%Z ->
  last_div (Spec.escrow_update o e) = (last_div e - 1)%Z
  /\ cur_div_val (Spec.escrow_update o e)
     = discount (cur_div_val e + snd d) (tstep o) (rfr o)
  /\ day (Spec.escrow_update o e) = (day e - timedelta_days (tstep o))%Z.
Proof.
  intros Hpos Hd Hafter.
  unfold Spec.escrow_update, Spec.escrow_update_by.
  destruct (Z.leb_spec 0 (last_div e)); [| lia].
  rewrite Hd.
  destruct (Z.ltb_spec (day e - timedelta_days (tstep o))
                       (midnight (fst d))); [| lia].
  simpl. auto.
Qed.

(** ** Rounding to whole microseconds *)

Lemma round_to_long_near (y : R) :
  - / 2 <= IZR (round_to_long y) - y <= / 2.
Proof.
  unfold round_to_long.
  destruct (Rle_dec 0 y) as [Hy | Hy].
  - pose proof (base_Int_part (y + / 2)) as [H1 H2]. lra.
  - pose proof (base_Int_part (- y + / 2)) as [H1 H2].
    rewrite opp_IZR. lra.
Qed.

Lemma round_to_long_unique (y : R) (n : Z) :
  0 <= y -> IZR n - / 2 <= y < IZR n + / 2 -> round_to_long y = n.
Proof.
  intros Hy Hn. unfold round_to_long.
  destruct (Rle_dec 0 y); [| contradiction].
  symmetry. apply Int_part_spec. lra.
Qed.

Lemma round_to_long_IZR (n : Z) : round_to_long (IZR n) = n.
Proof.
  unfold round_to_long.
  destruct (Rle_dec 0 (IZR n)) as [Hy | Hy].
  - symmetry. apply Int_part_spec. lra.
  - rewrite <- opp_IZR.
    rewrite <- (Int_part_spec (IZR (- n) + / 2) (- n)%Z) by lra.
    ring.
Qed.

Lemma round_to_long_nonneg (y : R) : 0 <= y -> (0 <= round_to_long y)%Z.
Proof.
  intros Hy. pose proof (round_to_long_near y) as [H1 _].
  assert (H : IZR (-1) < IZR (round_to_long y)) by (simpl; lra).
  apply lt_IZR in H. lia.
Qed.

Lemma timedelta_days_near (x : R) :
  - / 2 <= IZR (timedelta_days x) - x * IZR us_per_day <= / 2.
Proof. apply round_to_long_near. Qed.

Lemma timedelta_days_nonneg (x : R) : 0 <= x -> (0 <= timedelta_days x)%Z.
Proof.
  intros Hx. apply round_to_long_nonneg.
  assert (0 < IZR us_per_day) by (apply (IZR_lt 0); reflexivity).
  nra.
Qed.

(** A step of a whole number of microseconds is not rounded. *)
Lemma timedelta_days_whole (d p q : Z) :
  p <> 0%Z -> (d * us_per_day = p * q)%Z ->
  timedelta_days (IZR d / IZR p) = q.
Proof.
  intros Hp Hq. unfold timedelta_days.
  replace (IZR d / IZR p * IZR us_per_day) with (IZR q);
    [apply round_to_long_IZR |].
  assert (Hp' : IZR p <> 0) by (intros H; apply eq_IZR_R0 in H; contradiction).
  apply (f_equal IZR) in Hq. rewrite !mult_IZR in Hq.
  field_simplify_eq; [| exact Hp']. lra.
Qed.

Lemma escrow_at_by (o : Option) (step : Z) (k : nat) :
  timedelta_days (tstep o) = step ->
  escrow_at o k = Nat.iter k (Spec.escrow_update_by o step) (escrow_init o).
Proof. intros <-. reflexivity. Qed.

Lemma escrow_update_day (o : Option) (e : escrow) :
  day (Spec.escrow_update o e) = (day e - timedelta_days (tstep o))%Z.
Proof. reflexivity. Qed.

(** The escrow of the specification's words, while the only dividend is
    not after the date reached. *)
Lemma exact_single_dividend (o : Option) (d : dividend) (k : nat) :
  divs o = [d] -> 0 <= tstep o ->
  IZR (fst d) <= IZR (expi o) - INR k * tstep o ->
  Spec.cursor (Nat.iter k (Spec.exact_update o) (Spec.exact_init o)) = 0%Z
  /\ Spec.currentDate (Nat.iter k (Spec.exact_update o) (Spec.exact_init o))
     = IZR (expi o) - INR k * tstep o.
Proof.
  intros Hd Hts. induction k as [| k IH]; intros Hk.
  - unfold Spec.exact_init; rewrite Hd; simpl. split; [reflexivity | ring].
  - rewrite S_INR in Hk |- *.
    destruct IH as [Hc Hday]; [nra |].
    simpl Nat.iter.
    set (e := Nat.iter k (Spec.exact_update o) (Spec.exact_init o)) in *.
    unfold Spec.exact_update. rewrite Hc, Hday, Hd; simpl.
    destruct (Rgt_dec (IZR (fst d)) (IZR (expi o) - INR k * tstep o - tstep o))
      as [Hgt | _]; simpl; [lra | split; [reflexivity | ring]].
Qed.

Lemma shortOp_timedelta : timedelta_days (tstep shortOp) = 24685714286%Z.
Proof.
  unfold timedelta_days. simpl tstep.
  replace (736717 - 736713)%Z with 4%Z by reflexivity.
  unfold us_per_day.
  apply round_to_long_unique; lra.
Qed.

Lemma escrow_init_cursor_ok (o : Option) : cursor_ok o (escrow_init o).
Proof. unfold cursor_ok, escrow_init; simpl; lia. Qed.

Lemma escrow_after_iter (o : Option) (k : nat) :
  escrow_after o k = inr (escrow_at o k) /\ cursor_ok o (escrow_at o k).
Proof.
  unfold escrow_at.
  induction k as [| k [IHrun IHok]]; simpl.
  - split; [reflexivity | apply escrow_init_cursor_ok].
  - rewrite IHrun; simpl. split.
    + now apply escrow_step_update.
    + now apply escrow_update_cursor_ok.
Qed.

(** ** The sweep over a lattice of blocks

    The proof common to the two pricers: the buffer is a sequence of blocks,
    block [s] at the offsets [first s .. first (s + 1) - 1]; the inner loop
    writes block [s] from the blocks after it. *)

Section LatticeSweep.

Variable o : Option.
Variable first width : Z -> Z.
Variable size : Z.
Variable node : R -> Z -> Z -> list R -> result (list R).
Variable nodeval : R -> Z -> Z -> list R -> R.

Hypothesis size_first : size = first (periods o + 1).
Hypothesis first_zero : (0 <= first 0)%Z.
Hypothesis first_next :
  forall s, (0 <= s)%Z -> first (s + 1) = (first s + width s)%Z.
Hypothesis width_pos : forall s, (0 <= s)%Z -> (0 < width s)%Z.
Hypothesis node_writes :
  forall cdv s i t,
    Z.of_nat (length t) = size ->
    (0 <= s <= periods o)%Z -> (0 <= i < width s)%Z ->
    node cdv s i t
    = inr (list_set t (Z.to_nat (first s + i)) (nodeval cdv s i t)).
Hypothesis nodeval_reads_children :
  forall cdv s i t1 t2,
    (0 <= s <= periods o)%Z -> (0 <= i < width s)%Z ->
    (forall k, (first (s + 1) <= k)%Z -> peek t1 k = peek t2 k) ->
    nodeval cdv s i t1 = nodeval cdv s i t2.

Lemma first_mono (a b : Z) : (0 <= a <= b)%Z -> (first a <= first b)%Z.
Proof.
  intros [Ha Hab].
  replace b with (a + Z.of_nat (Z.to_nat (b - a)))%Z by lia.
  induction (Z.to_nat (b - a)) as [| n IH]; [rewrite Z.add_0_r; lia |].
  rewrite Nat2Z.inj_succ.
  replace (a + Z.succ (Z.of_nat n))%Z with (a + Z.of_nat n + 1)%Z by lia.
  rewrite first_next by lia.
  specialize (width_pos (a + Z.of_nat n)%Z); lia.
Qed.

Lemma block_in_buffer (s i : Z) :
  (0 <= s <= periods o)%Z -> (0 <= i < width s)%Z ->
  (0 <= first s + i < size)%Z /\ (first s + i < first (s + 1))%Z.
Proof.
  intros Hs Hi.
  pose proof (first_mono 0 s ltac:(lia)).
  pose proof (first_mono (s + 1) (periods o + 1) ltac:(lia)).
  pose proof (first_next s ltac:(lia)).
  rewrite size_first; lia.
Qed.

(** The inner loop writes block [s] and nothing else. *)
Lemma level_nodes (cdv : R) (s : Z) (t : list R) :
  Z.of_nat (length t) = size -> (0 <= s <= periods o)%Z ->
  exists t',
    for_ (range (width s)) (node cdv s) t = inr t'
    /\ Z.of_nat (length t') = size
    /\ forall k, (0 <= k)%Z ->
         peek t' k
         = if ((first s <=? k) && (k <? first (s + 1)))%Z
           then nodeval cdv s (k - first s) t
           else peek t k.
Proof.
  intros Hlen Hs.
  destruct (for_range_total (node cdv s)
    (fun j t' =>
       Z.of_nat (length t') = size
       /\ forall k, (0 <= k)%Z ->
            peek t' k
            = if ((first s <=? k) && (k <? first s + j))%Z
              then nodeval cdv s (k - first s) t
              else peek t k)
    (width s) t) as [t' [Hrun [Hlen' Hval]]].
  - specialize (width_pos s); lia.
  - split; [exact Hlen |]. intros k Hk.
    destruct (Z.leb_spec (first s) k), (Z.ltb_spec k (first s + 0)); simpl;
      try reflexivity; lia.
  - intros i t1 Hi [Hlen1 Hval1].
    destruct (block_in_buffer s i Hs Hi) as [Hin Hblk].
    rewrite first_next in Hblk by lia.
    exists (list_set t1 (Z.to_nat (first s + i)) (nodeval cdv s i t1)).
    split; [now apply node_writes |].
    split; [now rewrite list_set_length |].
    intros k Hk.
    rewrite peek_list_set by lia.
    rewrite (nodeval_reads_children cdv s i t1 t Hs Hi).
    2:{ intros k' Hk'. rewrite first_next in Hk' by lia.
        rewrite Hval1 by lia.
        destruct (Z.leb_spec (first s) k'), (Z.ltb_spec k' (first s + i));
          simpl; try reflexivity; lia. }
    rewrite Hval1 by lia.
    destruct (Z.eqb_spec k (first s + i)) as [-> | Hne].
    + replace (first s + i - first s)%Z with i by lia.
      destruct (Z.leb_spec (first s) (first s + i)),
               (Z.ltb_spec (first s + i) (first s + (i + 1)));
        simpl; try reflexivity; lia.
    + destruct (Z.leb_spec (first s) k), (Z.ltb_spec k (first s + i)),
               (Z.ltb_spec k (first s + (i + 1)));
        simpl; try reflexivity; lia.
  - exists t'; split; [exact Hrun |]. split; [exact Hlen' |].
    intros k Hk. rewrite Hval by exact Hk.
    now rewrite first_next by lia.
Qed.

(** The whole sweep: it ends, and every entry of the final buffer is the
    value of its node, computed from the final buffer with the escrow of
    its step. *)
Lemma lattice_sweep_correct (t0 : list R) :
  (0 <= periods o)%Z ->
  Z.of_nat (length t0) = size ->
  exists t,
    lattice_sweep o width node (t0, escrow_init o)
    = inr (t, escrow_at o (Z.to_nat (periods o + 1)))
    /\ Z.of_nat (length t) = size
    /\ forall s i, (0 <= s <= periods o)%Z -> (0 <= i < width s)%Z ->
         peek t (first s + i)
         = nodeval (cur_div_val (escrow_at o (Z.to_nat (periods o - s))))
                   s i t.
Proof.
  intros HP Hlen.
  set (n := Z.to_nat (periods o + 1)).
  destruct (for_countdown_total (lattice_level o width node)
    (fun k st =>
       Z.of_nat (length (fst st)) = size
       /\ snd st = escrow_at o (n - k)
       /\ forall s i, (Z.of_nat k <= s <= periods o)%Z ->
            (0 <= i < width s)%Z ->
            peek (fst st) (first s + i)
            = nodeval
                (cur_div_val (escrow_at o (Z.to_nat (periods o - s))))
                s i (fst st))
    n (t0, escrow_init o)) as [[t e] [Hrun [Hlen' [He Hval]]]].
  - simpl. split; [exact Hlen |]. split.
    + now rewrite Nat.sub_diag.
    + intros s i Hs; lia.
  - intros k [t e] Hk [Hlen1 [He1 Hval1]]; simpl in Hlen1, He1, Hval1.
    assert (Hks : (0 <= Z.of_nat k <= periods o)%Z) by lia.
    destruct (level_nodes (cur_div_val e) (Z.of_nat k) t Hlen1 Hks)
      as [t' [Hrun' [Hlen' Hval']]].
    exists (t', Spec.escrow_update o e).
    unfold lattice_level; simpl.
    rewrite Hrun'; simpl.
    assert (Hok : cursor_ok o e)
      by (rewrite He1; apply escrow_after_iter).
    rewrite (escrow_step_update o e Hok); simpl.
    split; [reflexivity |]. split; [exact Hlen' |]. split.
    + rewrite He1. unfold escrow_at.
      replace (n - k)%nat with (S (n - S k)) by lia. reflexivity.
    + intros s i Hs Hi.
      assert (Hs' : (0 <= s <= periods o)%Z) by lia.
      destruct (block_in_buffer s i Hs' Hi) as [Hin Hblk].
      pose proof (first_mono 0 (Z.of_nat k) ltac:(lia)) as Hk0.
      pose proof (first_mono 0 (Z.of_nat k + 1) ltac:(lia)) as Hk1.
      assert (Hout : forall k', (first (Z.of_nat k + 1) <= k')%Z ->
                       peek t' k' = peek t k').
      { intros k' Hk'. rewrite Hval' by lia.
        destruct (Z.leb_spec (first (Z.of_nat k)) k'),
                 (Z.ltb_spec k' (first (Z.of_nat k + 1)));
          simpl; try reflexivity; lia. }
      destruct (Z.eq_dec s (Z.of_nat k)) as [-> | Hne].
      * rewrite Hval' by lia.
        destruct (Z.leb_spec (first (Z.of_nat k)) (first (Z.of_nat k) + i)),
                 (Z.ltb_spec (first (Z.of_nat k) + i)
                             (first (Z.of_nat k + 1)));
          simpl; try lia.
        replace (first (Z.of_nat k) + i - first (Z.of_nat k))%Z with i
          by lia.
        rewrite He1.
        replace (n - S k)%nat with (Z.to_nat (periods o - Z.of_nat k))
          by lia.
        apply nodeval_reads_children; auto.
        intros k' Hk'; symmetry; now apply Hout.
      * pose proof (first_mono (Z.of_nat k + 1) s ltac:(lia)) as Hks1.
        pose proof (first_mono s (s + 1) ltac:(lia)) as Hss.
        rewrite Hout by lia.
        rewrite Hval1 by lia.
        apply nodeval_reads_children; auto.
        intros k' Hk'; symmetry; apply Hout; lia.
  - simpl in Hlen', He, Hval.
    exists t. unfold lattice_sweep, xrange_down. fold n.
    rewrite Hrun, He, Nat.sub_0_r.
    split; [reflexivity |]. split; [exact Hlen' |].
    intros s i Hs Hi; apply Hval; lia.
Qed.

End LatticeSweep.

(** ** Lattice parameters *)

Lemma py_sqrt_nonneg (x : R) : 0 <= x -> py_sqrt x = inr (sqrt x).
Proof.
  intros Hx; unfold py_sqrt.
  destruct (Rlt_dec x 0); [lra | reflexivity].
Qed.

Lemma py_div_nonzero (a b : R) : b <> 0 -> py_div a b = inr (a / b).
Proof.
  intros Hb; unfold py_div.
  destruct (Req_dec_T b 0); [contradiction | reflexivity].
Qed.

Lemma py_div_zero (a : R) : py_div a 0 = inl ZeroDivisionError.
Proof.
  unfold py_div.
  destruct (Req_dec_T 0 0) as [_ | H]; [reflexivity | now elim H].
Qed.

Lemma py_div_inr (a b q : R) : py_div a b = inr q -> b <> 0 /\ q = a / b.
Proof.
  unfold py_div.
  destruct (Req_dec_T b 0); [discriminate |].
  intros H; injection H as <-; auto.
Qed.

Lemma py_sqrt_inr (x r : R) : py_sqrt x = inr r -> 0 <= x /\ r = sqrt x.
Proof.
  unfold py_sqrt.
  destruct (Rlt_dec x 0); [discriminate |].
  intros H; injection H as <-; split; [lra | reflexivity].
Qed.

Lemma py_pow_nonzero (x : R) (n : Z) :
  x <> 0 -> py_pow x n = inr (powerRZ x n).
Proof.
  intros Hx; unfold py_pow.
  destruct (Req_dec_T x 0); [contradiction | reflexivity].
Qed.

Lemma py_pow_square (x : R) : py_pow x 2 = inr (x ^ 2).
Proof.
  unfold py_pow.
  destruct (Req_dec_T x 0); reflexivity.
Qed.

(** [exp x] and its inverse differ unless [x = 0]. *)
Lemma exp_minus_inv_nonzero (x : R) : x <> 0 -> exp x - exp (- x) <> 0.
Proof.
  intros Hx Heq.
  assert (H : exp x = exp (- x)) by lra.
  apply exp_inv in H; lra.
Qed.

Lemma high_mult_inr (v ts u : R) :
  high_mult v ts = inr u -> 0 <= ts /\ u = Spec.bin_up v ts.
Proof.
  unfold high_mult; intros H.
  apply bind_inr in H as [r [Hr Hu]].
  apply py_sqrt_inr in Hr as [Hts ->].
  injection Hu as <-. split; [lra | reflexivity].
Qed.

Lemma high_mult_total (v ts : R) :
  0 <= ts -> high_mult v ts = inr (Spec.bin_up v ts).
Proof.
  intros Hts; unfold high_mult.
  rewrite py_sqrt_nonneg by lra. reflexivity.
Qed.

Lemma bin_up_pos (v ts : R) : 0 < Spec.bin_up v ts.
Proof. apply exp_pos. Qed.

Lemma bin_up_minus_down (v ts : R) :
  0 < ts -> v <> 0 -> Spec.bin_up v ts - Spec.bin_down v ts <> 0.
Proof.
  intros Hts Hv; unfold Spec.bin_down, Spec.bin_up.
  replace (1 / exp (v * sqrt (ts / 365)))
    with (exp (- (v * sqrt (ts / 365))))
    by (rewrite exp_Ropp; unfold Rdiv; now rewrite Rmult_1_l).
  apply exp_minus_inv_nonzero.
  assert (0 < sqrt (ts / 365)) by (apply sqrt_lt_R0; lra).
  nra.
Qed.

Lemma high_p_inr (r v ts p : R) :
  high_p r v ts = inr p ->
  Spec.bin_up v ts - Spec.bin_down v ts <> 0 /\ p = Spec.bin_pUp r v ts.
Proof.
  unfold high_p; intros H.
  apply bind_inr in H as [u [Hu H]].
  apply high_mult_inr in Hu as [_ ->].
  apply bind_inr in H as [d [Hd H]].
  apply py_div_inr in Hd as [_ ->].
  apply py_div_inr in H as [Hne ->].
  split; [exact Hne | reflexivity].
Qed.

Lemma high_p_total (r v ts : R) :
  0 <= ts -> Spec.bin_up v ts - Spec.bin_down v ts <> 0 ->
  high_p r v ts = inr (Spec.bin_pUp r v ts).
Proof.
  intros Hts Hne; unfold high_p.
  rewrite high_mult_total by exact Hts; simpl.
  rewrite py_div_nonzero by (pose proof (bin_up_pos v ts); lra); simpl.
  now rewrite py_div_nonzero by exact Hne.
Qed.

Lemma bin_lattice_params_inr (o : Option) (q : BinOption.params) :
  BinOption.lattice_params o = inr q ->
  BinOption.up q = Spec.bin_up (vola o) (tstep o)
  /\ BinOption.p_up q = Spec.bin_pUp (rfr o) (vola o) (tstep o)
  /\ BinOption.p_down q = Spec.bin_pDown (rfr o) (vola o) (tstep o).
Proof.
  unfold BinOption.lattice_params; intros H.
  apply bind_inr in H as [u [Hu H]].
  apply high_mult_inr in Hu as [_ ->].
  apply bind_inr in H as [p [Hp H]].
  apply high_p_inr in Hp as [_ ->].
  injection H as <-; simpl. repeat split; reflexivity.
Qed.

Lemma bin_lattice_params_total (o : Option) :
  0 < tstep o -> vola o <> 0 ->
  exists q, BinOption.lattice_params o = inr q.
Proof.
  intros Hts Hv; unfold BinOption.lattice_params.
  rewrite high_mult_total by lra; simpl.
  rewrite high_p_total by (try lra; now apply bin_up_minus_down); simpl.
  eauto.
Qed.

Lemma bin_up_nonzero (o : Option) (q : BinOption.params) :
  BinOption.lattice_params o = inr q -> BinOption.up q <> 0.
Proof.
  intros H. apply bin_lattice_params_inr in H as [-> _].
  pose proof (bin_up_pos (vola o) (tstep o)); lra.
Qed.

(** ** The binomial buffer *)

Lemma bin_firstNode_double (s : Z) :
  (2 * BinOption.firstNode s = s * (s + 1))%Z.
Proof.
  unfold BinOption.firstNode.
  destruct (Z.Even_or_Odd s) as [[k ->] | [k ->]].
  - replace (2 * k * (2 * k + 1))%Z with (k * (2 * k + 1) * 2)%Z by ring.
    rewrite Z.div_mul by lia; ring.
  - replace ((2 * k + 1) * (2 * k + 1 + 1))%Z
      with ((2 * k + 1) * (k + 1) * 2)%Z by ring.
    rewrite Z.div_mul by lia; ring.
Qed.

Lemma bin_childNode_firstNode (s : Z) :
  BinOption.childNode s = BinOption.firstNode (s + 1).
Proof.
  unfold BinOption.childNode, BinOption.firstNode.
  now replace (s + 1 + 1)%Z with (s + 2)%Z by ring.
Qed.

Lemma bin_size_firstNode (p : Z) :
  BinOption.size p = BinOption.firstNode (p + 1).
Proof.
  unfold BinOption.size, BinOption.firstNode.
  now replace (p + 1 + 1)%Z with (p + 2)%Z by ring.
Qed.

Lemma bin_firstNode_next (s : Z) :
  BinOption.firstNode (s + 1) = (BinOption.firstNode s + (s + 1))%Z.
Proof.
  pose proof (bin_firstNode_double s).
  pose proof (bin_firstNode_double (s + 1)).
  lia.
Qed.

Lemma bin_firstNode_zero : BinOption.firstNode 0 = 0%Z.
Proof. reflexivity. Qed.

(** Every offset the sweep uses is a position of the buffer. *)
Lemma bin_offsets_in_bounds (p s i : Z) :
  (0 <= i <= s)%Z -> (s <= p)%Z ->
  (0 <= BinOption.firstNode s + i < BinOption.size p)%Z
  /\ ((s < p)%Z ->
      (0 <= BinOption.childNode s + i)%Z
      /\ (BinOption.childNode s + i + 1 < BinOption.size p)%Z).
Proof.
  intros Hi Hs.
  rewrite bin_childNode_firstNode, bin_size_firstNode.
  pose proof (bin_firstNode_double s).
  pose proof (bin_firstNode_double (s + 1)).
  pose proof (bin_firstNode_double (p + 1)).
  split; [nia |]. intros Hlt; nia.
Qed.

(** ** The binomial sweep *)

Lemma bin_node_writes (o : Option) (q : BinOption.params)
    (cdv : R) (s i : Z) (t : list R) :
  type o = "call"%string \/ type o = "put"%string ->
  BinOption.up q <> 0 ->
  Z.of_nat (length t) = BinOption.size (periods o) ->
  (0 <= s <= periods o)%Z -> (0 <= i < s + 1)%Z ->
  BinOption.node o (resolve_exercise (type o)) q (adj_price o) cdv s i t
  = inr (list_set t (Z.to_nat (BinOption.firstNode s + i))
           (Spec.bin_nodeValue o (BinOption.up q) (BinOption.p_up q)
              (BinOption.p_down q) cdv (BinOption.childNode s + i) s i t)).
Proof.
  intros Hty Hup Hlen Hs Hi.
  destruct (bin_offsets_in_bounds (periods o) s i) as [Hw Hr]; [lia | lia |].
  unfold BinOption.node, Spec.bin_nodeValue.
  rewrite py_pow_nonzero by exact Hup; simpl.
  rewrite (resolve_exercise_known _ Hty); simpl.
  unfold adj_price, Spec.adjustedStartPrice; rewrite start_div_val_sum.
  destruct (Z.ltb_spec s (periods o)) as [Hlt | Hge].
  - destruct (Hr Hlt) as [Hc0 Hc1].
    rewrite (py_getitem_in_range t _ 0) by lia; simpl.
    rewrite (py_getitem_in_range t _ 0) by lia; simpl.
    destruct (Z.eqb_spec s (periods o)); [lia |].
    rewrite py_setitem_in_range by lia.
    now rewrite py_max3_spec.
  - destruct (Z.eqb_spec s (periods o)); [| lia]. simpl.
    rewrite py_setitem_in_range by lia.
    now rewrite py_max3_spec.
Qed.

Lemma bin_nodeValue_reads_children (o : Option) (u pu pd cdv : R)
    (s i : Z) (t1 t2 : list R) :
  (0 <= s)%Z -> (0 <= i)%Z ->
  (forall k, (BinOption.firstNode (s + 1) <= k)%Z -> peek t1 k = peek t2 k) ->
  Spec.bin_nodeValue o u pu pd cdv (BinOption.childNode s + i) s i t1
  = Spec.bin_nodeValue o u pu pd cdv (BinOption.childNode s + i) s i t2.
Proof.
  intros Hs Hi Heq; unfold Spec.bin_nodeValue.
  rewrite bin_childNode_firstNode.
  now rewrite !Heq by lia.
Qed.

(** The sweep of a contract of a known type ends, whatever the lattice
    parameters, and its buffer satisfies the backward induction. *)
Lemma bin_sweep_correct (o : Option) (q : BinOption.params) :
  type o = "call"%string \/ type o = "put"%string ->
  (0 <= periods o)%Z ->
  BinOption.up q <> 0 ->
  exists t,
    BinOption.sweep o (resolve_exercise (type o)) q (adj_price o)
      (repeat 0 (Z.to_nat (BinOption.size (periods o))), escrow_init o)
    = inr (t, escrow_at o (Z.to_nat (periods o + 1)))
    /\ Z.of_nat (length t) = BinOption.size (periods o)
    /\ forall s i, (0 <= s <= periods o)%Z -> (0 <= i < s + 1)%Z ->
         peek t (BinOption.firstNode s + i)
         = Spec.bin_nodeValue o (BinOption.up q) (BinOption.p_up q)
             (BinOption.p_down q)
             (cur_div_val (escrow_at o (Z.to_nat (periods o - s))))
             (BinOption.childNode s + i) s i t.
Proof.
  intros Hty HP Hup.
  apply (lattice_sweep_correct o BinOption.firstNode (fun s => (s + 1)%Z)
           (BinOption.size (periods o))
           (fun cdv s i t =>
              BinOption.node o (resolve_exercise (type o)) q (adj_price o)
                cdv s i t)
           (fun cdv s i t =>
              Spec.bin_nodeValue o (BinOption.up q) (BinOption.p_up q)
                (BinOption.p_down q) cdv (BinOption.childNode s + i) s i t)).
  - apply bin_size_firstNode.
  - rewrite bin_firstNode_zero; lia.
  - intros s _; apply bin_firstNode_next.
  - intros s Hs; lia.
  - intros cdv s i t Hlen Hs Hi; now apply bin_node_writes.
  - intros cdv s i t1 t2 Hs Hi Heq.
    apply bin_nodeValue_reads_children; [lia | lia | exact Heq].
  - exact HP.
  - rewrite repeat_length.
    pose proof (bin_firstNode_double (periods o + 1)).
    rewrite bin_size_firstNode.
    rewrite Z2Nat.id; [reflexivity | nia].
Qed.

Lemma bin_pricetree_correct (o : Option) (q : BinOption.params) :
  type o = "call"%string \/ type o = "put"%string ->
  (0 <= periods o)%Z ->
  BinOption.lattice_params o = inr q ->
  exists t,
    BinOption.pricetree o = inr t
    /\ Z.of_nat (length t) = BinOption.size (periods o)
    /\ forall s i, (0 <= s <= periods o)%Z -> (0 <= i < s + 1)%Z ->
         peek t (BinOption.firstNode s + i)
         = Spec.bin_nodeValue o (BinOption.up q) (BinOption.p_up q)
             (BinOption.p_down q)
             (cur_div_val (escrow_at o (Z.to_nat (periods o - s))))
             (BinOption.childNode s + i) s i t.
Proof.
  intros Hty HP Hq.
  destruct (bin_sweep_correct o q Hty HP (bin_up_nonzero o q Hq))
    as [t [Hrun [Hlen Hval]]].
  exists t. unfold BinOption.pricetree.
  rewrite Hq; simpl. rewrite Hrun; simpl. auto.
Qed.

(** ** The trinomial parameters and buffer *)

Lemma tri_high_mult_inr (v ts u : R) :
  tri_high_mult v ts = inr u -> 0 <= ts /\ u = Spec.tri_up v ts.
Proof.
  unfold tri_high_mult; intros H.
  apply bind_inr in H as [r [Hr Hu]].
  apply py_sqrt_inr in Hr as [Hts ->].
  injection Hu as <-. split; [lra | reflexivity].
Qed.

Lemma tri_high_mult_total (v ts : R) :
  0 <= ts -> tri_high_mult v ts = inr (Spec.tri_up v ts).
Proof.
  intros Hts; unfold tri_high_mult.
  rewrite py_sqrt_nonneg by lra. reflexivity.
Qed.

Lemma tri_high_p_inr (r v ts p : R) :
  tri_high_p r v ts = inr p -> p = Spec.tri_pUp r v ts.
Proof.
  unfold tri_high_p; intros H.
  apply bind_inr in H as [s [Hs H]].
  apply py_sqrt_inr in Hs as [_ ->].
  apply bind_inr in H as [x [Hx H]].
  apply py_div_inr in Hx as [_ ->].
  rewrite py_pow_square in H. injection H as <-. reflexivity.
Qed.

Lemma tri_low_p_inr (r v ts p : R) :
  tri_low_p r v ts = inr p -> p = Spec.tri_pDown r v ts.
Proof.
  unfold tri_low_p; intros H.
  apply bind_inr in H as [s [Hs H]].
  apply py_sqrt_inr in Hs as [_ ->].
  apply bind_inr in H as [x [Hx H]].
  apply py_div_inr in Hx as [_ ->].
  rewrite py_pow_square in H. injection H as <-. reflexivity.
Qed.

Lemma tri_c_nonzero (v ts : R) :
  0 < ts -> v <> 0 ->
  exp (Spec.tri_c v ts) - exp (- Spec.tri_c v ts) <> 0.
Proof.
  intros Hts Hv. apply exp_minus_inv_nonzero. unfold Spec.tri_c.
  assert (0 < sqrt (ts / 365 / 2)) by (apply sqrt_lt_R0; lra).
  nra.
Qed.

Lemma tri_high_p_total (r v ts : R) :
  0 < ts -> v <> 0 -> tri_high_p r v ts = inr (Spec.tri_pUp r v ts).
Proof.
  intros Hts Hv; unfold tri_high_p.
  rewrite py_sqrt_nonneg by lra; simpl.
  rewrite py_div_nonzero by (now apply tri_c_nonzero); simpl.
  now rewrite py_pow_square.
Qed.

Lemma tri_low_p_total (r v ts : R) :
  0 < ts -> v <> 0 -> tri_low_p r v ts = inr (Spec.tri_pDown r v ts).
Proof.
  intros Hts Hv; unfold tri_low_p.
  rewrite py_sqrt_nonneg by lra; simpl.
  rewrite py_div_nonzero by (now apply tri_c_nonzero); simpl.
  now rewrite py_pow_square.
Qed.

Lemma tri_lattice_params_inr (o : Option) (q : TrinOption.params) :
  TrinOption.lattice_params o = inr q ->
  TrinOption.up q = Spec.tri_up (vola o) (tstep o)
  /\ TrinOption.p_up q = Spec.tri_pUp (rfr o) (vola o) (tstep o)
  /\ TrinOption.p_down q = Spec.tri_pDown (rfr o) (vola o) (tstep o)
  /\ TrinOption.p_mid q = Spec.tri_pMid (rfr o) (vola o) (tstep o).
Proof.
  unfold TrinOption.lattice_params; intros H.
  apply bind_inr in H as [u [Hu H]].
  apply tri_high_mult_inr in Hu as [_ ->].
  apply bind_inr in H as [p [Hp H]].
  apply tri_high_p_inr in Hp as ->.
  apply bind_inr in H as [p' [Hp' H]].
  apply tri_low_p_inr in Hp' as ->.
  injection H as <-; simpl. repeat split; reflexivity.
Qed.

Lemma tri_lattice_params_total (o : Option) :
  0 < tstep o -> vola o <> 0 ->
  exists q, TrinOption.lattice_params o = inr q.
Proof.
  intros Hts Hv; unfold TrinOption.lattice_params.
  rewrite tri_high_mult_total by lra; simpl.
  rewrite tri_high_p_total by assumption; simpl.
  rewrite tri_low_p_total by assumption; simpl.
  eauto.
Qed.

Lemma tri_up_nonzero (o : Option) (q : TrinOption.params) :
  TrinOption.lattice_params o = inr q -> TrinOption.up q <> 0.
Proof.
  intros H. apply tri_lattice_params_inr in H as [-> _].
  unfold Spec.tri_up.
  pose proof (exp_pos (vola o * sqrt (2 * tstep o / 365))); lra.
Qed.

Lemma tri_firstNode_next (s : Z) :
  TrinOption.firstNode (s + 1)
  = (TrinOption.firstNode s + (2 * s + 1))%Z.
Proof. unfold TrinOption.firstNode; ring. Qed.

(** Every offset the sweep uses is a position of the buffer. *)
Lemma tri_offsets_in_bounds (p s i : Z) :
  (0 <= i <= 2 * s)%Z -> (s <= p)%Z ->
  (0 <= TrinOption.firstNode s + i < TrinOption.size p)%Z
  /\ ((s < p)%Z ->
      (0 <= TrinOption.childNode s + i)%Z
      /\ (TrinOption.childNode s + i + 2 < TrinOption.size p)%Z).
Proof.
  intros Hi Hs.
  unfold TrinOption.firstNode, TrinOption.childNode, TrinOption.size.
  split; [nia |]. intros Hlt; nia.
Qed.

(** ** The trinomial sweep *)

Lemma tri_node_writes (o : Option) (q : TrinOption.params)
    (cdv : R) (s i : Z) (t : list R) :
  type o = "call"%string \/ type o = "put"%string ->
  TrinOption.up q <> 0 ->
  Z.of_nat (length t) = TrinOption.size (periods o) ->
  (0 <= s <= periods o)%Z -> (0 <= i < 2 * s + 1)%Z ->
  TrinOption.node o (resolve_exercise (type o)) q (adj_price o) cdv s i t
  = inr (list_set t (Z.to_nat (TrinOption.firstNode s + i))
           (Spec.tri_nodeValue o (TrinOption.up q) (TrinOption.p_up q)
              (TrinOption.p_mid q) (TrinOption.p_down q) cdv
              (TrinOption.childNode s + i) s i t)).
Proof.
  intros Hty Hup Hlen Hs Hi.
  destruct (tri_offsets_in_bounds (periods o) s i) as [Hw Hr]; [lia | lia |].
  unfold TrinOption.node, Spec.tri_nodeValue.
  rewrite py_pow_nonzero by exact Hup; simpl.
  rewrite (resolve_exercise_known _ Hty); simpl.
  unfold adj_price, Spec.adjustedStartPrice; rewrite start_div_val_sum.
  destruct (Z.ltb_spec s (periods o)) as [Hlt | Hge].
  - destruct (Hr Hlt) as [Hc0 Hc1].
    rewrite (py_getitem_in_range t _ 0) by lia; simpl.
    rewrite (py_getitem_in_range t _ 0) by lia; simpl.
    rewrite (py_getitem_in_range t _ 0) by lia; simpl.
    destruct (Z.eqb_spec s (periods o)); [lia |].
    rewrite py_setitem_in_range by lia.
    now rewrite py_max3_spec.
  - destruct (Z.eqb_spec s (periods o)); [| lia]. simpl.
    rewrite py_setitem_in_range by lia.
    now rewrite py_max3_spec.
Qed.

Lemma tri_nodeValue_reads_children (o : Option) (u pu pm pd cdv : R)
    (s i : Z) (t1 t2 : list R) :
  (0 <= s)%Z -> (0 <= i)%Z ->
  (forall k, (TrinOption.firstNode (s + 1) <= k)%Z ->
     peek t1 k = peek t2 k) ->
  Spec.tri_nodeValue o u pu pm pd cdv (TrinOption.childNode s + i) s i t1
  = Spec.tri_nodeValue o u pu pm pd cdv (TrinOption.childNode s + i) s i t2.
Proof.
  intros Hs Hi Heq; unfold Spec.tri_nodeValue.
  change (TrinOption.childNode s) with (TrinOption.firstNode (s + 1)).
  now rewrite !Heq by lia.
Qed.

Lemma tri_sweep_correct (o : Option) (q : TrinOption.params) :
  type o = "call"%string \/ type o = "put"%string ->
  (0 <= periods o)%Z ->
  TrinOption.up q <> 0 ->
  exists t,
    TrinOption.sweep o (resolve_exercise (type o)) q (adj_price o)
      (repeat 0 (Z.to_nat (TrinOption.size (periods o))), escrow_init o)
    = inr (t, escrow_at o (Z.to_nat (periods o + 1)))
    /\ Z.of_nat (length t) = TrinOption.size (periods o)
    /\ forall s i, (0 <= s <= periods o)%Z -> (0 <= i < 2 * s + 1)%Z ->
         peek t (TrinOption.firstNode s + i)
         = Spec.tri_nodeValue o (TrinOption.up q) (TrinOption.p_up q)
             (TrinOption.p_mid q) (TrinOption.p_down q)
             (cur_div_val (escrow_at o (Z.to_nat (periods o - s))))
             (TrinOption.childNode s + i) s i t.
Proof.
  intros Hty HP Hup.
  apply (lattice_sweep_correct o TrinOption.firstNode
           (fun s => (2 * s + 1)%Z)
           (TrinOption.size (periods o))
           (fun cdv s i t =>
              TrinOption.node o (resolve_exercise (type o)) q (adj_price o)
                cdv s i t)
           (fun cdv s i t =>
              Spec.tri_nodeValue o (TrinOption.up q) (TrinOption.p_up q)
                (TrinOption.p_mid q) (TrinOption.p_down q) cdv
                (TrinOption.childNode s + i) s i t)).
  - reflexivity.
  - unfold TrinOption.firstNode; lia.
  - intros s _; apply tri_firstNode_next.
  - intros s Hs; lia.
  - intros cdv s i t Hlen Hs Hi; now apply tri_node_writes.
  - intros cdv s i t1 t2 Hs Hi Heq.
    apply tri_nodeValue_reads_children; [lia | lia | exact Heq].
  - exact HP.
  - rewrite repeat_length.
    rewrite Z2Nat.id; [reflexivity | unfold TrinOption.size; nia].
Qed.

Lemma tri_pricetree_correct (o : Option) (q : TrinOption.params) :
  type o = "call"%string \/ type o = "put"%string ->
  (0 <= periods o)%Z ->
  TrinOption.lattice_params o = inr q ->
  exists t,
    TrinOption.pricetree o = inr t
    /\ Z.of_nat (length t) = TrinOption.size (periods o)
    /\ forall s i, (0 <= s <= periods o)%Z -> (0 <= i < 2 * s + 1)%Z ->
         peek t (TrinOption.firstNode s + i)
         = Spec.tri_nodeValue o (TrinOption.up q) (TrinOption.p_up q)
             (TrinOption.p_mid q) (TrinOption.p_down q)
             (cur_div_val (escrow_at o (Z.to_nat (periods o - s))))
             (TrinOption.childNode s + i) s i t.
Proof.
  intros Hty HP Hq.
  destruct (tri_sweep_correct o q Hty HP (tri_up_nonzero o q Hq))
    as [t [Hrun [Hlen Hval]]].
  exists t. unfold TrinOption.pricetree.
  rewrite Hq; simpl. rewrite Hrun; simpl. auto.
Qed.

(** ** The constructor *)

Lemma insert_by_date_perm (d : dividend) (l : list dividend) :
  Permutation (insert_by_date d l) (d :: l).
Proof.
  induction l as [| x xs IH]; simpl; [reflexivity |].
  destruct (fst d <=? fst x)%Z; [reflexivity |].
  rewrite IH; apply perm_swap.
Qed.

Lemma sort_by_date_perm (l : list dividend) :
  Permutation (sort_by_date l) l.
Proof.
  induction l as [| d l IH]; simpl; [reflexivity |].
  rewrite insert_by_date_perm; now constructor.
Qed.

Lemma insert_by_date_sorted (d : dividend) (l : list dividend) :
  StronglySorted by_date l -> StronglySorted by_date (insert_by_date d l).
Proof.
  induction 1 as [| x xs Hs IH Hx]; simpl.
  - repeat constructor.
  - destruct (Z.leb_spec (fst d) (fst x)) as [Hle | Hgt].
    + constructor; [constructor; assumption |].
      constructor; [exact Hle |].
      rewrite Forall_forall in Hx |- *.
      intros y Hy; specialize (Hx y Hy); unfold by_date in *; lia.
    + constructor; [exact IH |].
      rewrite Forall_forall in Hx |- *.
      intros y Hy.
      apply (Permutation_in _ (insert_by_date_perm d xs)) in Hy.
      destruct Hy as [<- | Hy]; [unfold by_date; lia | now apply Hx].
Qed.

Lemma sort_by_date_sorted (l : list dividend) :
  StronglySorted by_date (sort_by_date l).
Proof.
  induction l as [| d l IH]; simpl; [constructor |].
  now apply insert_by_date_sorted.
Qed.

(** The sort is stable: the dividends of one date keep their order. *)
Lemma insert_by_date_stable (k : Z) (d : dividend) (l : list dividend) :
  StronglySorted by_date l ->
  filter (fun x => (fst x =? k)%Z) (insert_by_date d l)
  = filter (fun x => (fst x =? k)%Z) (d :: l).
Proof.
  induction 1 as [| x xs Hs IH Hx]; [reflexivity |].
  simpl insert_by_date.
  destruct (Z.leb_spec (fst d) (fst x)) as [Hle | Hgt]; [reflexivity |].
  simpl in IH |- *. rewrite IH.
  destruct (Z.eqb_spec (fst x) k), (Z.eqb_spec (fst d) k);
    try reflexivity; lia.
Qed.

Lemma sort_by_date_stable (k : Z) (l : list dividend) :
  filter (fun x => (fst x =? k)%Z) (sort_by_date l)
  = filter (fun x => (fst x =? k)%Z) l.
Proof.
  induction l as [| d l IH]; [reflexivity |].
  simpl sort_by_date.
  rewrite insert_by_date_stable by apply sort_by_date_sorted.
  simpl. now rewrite IH.
Qed.

Lemma init_divs_perm (info : Info) :
  Permutation (init_divs info)
    (filter (after_today (info_today info)) (input_divs info)).
Proof.
  unfold init_divs, input_divs.
  destruct (info_divs info) as [ds |]; [apply sort_by_date_perm | reflexivity].
Qed.

Lemma init_divs_sorted (info : Info) :
  StronglySorted by_date (init_divs info).
Proof.
  unfold init_divs.
  destruct (info_divs info) as [ds |];
    [apply sort_by_date_sorted | constructor].
Qed.

Lemma IZR_nonzero (z : Z) : z <> 0%Z -> IZR z <> 0.
Proof. intros Hz H; apply eq_IZR_R0 in H; contradiction. Qed.

Lemma Option_init_nonzero (info : Info) :
  init_periods info <> 0%Z ->
  Option_init info
  = inr {| today := info_today info; type := info_type info;
           price := info_price info; strike := info_strike info;
           vola := info_vola info; expi := info_expi info;
           rfr := info_rfr info; divs := init_divs info;
           periods := init_periods info;
           tstep := IZR (info_expi info - info_today info)
                    / IZR (init_periods info) |}.
Proof.
  intros Hp; unfold Option_init.
  rewrite py_div_nonzero by (now apply IZR_nonzero). reflexivity.
Qed.

Lemma Option_init_zero (info : Info) :
  init_periods info = 0%Z -> Option_init info = inl ZeroDivisionError.
Proof.
  intros Hp; unfold Option_init.
  rewrite Hp, py_div_zero. reflexivity.
Qed.

Lemma Option_init_inr (info : Info) (o : Option) :
  Option_init info = inr o ->
  init_periods info <> 0%Z
  /\ o = {| today := info_today info; type := info_type info;
            price := info_price info; strike := info_strike info;
            vola := info_vola info; expi := info_expi info;
            rfr := info_rfr info; divs := init_divs info;
            periods := init_periods info;
            tstep := IZR (info_expi info - info_today info)
                     / IZR (init_periods info) |}.
Proof.
  intros H.
  destruct (Z.eq_dec (init_periods info) 0) as [Hz | Hnz].
  - rewrite (Option_init_zero info Hz) in H; discriminate.
  - rewrite (Option_init_nonzero info Hnz) in H.
    injection H as <-. split; [exact Hnz | reflexivity].
Qed.

(** The time step of a constructed contract has the sign of
    [days / periods]. *)
Lemma tstep_pos (d p : Z) : (0 < d)%Z -> (0 < p)%Z -> 0 < IZR d / IZR p.
Proof.
  intros Hd Hp. apply Rdiv_lt_0_compat; now apply (IZR_lt 0).
Qed.

Lemma tstep_neg (d p : Z) : (0 < d)%Z -> (p < 0)%Z -> IZR d / IZR p < 0.
Proof.
  intros Hd Hp.
  apply (IZR_lt 0) in Hd. apply (IZR_lt p 0) in Hp.
  unfold Rdiv.
  assert (/ IZR p < 0) by (apply Rinv_lt_0_compat; exact Hp).
  nra.
Qed.

(** ** A contract of an unknown type *)

Lemma range_first (n : Z) :
  (0 < n)%Z -> exists rest, range n = 0%Z :: rest.
Proof.
  intros Hn; unfold range.
  destruct (Z.to_nat n) as [| m] eqn:E; [lia |].
  simpl; eauto.
Qed.

Lemma xrange_down_first (hi : Z) :
  (0 <= hi)%Z -> exists rest, xrange_down hi = hi :: rest.
Proof.
  intros Hhi; unfold xrange_down.
  destruct (Z.to_nat (hi + 1)) as [| m] eqn:E; [lia |].
  simpl. replace (Z.of_nat m) with hi by lia. eauto.
Qed.

Lemma bin_sweep_unbound (o : Option) (q : BinOption.params) (adj : R)
    (st : list R * escrow) :
  (0 <= periods o)%Z -> BinOption.up q <> 0 ->
  BinOption.sweep o None q adj st = inl UnboundLocalError.
Proof.
  intros HP Hup; unfold BinOption.sweep.
  destruct (xrange_down_first (periods o) HP) as [rest ->].
  simpl. unfold BinOption.level.
  destruct (range_first (periods o + 1)) as [rest' ->]; [lia |].
  simpl. unfold BinOption.node.
  rewrite py_pow_nonzero by exact Hup. reflexivity.
Qed.

Lemma tri_sweep_unbound (o : Option) (q : TrinOption.params) (adj : R)
    (st : list R * escrow) :
  (0 <= periods o)%Z -> TrinOption.up q <> 0 ->
  TrinOption.sweep o None q adj st = inl UnboundLocalError.
Proof.
  intros HP Hup; unfold TrinOption.sweep.
  destruct (xrange_down_first (periods o) HP) as [rest ->].
  simpl. unfold TrinOption.level.
  destruct (range_first (2 * periods o + 1)) as [rest' ->]; [lia |].
  simpl. unfold TrinOption.node.
  rewrite py_pow_nonzero by exact Hup. reflexivity.
Qed.

Lemma bin_pricetree_unknown_type (o : Option) :
  type o <> "call"%string -> type o <> "put"%string ->
  (0 <= periods o)%Z ->
  BinOption.pricetree o
  = match BinOption.lattice_params o with
    | inl e => inl e
    | inr _ => inl UnboundLocalError
    end.
Proof.
  intros Hc Hp HP; unfold BinOption.pricetree.
  rewrite (resolve_exercise_unknown _ Hc Hp).
  destruct (BinOption.lattice_params o) as [e | q] eqn:Hq; [reflexivity |].
  simpl. rewrite bin_sweep_unbound;
    [reflexivity | exact HP | exact (bin_up_nonzero o q Hq)].
Qed.

Lemma tri_pricetree_unknown_type (o : Option) :
  type o <> "call"%string -> type o <> "put"%string ->
  (0 <= periods o)%Z ->
  TrinOption.pricetree o
  = match TrinOption.lattice_params o with
    | inl e => inl e
    | inr _ => inl UnboundLocalError
    end.
Proof.
  intros Hc Hp HP; unfold TrinOption.pricetree.
  rewrite (resolve_exercise_unknown _ Hc Hp).
  destruct (TrinOption.lattice_params o) as [e | q] eqn:Hq; [reflexivity |].
  simpl. rewrite tri_sweep_unbound;
    [reflexivity | exact HP | exact (tri_up_nonzero o q Hq)].
Qed.

(** The sample contracts have a positive time step and volatility. *)
Lemma sample_tstep_pos (p : Z) :
  (0 < p)%Z -> 0 < IZR (736833 - 736713) / IZR p.
Proof. intros Hp; apply tstep_pos; [reflexivity | exact Hp]. Qed.

Lemma sample_vola_nonzero : 4 / 10 <> 0.
Proof. lra. Qed.

(** ** The root of the lattice and the errors of the pricers *)

Ltac case_raises :=
  repeat match goal with
    | |- context [Rlt_dec ?a ?b] => destruct (Rlt_dec a b)
    | |- context [Req_dec_T ?a ?b] => destruct (Req_dec_T a b)
    end.

Lemma bin_lattice_params_inl (o : Option) (e : exn) :
  BinOption.lattice_params o = inl e -> arithmetic_error e.
Proof.
  unfold BinOption.lattice_params, high_p, high_mult, py_sqrt, py_div,
    arithmetic_error, bind, ret, raise.
  case_raises; intros H; try discriminate; injection H as <-; auto.
Qed.

Lemma tri_lattice_params_inl (o : Option) (e : exn) :
  TrinOption.lattice_params o = inl e -> arithmetic_error e.
Proof.
  unfold TrinOption.lattice_params, tri_high_mult, tri_high_p, tri_low_p,
    py_sqrt, py_div, arithmetic_error, bind, ret, raise.
  case_raises; rewrite ?py_pow_square;
    intros H; try discriminate; injection H as <-; auto.
Qed.

Lemma bin_pricetree_inr_params (o : Option) (t : list R) :
  BinOption.pricetree o = inr t ->
  exists q, BinOption.lattice_params o = inr q.
Proof.
  unfold BinOption.pricetree; intros H.
  apply bind_inr in H as [q [Hq _]]; eauto.
Qed.

Lemma tri_pricetree_inr_params (o : Option) (t : list R) :
  TrinOption.pricetree o = inr t ->
  exists q, TrinOption.lattice_params o = inr q.
Proof.
  unfold TrinOption.pricetree; intros H.
  apply bind_inr in H as [q [Hq _]]; eauto.
Qed.

Lemma bin_value_root (o : Option) (q : BinOption.params) :
  type o = "call"%string \/ type o = "put"%string ->
  (0 <= periods o)%Z ->
  BinOption.lattice_params o = inr q ->
  exists t,
    BinOption.pricetree o = inr t
    /\ BinOption.value o = inr (peek t 0)
    /\ 0 <= peek t 0.
Proof.
  intros Hty HP Hq.
  destruct (bin_pricetree_correct o q Hty HP Hq) as [t [Hrun [Hlen Hval]]].
  exists t. split; [exact Hrun |].
  destruct (bin_offsets_in_bounds (periods o) 0 0) as [Hin _]; [lia | lia |].
  rewrite bin_firstNode_zero in Hin.
  split.
  - unfold BinOption.value. rewrite Hrun; simpl.
    apply py_getitem_in_range; lia.
  - specialize (Hval 0%Z 0%Z ltac:(lia) ltac:(lia)).
    rewrite bin_firstNode_zero in Hval; simpl in Hval.
    rewrite Hval. apply max3_floor.
Qed.

Lemma tri_value_root (o : Option) (q : TrinOption.params) :
  type o = "call"%string \/ type o = "put"%string ->
  (0 <= periods o)%Z ->
  TrinOption.lattice_params o = inr q ->
  exists t,
    TrinOption.pricetree o = inr t
    /\ TrinOption.value o = inr (peek t 0)
    /\ 0 <= peek t 0.
Proof.
  intros Hty HP Hq.
  destruct (tri_pricetree_correct o q Hty HP Hq) as [t [Hrun [Hlen Hval]]].
  exists t. split; [exact Hrun |].
  destruct (tri_offsets_in_bounds (periods o) 0 0) as [Hin _]; [lia | lia |].
  change (TrinOption.firstNode 0) with 0%Z in Hin.
  split.
  - unfold TrinOption.value. rewrite Hrun; simpl.
    apply py_getitem_in_range; lia.
  - specialize (Hval 0%Z 0%Z ltac:(lia) ltac:(lia)).
    change (TrinOption.firstNode 0) with 0%Z in Hval; simpl in Hval.
    rewrite Hval. apply max3_floor.
Qed.

Lemma bin_value_nonneg (o : Option) (v : R) :
  type o = "call"%string \/ type o = "put"%string ->
  (0 <= periods o)%Z ->
  BinOption.value o = inr v -> 0 <= v.
Proof.
  intros Hty HP Hv.
  assert (Ht : exists t, BinOption.pricetree o = inr t).
  { unfold BinOption.value in Hv. apply bind_inr in Hv as [t [Ht _]]; eauto. }
  destruct Ht as [t Ht].
  destruct (bin_pricetree_inr_params o t Ht) as [q Hq].
  destruct (bin_value_root o q Hty HP Hq) as [t' [_ [Hv' Hpos]]].
  rewrite Hv' in Hv. injection Hv as <-. exact Hpos.
Qed.

Lemma tri_value_nonneg (o : Option) (v : R) :
  type o = "call"%string \/ type o = "put"%string ->
  (0 <= periods o)%Z ->
  TrinOption.value o = inr v -> 0 <= v.
Proof.
  intros Hty HP Hv.
  assert (Ht : exists t, TrinOption.pricetree o = inr t).
  { unfold TrinOption.value in Hv. apply bind_inr in Hv as [t [Ht _]]; eauto. }
  destruct Ht as [t Ht].
  destruct (tri_pricetree_inr_params o t Ht) as [q Hq].
  destruct (tri_value_root o q Hty HP Hq) as [t' [_ [Hv' Hpos]]].
  rewrite Hv' in Hv. injection Hv as <-. exact Hpos.
Qed.

Lemma arithmetic_error_not_index (e : exn) :
  arithmetic_error e -> e <> IndexError.
Proof. intros [-> | ->]; discriminate. Qed.

Lemma bin_no_IndexError (o : Option) :
  type o = "call"%string \/ type o = "put"%string ->
  (0 <= periods o)%Z ->
  BinOption.pricetree o <> inl IndexError
  /\ BinOption.value o <> inl IndexError.
Proof.
  intros Hty HP.
  destruct (BinOption.lattice_params o) as [e | q] eqn:Hq.
  - apply bin_lattice_params_inl in Hq as He.
    apply arithmetic_error_not_index in He.
    unfold BinOption.value, BinOption.pricetree. rewrite Hq; simpl.
    split; congruence.
  - destruct (bin_value_root o q Hty HP Hq) as [t [Hrun [Hv _]]].
    rewrite Hrun, Hv; split; discriminate.
Qed.

Lemma tri_no_IndexError (o : Option) :
  type o = "call"%string \/ type o = "put"%string ->
  (0 <= periods o)%Z ->
  TrinOption.pricetree o <> inl IndexError
  /\ TrinOption.value o <> inl IndexError.
Proof.
  intros Hty HP.
  destruct (TrinOption.lattice_params o) as [e | q] eqn:Hq.
  - apply tri_lattice_params_inl in Hq as He.
    apply arithmetic_error_not_index in He.
    unfold TrinOption.value, TrinOption.pricetree. rewrite Hq; simpl.
    split; congruence.
  - destruct (tri_value_root o q Hty HP Hq) as [t [Hrun [Hv _]]].
    rewrite Hrun, Hv; split; discriminate.
Qed.

(** * The properties of the specification *)

(** C1.  Binomial backward sweep.  For a contract of type call or put with a
    positive period count, once the lattice parameters are computed the
    pricer returns a buffer [t] of [(periods+1)(periods+2)/2] entries in
    which, at every step [s] in [0 .. periods] and node [i] in [0 .. s], the
    entry at offset [s(s+1)/2 + i] is [max(continuationVal, exerciseVal, 0)]:
    the underlying price is [adjustedStartPrice * up^(2i-s)] plus the
    escrow of step [s], the exercise value is the payoff of the contract on
    that price and the strike, and the continuation value is 0 at the
    terminal step and else the discounted
    [pDown * child(i) + pUp * child(i+1)], children read in the block of
    step [s+1].  The escrow of step [s] is the one the program has after
    [periods - s] updates. *)
Theorem C1_binomial_backward_sweep (o : Option) (q : BinOption.params) :
  type o = "call"%string \/ type o = "put"%string ->
  (0 < periods o)%Z ->
  BinOption.lattice_params o = inr q ->
  exists t,
    BinOption.pricetree o = inr t
    /\ Z.of_nat (length t) = BinOption.size (periods o)
    /\ binomial_backward_induction o
         (BinOption.up q) (BinOption.p_up q) (BinOption.p_down q)
         (fun s => cur_div_val (escrow_at o (Z.to_nat (periods o - s)))) t
    /\ forall s, (0 <= s <= periods o)%Z ->
         escrow_after o (Z.to_nat (periods o - s))
         = inr (escrow_at o (Z.to_nat (periods o - s))).
Proof.
  intros Hty HP Hq.
  destruct (bin_pricetree_correct o q Hty ltac:(lia) Hq)
    as [t [Hrun [Hlen Hval]]].
  exists t. split; [exact Hrun |]. split; [exact Hlen |]. split.
  - intros s i Hi Hs.
    exact (Hval s i ltac:(lia) ltac:(lia)).
  - intros s _. apply escrow_after_iter.
Qed.

Lemma C1_binomial_backward_sweep_witness :
  exists q t,
    BinOption.lattice_params testOp = inr q
    /\ BinOption.pricetree testOp = inr t
    /\ binomial_backward_induction testOp
         (BinOption.up q) (BinOption.p_up q) (BinOption.p_down q)
         (fun s =>
            cur_div_val (escrow_at testOp (Z.to_nat (periods testOp - s))))
         t.
Proof.
  destruct (bin_lattice_params_total testOp
              (sample_tstep_pos 200 eq_refl) sample_vola_nonzero) as [q Hq].
  destruct (C1_binomial_backward_sweep testOp q
              (or_introl eq_refl) ltac:(simpl; lia) Hq)
    as [t [Ht [_ [Hval _]]]].
  exists q, t. split; [exact Hq |]. split; [exact Ht | exact Hval].
Defined.

(** C2.  Trinomial backward sweep.  For a contract of type call or put with
    a positive period count, once the lattice parameters are computed the
    pricer returns a buffer [t] of [(periods+1)^2] entries in which, at
    every step [s] in [0 .. periods] and node [i] in [0 .. 2s], the entry at
    offset [s^2 + i] is [max(continuationVal, exerciseVal, 0)]: the
    underlying price is [adjustedStartPrice * up^(i-s)] plus the escrow of
    step [s], and the continuation value is 0 at the terminal step and else
    the discounted [pDown * child(i) + pMid * child(i+1) + pUp * child(i+2)],
    children read in the block of step [s+1]. *)
Theorem C2_trinomial_backward_sweep (o : Option) (q : TrinOption.params) :
  type o = "call"%string \/ type o = "put"%string ->
  (0 < periods o)%Z ->
  TrinOption.lattice_params o = inr q ->
  exists t,
    TrinOption.pricetree o = inr t
    /\ Z.of_nat (length t) = TrinOption.size (periods o)
    /\ trinomial_backward_induction o
         (TrinOption.up q) (TrinOption.p_up q) (TrinOption.p_mid q)
         (TrinOption.p_down q)
         (fun s => cur_div_val (escrow_at o (Z.to_nat (periods o - s)))) t
    /\ forall s, (0 <= s <= periods o)%Z ->
         escrow_after o (Z.to_nat (periods o - s))
         = inr (escrow_at o (Z.to_nat (periods o - s))).
Proof.
  intros Hty HP Hq.
  destruct (tri_pricetree_correct o q Hty ltac:(lia) Hq)
    as [t [Hrun [Hlen Hval]]].
  exists t. split; [exact Hrun |]. split; [exact Hlen |]. split.
  - intros s i Hi Hs.
    exact (Hval s i ltac:(lia) ltac:(lia)).
  - intros s _. apply escrow_after_iter.
Qed.

Lemma C2_trinomial_backward_sweep_witness :
  exists q t,
    TrinOption.lattice_params testOp = inr q
    /\ TrinOption.pricetree testOp = inr t
    /\ trinomial_backward_induction testOp
         (TrinOption.up q) (TrinOption.p_up q) (TrinOption.p_mid q)
         (TrinOption.p_down q)
         (fun s =>
            cur_div_val (escrow_at testOp (Z.to_nat (periods testOp - s))))
         t.
Proof.
  destruct (tri_lattice_params_total testOp
              (sample_tstep_pos 200 eq_refl) sample_vola_nonzero) as [q Hq].
  destruct (C2_trinomial_backward_sweep testOp q
              (or_introl eq_refl) ltac:(simpl; lia) Hq)
    as [t [Ht [_ [Hval _]]]].
  exists q, t. split; [exact Hq |]. split; [exact Ht | exact Hval].
Defined.

(** C3.  The value of a valid contract is not negative.  For a constructed
    contract of type call or put, with a positive period count and the
    valuation date before the expiry date, every number returned by
    [value()] is at least 0, in the binomial and in the trinomial pricer;
    and with a volatility other than 0 both pricers return a number. *)
Theorem C3_value_nonnegative (info : Info) (o : Option) :
  Option_init info = inr o ->
  type o = "call"%string \/ type o = "put"%string ->
  (0 < periods o)%Z ->
  (today o < expi o)%Z ->
  (forall v, BinOption.value o = inr v -> 0 <= v)
  /\ (forall v, TrinOption.value o = inr v -> 0 <= v)
  /\ (vola o <> 0 ->
      exists vb vt,
        BinOption.value o = inr vb /\ TrinOption.value o = inr vt).
Proof.
  intros Hinit Hty HP Hdate.
  split; [| split].
  - intros v; apply bin_value_nonneg; [exact Hty | lia].
  - intros v; apply tri_value_nonneg; [exact Hty | lia].
  - intros Hv.
    apply Option_init_inr in Hinit as [_ Ho].
    assert (Hts : 0 < tstep o).
    { rewrite Ho in HP, Hdate |- *; simpl in *.
      apply tstep_pos; lia. }
    destruct (bin_lattice_params_total o Hts Hv) as [qb Hqb].
    destruct (tri_lattice_params_total o Hts Hv) as [qt Hqt].
    destruct (bin_value_root o qb Hty ltac:(lia) Hqb) as [tb [_ [Hb _]]].
    destruct (tri_value_root o qt Hty ltac:(lia) Hqt) as [tt [_ [Ht _]]].
    eauto.
Qed.

Lemma C3_value_nonnegative_witness :
  exists o,
    Option_init testInfo = inr o
    /\ (forall v, BinOption.value o = inr v -> 0 <= v)
    /\ (forall v, TrinOption.value o = inr v -> 0 <= v)
    /\ exists vb vt,
         BinOption.value o = inr vb /\ TrinOption.value o = inr vt.
Proof.
  exists testOp.
  assert (Hinit : Option_init testInfo = inr testOp).
  { rewrite Option_init_nonzero by (vm_compute; discriminate). reflexivity. }
  destruct (C3_value_nonnegative testInfo testOp Hinit
              (or_introl eq_refl) ltac:(simpl; lia) ltac:(simpl; lia))
    as [Hb [Ht Hex]].
  split; [exact Hinit |]. split; [exact Hb |]. split; [exact Ht |].
  apply Hex; exact sample_vola_nonzero.
Defined.

(** C4, as the specification states it, fails: the program does not
    decrement the date by [tstep] days but by [timedelta(days=tstep)], whole
    microseconds.  For the contract [shortOp] (4 days, 14 periods, a
    dividend 2 days before expiry) the step is 24685.714286 seconds; after
    7 updates the program's date is 2 microseconds before the dividend's
    midnight and the dividend is absorbed, while with the exact step the
    date is that midnight and the dividend is not absorbed yet. *)
Lemma C4_counterexample :
  Option_init shortInfo = inr shortOp
  /\ (exists e,
        escrow_after shortOp 7 = inr e
        /\ day e = (midnight 736715 - 2)%Z
        /\ last_div e = (-1)%Z)
  /\ Spec.cursor
       (Nat.iter 7 (Spec.exact_update shortOp) (Spec.exact_init shortOp))
     = 0%Z.
Proof.
  split; [| split].
  - rewrite Option_init_nonzero by (vm_compute; discriminate).
    reflexivity.
  - exists (escrow_at shortOp 7).
    split; [apply escrow_after_iter |].
    rewrite (escrow_at_by shortOp _ 7 shortOp_timedelta).
    split; reflexivity.
  - apply (exact_single_dividend shortOp (736715%Z, 2) 7); [reflexivity | |].
    + simpl tstep. replace (736717 - 736713)%Z with 4%Z by reflexivity. lra.
    + simpl. replace (736717 - 736713)%Z with 4%Z by reflexivity. lra.
Qed.

(** C4, amended.  The dividend escrow.  The initial dividend value is the
    sum over the retained dividends of [discount(cashAmount, days from
    valuation to dividend, riskFreeRate)], and the adjusted starting price
    is the spot price minus it.  One update of the program decrements the
    date by [tstep] days rounded to whole microseconds (within half a
    microsecond of [tstep] days); the dividend under the cursor, when dated
    strictly after the new date, is added and the cursor moves to the
    previous dividend; then the value is discounted one step.  The
    program's escrow after [k] steps is [k] such updates of the initial
    escrow, and each outer iteration of either pricer runs the update after
    the nodes of its step. *)
Theorem C4_dividend_escrow (o : Option) :
  start_div_val o = Spec.initialDividendPV o
  /\ adj_price o = Spec.adjustedStartPrice o
  /\ - / 2 <= IZR (timedelta_days (tstep o)) - tstep o * IZR us_per_day <= / 2
  /\ (forall e,
        day (Spec.escrow_update o e) = (day e - timedelta_days (tstep o))%Z)
  /\ (forall e, cursor_ok o e ->
        escrow_step o e = inr (Spec.escrow_update o e))
  /\ (forall k,
        escrow_after o k
        = inr (Nat.iter k (Spec.escrow_update o) (escrow_init o))
        /\ cursor_ok o (Nat.iter k (Spec.escrow_update o) (escrow_init o)))
  /\ (forall exercise q adj step t e, cursor_ok o e ->
        BinOption.level o exercise q adj step (t, e)
        = (t' <- for_ (range (step + 1))
                   (BinOption.node o exercise q adj (cur_div_val e) step) t ;;
           ret (t', Spec.escrow_update o e)))
  /\ (forall exercise q adj step t e, cursor_ok o e ->
        TrinOption.level o exercise q adj step (t, e)
        = (t' <- for_ (range (2 * step + 1))
                   (TrinOption.node o exercise q adj (cur_div_val e) step) t ;;
           ret (t', Spec.escrow_update o e))).
Proof.
  split; [apply start_div_val_sum |].
  split; [unfold adj_price, Spec.adjustedStartPrice;
          now rewrite start_div_val_sum |].
  split; [apply timedelta_days_near |].
  split; [intros e; apply escrow_update_day |].
  split; [intros e; apply escrow_step_update |].
  split; [intros k; apply escrow_after_iter |].
  split; intros exercise q adj step t e Hok.
  - unfold BinOption.level; simpl.
    now rewrite (escrow_step_update o e Hok).
  - unfold TrinOption.level; simpl.
    now rewrite (escrow_step_update o e Hok).
Qed.

Lemma C4_dividend_escrow_witness :
  start_div_val coarseOp = Spec.initialDividendPV coarseOp
  /\ escrow_step coarseOp (escrow_init coarseOp)
     = inr (Spec.escrow_update coarseOp (escrow_init coarseOp)).
Proof.
  destruct (C4_dividend_escrow coarseOp) as [Hsum [_ [_ [_ [Hstep _]]]]].
  split; [exact Hsum |].
  apply Hstep. unfold cursor_ok; simpl; lia.
Defined.

(** C5.  The lattice parameters.  Whenever the program computes them, the
    binomial parameters are [up = exp(volatility * sqrt(tstep/365))],
    [pUp = (exp(riskFreeRate*tstep/365) - down) / (up - down)] with
    [down = 1/up], and [pDown = 1 - pUp]; the trinomial parameters are
    [up = exp(volatility * sqrt(2*tstep/365))] and, with
    [c = volatility * sqrt(tstep/365/2)], the squares
    [pUp = ((exp(riskFreeRate*tstep/365/2) - exp(-c)) / (exp(c)-exp(-c)))^2]
    and [pDown = ((exp(c) - exp(riskFreeRate*tstep/365/2)) /
    (exp(c)-exp(-c)))^2], and [pMid = 1 - pUp - pDown].  They are computed
    whenever the time step is positive and the volatility is not 0. *)
Theorem C5_lattice_parameters (o : Option) :
  (forall q, BinOption.lattice_params o = inr q ->
     BinOption.up q = Spec.bin_up (vola o) (tstep o)
     /\ BinOption.p_up q = Spec.bin_pUp (rfr o) (vola o) (tstep o)
     /\ BinOption.p_down q = Spec.bin_pDown (rfr o) (vola o) (tstep o))
  /\ (forall q, TrinOption.lattice_params o = inr q ->
        TrinOption.up q = Spec.tri_up (vola o) (tstep o)
        /\ TrinOption.p_up q = Spec.tri_pUp (rfr o) (vola o) (tstep o)
        /\ TrinOption.p_down q = Spec.tri_pDown (rfr o) (vola o) (tstep o)
        /\ TrinOption.p_mid q = Spec.tri_pMid (rfr o) (vola o) (tstep o))
  /\ (0 < tstep o -> vola o <> 0 ->
      high_mult (vola o) (tstep o) = inr (Spec.bin_up (vola o) (tstep o))
      /\ high_p (rfr o) (vola o) (tstep o)
         = inr (Spec.bin_pUp (rfr o) (vola o) (tstep o))
      /\ tri_high_mult (vola o) (tstep o)
         = inr (Spec.tri_up (vola o) (tstep o))
      /\ tri_high_p (rfr o) (vola o) (tstep o)
         = inr (Spec.tri_pUp (rfr o) (vola o) (tstep o))
      /\ tri_low_p (rfr o) (vola o) (tstep o)
         = inr (Spec.tri_pDown (rfr o) (vola o) (tstep o))
      /\ (exists q, BinOption.lattice_params o = inr q)
      /\ (exists q, TrinOption.lattice_params o = inr q)).
Proof.
  split; [intros q; apply bin_lattice_params_inr |].
  split; [intros q; apply tri_lattice_params_inr |].
  intros Hts Hv.
  split; [apply high_mult_total; lra |].
  split; [apply high_p_total; [lra | now apply bin_up_minus_down] |].
  split; [apply tri_high_mult_total; lra |].
  split; [now apply tri_high_p_total |].
  split; [now apply tri_low_p_total |].
  split; [now apply bin_lattice_params_total
         | now apply tri_lattice_params_total].
Qed.

Lemma C5_lattice_parameters_witness :
  high_p (rfr testOp) (vola testOp) (tstep testOp)
  = inr (Spec.bin_pUp (rfr testOp) (vola testOp) (tstep testOp))
  /\ tri_high_p (rfr testOp) (vola testOp) (tstep testOp)
     = inr (Spec.tri_pUp (rfr testOp) (vola testOp) (tstep testOp)).
Proof.
  destruct (C5_lattice_parameters testOp) as [_ [_ H]].
  destruct (H (sample_tstep_pos 200 eq_refl) sample_vola_nonzero)
    as [_ [Hb [_ [Ht _]]]].
  split; [exact Hb | exact Ht].
Defined.

(** ** A negative time step *)

Lemma py_sqrt_negative (x : R) : x < 0 -> py_sqrt x = inl ValueError.
Proof.
  intros Hx; unfold py_sqrt.
  destruct (Rlt_dec x 0); [reflexivity | contradiction].
Qed.

Lemma bin_pricetree_negative_tstep (o : Option) :
  tstep o < 0 ->
  BinOption.pricetree o = inl ValueError
  /\ BinOption.value o = inl ValueError.
Proof.
  intros Hts.
  assert (H : BinOption.pricetree o = inl ValueError).
  { unfold BinOption.pricetree, BinOption.lattice_params, high_mult.
    rewrite py_sqrt_negative by lra. reflexivity. }
  split; [exact H |]. unfold BinOption.value. now rewrite H.
Qed.

Lemma tri_pricetree_negative_tstep (o : Option) :
  tstep o < 0 ->
  TrinOption.pricetree o = inl ValueError
  /\ TrinOption.value o = inl ValueError.
Proof.
  intros Hts.
  assert (H : TrinOption.pricetree o = inl ValueError).
  { unfold TrinOption.pricetree, TrinOption.lattice_params, tri_high_mult.
    rewrite py_sqrt_negative by lra. reflexivity. }
  split; [exact H |]. unfold TrinOption.value. now rewrite H.
Qed.

Lemma straddleOp_pricetree :
  BinOption.pricetree straddleOp = inl UnboundLocalError
  /\ TrinOption.pricetree straddleOp = inl UnboundLocalError.
Proof.
  destruct (bin_lattice_params_total straddleOp
              (sample_tstep_pos 3 eq_refl) sample_vola_nonzero) as [qb Hb].
  destruct (tri_lattice_params_total straddleOp
              (sample_tstep_pos 3 eq_refl) sample_vola_nonzero) as [qt Ht].
  split.
  - rewrite bin_pricetree_unknown_type;
      [now rewrite Hb | discriminate | discriminate | simpl; lia].
  - rewrite tri_pricetree_unknown_type;
      [now rewrite Ht | discriminate | discriminate | simpl; lia].
Qed.

(** C6, as the specification states it, fails: the pricers of the contract
    [straddleOp], of type "straddle", fail with [UnboundLocalError], not
    with [InvalidContractType]. *)
Lemma C6_counterexample :
  BinOption.pricetree straddleOp = inl UnboundLocalError
  /\ BinOption.pricetree straddleOp <> inl InvalidContractType
  /\ TrinOption.pricetree straddleOp = inl UnboundLocalError
  /\ TrinOption.pricetree straddleOp <> inl InvalidContractType.
Proof.
  destruct straddleOp_pricetree as [Hb Ht].
  rewrite Hb, Ht. repeat split; discriminate.
Qed.

(** C6, amended.  For a contract whose type is neither call nor put and
    whose period count is positive, both pricers fail and there is no
    default payoff: when the lattice parameters are computed, the failure
    is the [UnboundLocalError] of the first use of the payoff function, at
    the first node of the terminal step; otherwise it is the arithmetic
    error ([ZeroDivisionError] or [ValueError]) of the lattice parameters.
    [value()] fails the same way.  With a positive time step and a
    volatility other than 0 the failure is the [UnboundLocalError]. *)
Theorem C6_unknown_type_fails (o : Option) :
  type o <> "call"%string -> type o <> "put"%string ->
  (0 < periods o)%Z ->
  (exists e,
     BinOption.pricetree o = inl e /\ BinOption.value o = inl e
     /\ (e = UnboundLocalError \/ arithmetic_error e)
     /\ ((exists q, BinOption.lattice_params o = inr q) ->
         e = UnboundLocalError))
  /\ (exists e,
        TrinOption.pricetree o = inl e /\ TrinOption.value o = inl e
        /\ (e = UnboundLocalError \/ arithmetic_error e)
        /\ ((exists q, TrinOption.lattice_params o = inr q) ->
            e = UnboundLocalError))
  /\ (0 < tstep o -> vola o <> 0 ->
      BinOption.value o = inl UnboundLocalError
      /\ TrinOption.value o = inl UnboundLocalError).
Proof.
  intros Hc Hp HP.
  pose proof (bin_pricetree_unknown_type o Hc Hp ltac:(lia)) as Hb.
  pose proof (tri_pricetree_unknown_type o Hc Hp ltac:(lia)) as Ht.
  split; [| split].
  - destruct (BinOption.lattice_params o) as [e | q] eqn:Hq.
    + exists e. split; [exact Hb |].
      split; [unfold BinOption.value; now rewrite Hb |].
      split; [right; now apply (bin_lattice_params_inl o) |].
      intros [q' Hq']; discriminate.
    + exists UnboundLocalError. split; [exact Hb |].
      split; [unfold BinOption.value; now rewrite Hb |].
      split; [now left | reflexivity].
  - destruct (TrinOption.lattice_params o) as [e | q] eqn:Hq.
    + exists e. split; [exact Ht |].
      split; [unfold TrinOption.value; now rewrite Ht |].
      split; [right; now apply (tri_lattice_params_inl o) |].
      intros [q' Hq']; discriminate.
    + exists UnboundLocalError. split; [exact Ht |].
      split; [unfold TrinOption.value; now rewrite Ht |].
      split; [now left | reflexivity].
  - intros Hts Hv.
    destruct (bin_lattice_params_total o Hts Hv) as [qb Hqb].
    destruct (tri_lattice_params_total o Hts Hv) as [qt Hqt].
    rewrite Hqb in Hb. rewrite Hqt in Ht.
    unfold BinOption.value, TrinOption.value. rewrite Hb, Ht.
    split; reflexivity.
Qed.

Lemma C6_unknown_type_fails_witness :
  BinOption.value straddleOp = inl UnboundLocalError
  /\ TrinOption.value straddleOp = inl UnboundLocalError.
Proof.
  destruct (C6_unknown_type_fails straddleOp) as [_ [_ H]];
    [discriminate | discriminate | simpl; lia |].
  apply H; [exact (sample_tstep_pos 3 eq_refl) | exact sample_vola_nonzero].
Defined.

(** C7, as the specification states it, fails: with a period count of -3
    the construction succeeds, and with a period count of 0 it fails with
    [ZeroDivisionError], not with [InvalidPeriodCount]. *)
Lemma C7_counterexample :
  (exists o, Option_init negativePeriodsInfo = inr o
             /\ periods o = (-3)%Z)
  /\ Option_init zeroPeriodsInfo = inl ZeroDivisionError
  /\ Option_init zeroPeriodsInfo <> inl InvalidPeriodCount.
Proof.
  split; [| split].
  - eexists. split.
    + apply Option_init_nonzero. vm_compute; discriminate.
    + reflexivity.
  - apply Option_init_zero; reflexivity.
  - rewrite Option_init_zero by reflexivity. discriminate.
Qed.

(** C7, amended.  A period count of 0 makes the construction fail, with the
    [ZeroDivisionError] of the time-step division.  A negative period count
    does not: the contract is constructed, with the time step
    [days / periodCount]; when the valuation date is before the expiry date
    that time step is negative and both pricers then fail with the
    [ValueError] of the square root in the lattice parameters. *)
Theorem C7_period_count_not_validated (info : Info) :
  (init_periods info = 0%Z -> Option_init info = inl ZeroDivisionError)
  /\ ((init_periods info < 0)%Z ->
      exists o,
        Option_init info = inr o
        /\ periods o = init_periods info
        /\ tstep o
           = IZR (info_expi info - info_today info) / IZR (init_periods info)
        /\ ((info_today info < info_expi info)%Z ->
            BinOption.value o = inl ValueError
            /\ TrinOption.value o = inl ValueError)).
Proof.
  split; [apply Option_init_zero |].
  intros Hneg.
  eexists. split; [apply Option_init_nonzero; lia |].
  split; [reflexivity |]. split; [reflexivity |].
  intros Hdate.
  assert (Hts : IZR (info_expi info - info_today info)
                / IZR (init_periods info) < 0)
    by (apply tstep_neg; lia).
  split.
  - now apply bin_pricetree_negative_tstep.
  - now apply tri_pricetree_negative_tstep.
Qed.

Lemma C7_period_count_not_validated_witness :
  Option_init zeroPeriodsInfo = inl ZeroDivisionError
  /\ exists o,
       Option_init negativePeriodsInfo = inr o
       /\ BinOption.value o = inl ValueError.
Proof.
  destruct (C7_period_count_not_validated zeroPeriodsInfo) as [Hz _].
  destruct (C7_period_count_not_validated negativePeriodsInfo) as [_ Hn].
  split; [apply Hz; reflexivity |].
  destruct Hn as [o [Ho [_ [_ Hv]]]]; [vm_compute; reflexivity |].
  exists o. split; [exact Ho |].
  apply Hv. vm_compute; reflexivity.
Defined.

(** C8.  The dividends of a constructed contract.  The construction never
    fails because of a dividend (it succeeds whenever the period count is
    not 0), and the [divs] of the constructed contract are exactly the input
    dividends dated strictly after the valuation date, every one as often
    as in the input, in ascending order of date.  The contract is a value:
    the pricers read [divs] and return a buffer, so nothing changes the
    list after the construction. *)
Theorem C8_dividends_filtered_sorted (info : Info) :
  (init_periods info <> 0%Z -> exists o, Option_init info = inr o)
  /\ forall o, Option_init info = inr o ->
       today o = info_today info
       /\ Permutation (divs o)
            (filter (after_today (info_today info)) (input_divs info))
       /\ (forall d, In d (divs o) <->
                     In d (input_divs info) /\ (info_today info < fst d)%Z)
       /\ StronglySorted by_date (divs o).
Proof.
  split.
  - intros Hp. eexists. now apply Option_init_nonzero.
  - intros o Ho. apply Option_init_inr in Ho as [_ ->]; simpl.
    split; [reflexivity |].
    split; [apply init_divs_perm |].
    split; [| apply init_divs_sorted].
    intros d. split.
    + intros Hd.
      apply (Permutation_in _ (init_divs_perm info)) in Hd.
      apply filter_In in Hd as [Hin Hafter].
      split; [exact Hin |]. unfold after_today in Hafter. lia.
    + intros [Hin Hafter].
      apply (Permutation_in _ (Permutation_sym (init_divs_perm info))).
      apply filter_In. split; [exact Hin |].
      unfold after_today. lia.
Qed.

Lemma C8_dividends_filtered_sorted_witness :
  exists o,
    Option_init testInfo = inr o
    /\ Permutation (divs o)
         (filter (after_today (info_today testInfo)) (input_divs testInfo))
    /\ StronglySorted by_date (divs o).
Proof.
  destruct (C8_dividends_filtered_sorted testInfo) as [Hex Hall].
  destruct Hex as [o Ho]; [vm_compute; discriminate |].
  exists o. split; [exact Ho |].
  destruct (Hall o Ho) as [_ [Hperm [_ Hsorted]]].
  split; [exact Hperm | exact Hsorted].
Defined.

(** C9.  Buffer accesses.  For a contract of type call or put with a
    positive period count: the binomial offsets satisfy
    [0 <= s(s+1)/2 + i < (periods+1)(periods+2)/2] for the writes and
    [(s+1)(s+2)/2 + i + 1 < (periods+1)(periods+2)/2] for the child reads
    of the steps [s < periods]; the trinomial offsets satisfy
    [0 <= s^2 + i < (periods+1)^2] and [(s+1)^2 + i + 2 < (periods+1)^2];
    a returned buffer has that length; and neither [pricetree()] nor
    [value()] of either pricer raises [IndexError]. *)
Theorem C9_buffer_accesses_in_bounds (o : Option) :
  type o = "call"%string \/ type o = "put"%string ->
  (0 < periods o)%Z ->
  (forall s i, (0 <= i <= s)%Z -> (s <= periods o)%Z ->
     (0 <= BinOption.firstNode s + i < BinOption.size (periods o))%Z)
  /\ (forall s i, (0 <= i <= s)%Z -> (s < periods o)%Z ->
        (0 <= BinOption.childNode s + i)%Z
        /\ (BinOption.childNode s + i + 1 < BinOption.size (periods o))%Z)
  /\ (forall s i, (0 <= i <= 2 * s)%Z -> (s <= periods o)%Z ->
        (0 <= TrinOption.firstNode s + i < TrinOption.size (periods o))%Z)
  /\ (forall s i, (0 <= i <= 2 * s)%Z -> (s < periods o)%Z ->
        (0 <= TrinOption.childNode s + i)%Z
        /\ (TrinOption.childNode s + i + 2 < TrinOption.size (periods o))%Z)
  /\ (forall t, BinOption.pricetree o = inr t ->
        Z.of_nat (length t) = BinOption.size (periods o))
  /\ (forall t, TrinOption.pricetree o = inr t ->
        Z.of_nat (length t) = TrinOption.size (periods o))
  /\ BinOption.pricetree o <> inl IndexError
  /\ BinOption.value o <> inl IndexError
  /\ TrinOption.pricetree o <> inl IndexError
  /\ TrinOption.value o <> inl IndexError.
Proof.
  intros Hty HP.
  split; [intros s i Hi Hs; now apply bin_offsets_in_bounds |].
  split; [intros s i Hi Hs;
          apply (bin_offsets_in_bounds (periods o) s i); lia |].
  split; [intros s i Hi Hs; now apply tri_offsets_in_bounds |].
  split; [intros s i Hi Hs;
          apply (tri_offsets_in_bounds (periods o) s i); lia |].
  split.
  { intros t Ht.
    destruct (bin_pricetree_inr_params o t Ht) as [q Hq].
    destruct (bin_pricetree_correct o q Hty ltac:(lia) Hq)
      as [t' [Hrun [Hlen _]]].
    rewrite Hrun in Ht; injection Ht as <-. exact Hlen. }
  split.
  { intros t Ht.
    destruct (tri_pricetree_inr_params o t Ht) as [q Hq].
    destruct (tri_pricetree_correct o q Hty ltac:(lia) Hq)
      as [t' [Hrun [Hlen _]]].
    rewrite Hrun in Ht; injection Ht as <-. exact Hlen. }
  destruct (bin_no_IndexError o Hty ltac:(lia)) as [Hb1 Hb2].
  destruct (tri_no_IndexError o Hty ltac:(lia)) as [Ht1 Ht2].
  auto.
Qed.

Lemma C9_buffer_accesses_in_bounds_witness :
  (0 <= BinOption.childNode 199 + 199)%Z
  /\ (BinOption.childNode 199 + 199 + 1 < BinOption.size (periods testOp))%Z
  /\ BinOption.value testOp <> inl IndexError
  /\ TrinOption.value testOp <> inl IndexError.
Proof.
  destruct (C9_buffer_accesses_in_bounds testOp
              (or_introl eq_refl) ltac:(simpl; lia))
    as [_ [Hchild [_ [_ [_ [_ [_ [Hb [_ Ht]]]]]]]]].
  destruct (Hchild 199%Z 199%Z ltac:(lia) ltac:(simpl; lia)) as [H0 H1].
  auto.
Defined.

(** C10.  One dividend per step.  An update of the escrow moves the cursor
    back by at most one position.  When the dividend under the cursor and
    the one before it are both dated strictly after the newly decremented
    date, the update absorbs only the one under the cursor; the other is
    absorbed by the next update, one step later in the sweep, that is at
    an earlier date of the lattice. *)
Theorem C10_one_dividend_per_step (o : Option) (e e' : escrow) :
  cursor_ok o e ->
  escrow_step o e = inr e' ->
  (last_div e - 1 <= last_div e' <= last_div e)%Z
  /\ forall d1 d2,
       (1 <= last_div e)%Z ->
       nth_error (divs o) (Z.to_nat (last_div e - 1)) = Some d1 ->
       nth_error (divs o) (Z.to_nat (last_div e)) = Some d2 ->
       (day e - timedelta_days (tstep o) < midnight (fst d1))%Z ->
       (day e - timedelta_days (tstep o) < midnight (fst d2))%Z ->
       last_div e' = (last_div e - 1)%Z
       /\ cur_div_val e'
          = discount (cur_div_val e + snd d2) (tstep o) (rfr o)
       /\ (0 <= tstep o ->
           exists e'',
             escrow_step o e' = inr e''
             /\ last_div e'' = (last_div e - 2)%Z
             /\ cur_div_val e''
                = discount (cur_div_val e' + snd d1) (tstep o) (rfr o)).
Proof.
  intros Hok Hstep.
  rewrite (escrow_step_update o e Hok) in Hstep. injection Hstep as <-.
  split; [apply escrow_update_cursor |].
  intros d1 d2 Hld Hd1 Hd2 Hafter1 Hafter2.
  destruct (escrow_update_absorbs o e d2 ltac:(lia) Hd2 Hafter2)
    as [Hcur [Hval Hday]].
  split; [exact Hcur |]. split; [exact Hval |].
  intros Hts.
  exists (Spec.escrow_update o (Spec.escrow_update o e)).
  split; [apply escrow_step_update; now apply escrow_update_cursor_ok |].
  destruct (escrow_update_absorbs o (Spec.escrow_update o e) d1)
    as [Hcur2 [Hval2 _]].
  - rewrite Hcur; lia.
  - now rewrite Hcur.
  - rewrite Hday. pose proof (timedelta_days_nonneg (tstep o) Hts). lia.
  - split; [rewrite Hcur2, Hcur; lia | exact Hval2].
Qed.

Lemma C10_one_dividend_per_step_witness :
  exists e' e'',
    escrow_step coarseOp (escrow_init coarseOp) = inr e'
    /\ last_div e' = 0%Z
    /\ cur_div_val e' = discount (0 + 2) (tstep coarseOp) (rfr coarseOp)
    /\ escrow_step coarseOp e' = inr e''
    /\ last_div e'' = (-1)%Z.
Proof.
  assert (Hok : cursor_ok coarseOp (escrow_init coarseOp))
    by (unfold cursor_ok; simpl; lia).
  pose proof (escrow_step_update coarseOp (escrow_init coarseOp) Hok) as Hrun.
  destruct (C10_one_dividend_per_step coarseOp (escrow_init coarseOp)
              _ Hok Hrun) as [_ Htwo].
  assert (Hstep : timedelta_days (tstep coarseOp) = 3456000000000%Z)
    by (apply timedelta_days_whole; [discriminate | reflexivity]).
  destruct (Htwo (736803%Z, 2) (736805%Z, 2)) as [Hcur [Hval Hnext]].
  - simpl; lia.
  - reflexivity.
  - reflexivity.
  - rewrite Hstep. reflexivity.
  - rewrite Hstep. reflexivity.
  - destruct Hnext as [e'' [Hrun2 [Hcur2 _]]].
    + pose proof (sample_tstep_pos 3 eq_refl). simpl; lra.
    + exists (Spec.escrow_update coarseOp (escrow_init coarseOp)), e''.
      split; [exact Hrun |]. split; [exact Hcur |].
      split; [exact Hval |]. split; [exact Hrun2 | exact Hcur2].
Defined.

(** * Further properties of the program *)

(** ** Discounting *)

Lemma exp_nonpos_le_1 (x : R) : x <= 0 -> exp x <= 1.
Proof.
  intros [Hlt | ->]; [| rewrite exp_0; lra].
  apply exp_increasing in Hlt. rewrite exp_0 in Hlt; lra.
Qed.

Lemma discount_zero_amount (days r : R) : discount 0 days r = 0.
Proof. unfold discount; apply Rmult_0_l. Qed.

Lemma discount_plus (amt d1 d2 r : R) :
  discount (discount amt d1 r) d2 r = discount amt (d1 + d2) r.
Proof.
  unfold discount. rewrite Rmult_assoc, <- exp_plus.
  f_equal. f_equal. field.
Qed.

(** X1.  Discounting composes: discounting over [d1] days and then over
    [d2] days is discounting over [d1 + d2] days; over 0 days it changes
    nothing; and [k] discounts of one step, as the sweep applies them to the
    escrow, are one discount over [k] steps. *)
Theorem X1_discount_composes (amt r : R) :
  (forall d1 d2,
     discount (discount amt d1 r) d2 r = discount amt (d1 + d2) r)
  /\ discount amt 0 r = amt
  /\ forall (k : nat) (ts : R),
       Nat.iter k (fun x => discount x ts r) amt = discount amt (INR k * ts) r.
Proof.
  assert (Hzero : discount amt 0 r = amt).
  { unfold discount.
    replace (- r * (0 / 365)) with 0 by field.
    rewrite exp_0; ring. }
  split; [intros d1 d2; apply discount_plus |].
  split; [exact Hzero |].
  induction k as [| k IH]; intros ts.
  - simpl. rewrite Rmult_0_l. now rewrite Hzero.
  - simpl Nat.iter. rewrite IH, discount_plus.
    f_equal. rewrite S_INR; ring.
Qed.

(** X2.  A payout in the future is worth less: with a rate and a number of
    days that are not negative, the discounted value of a non-negative
    amount is at most the amount, and strictly less when the three are
    positive. *)
Theorem X2_discount_lowers (amt days r : R) :
  0 <= amt -> 0 <= days -> 0 <= r ->
  0 <= discount amt days r <= amt
  /\ (0 < amt -> 0 < days -> 0 < r -> discount amt days r < amt).
Proof.
  intros Ha Hd Hr. unfold discount.
  pose proof (exp_pos (- r * (days / 365))) as Hpos.
  assert (Hle : exp (- r * (days / 365)) <= 1).
  { apply exp_nonpos_le_1.
    assert (0 <= days / 365) by lra. nra. }
  split; [split; nra |].
  intros Ha' Hd' Hr'.
  assert (Hlt : exp (- r * (days / 365)) < 1).
  { rewrite <- exp_0. apply exp_increasing.
    assert (0 < days / 365) by lra. nra. }
  nra.
Qed.

Lemma X2_discount_lowers_witness :
  0 <= discount 2 90 (9 / 100) <= 2 /\ discount 2 90 (9 / 100) < 2.
Proof.
  destruct (X2_discount_lowers 2 90 (9 / 100)) as [Hle Hlt]; [lra | lra | lra |].
  split; [exact Hle | apply Hlt; lra].
Defined.

(** ** The multipliers and probabilities *)

(** X3.  [tri_low_mult] is the inverse of [tri_high_mult]: when the upper
    multiplier is [u] the lower one is [1 / u], their product is 1, and the
    two functions fail together. *)
Theorem X3_tri_low_mult_inverse (v ts : R) :
  (forall u, tri_high_mult v ts = inr u ->
     tri_low_mult v ts = inr (/ u) /\ u * / u = 1)
  /\ (forall e, tri_high_mult v ts = inl e <-> tri_low_mult v ts = inl e).
Proof.
  unfold tri_high_mult, tri_low_mult, py_sqrt.
  destruct (Rlt_dec (2 * ts / 365) 0); simpl.
  - split; [intros u H; discriminate | intros e; reflexivity].
  - split.
    + intros u H; injection H as <-.
      split.
      * unfold ret. rewrite <- exp_Ropp.
        now replace (- v * sqrt (2 * ts / 365))
          with (- (v * sqrt (2 * ts / 365))) by ring.
      * apply Rinv_r.
        pose proof (exp_pos (v * sqrt (2 * ts / 365))); lra.
    + intros e; split; intros H; discriminate.
Qed.

Lemma X3_tri_low_mult_inverse_witness :
  tri_low_mult (4 / 10) 40 = inr (/ Spec.tri_up (4 / 10) 40).
Proof.
  destruct (X3_tri_low_mult_inverse (4 / 10) 40) as [H _].
  apply H. apply tri_high_mult_total; lra.
Defined.

Lemma high_p_inv (r v ts p : R) :
  high_p r v ts = inr p ->
  0 <= ts
  /\ exp (v * sqrt (ts / 365)) - 1 / exp (v * sqrt (ts / 365)) <> 0
  /\ p = (exp (r * ts / 365) - 1 / exp (v * sqrt (ts / 365)))
         / (exp (v * sqrt (ts / 365)) - 1 / exp (v * sqrt (ts / 365))).
Proof.
  unfold high_p; intros H.
  apply bind_inr in H as [u [Hu H]].
  apply high_mult_inr in Hu as [Hts ->].
  apply bind_inr in H as [d [Hd H]].
  apply py_div_inr in Hd as [_ ->].
  apply py_div_inr in H as [Hne ->].
  unfold Spec.bin_up in *. auto.
Qed.

(** X4.  The binomial probabilities are risk neutral: the expected
    multiplier [p_up * up + p_down * down], with [down = 1 / up], is the
    growth [exp(rfr * tstep / 365)] of one step at the risk-free rate. *)
Theorem X4_binomial_risk_neutral (o : Option) (q : BinOption.params) :
  BinOption.lattice_params o = inr q ->
  BinOption.p_up q * BinOption.up q
  + BinOption.p_down q * (1 / BinOption.up q)
  = exp (rfr o * tstep o / 365)
  /\ BinOption.p_up q + BinOption.p_down q = 1.
Proof.
  unfold BinOption.lattice_params; intros H.
  apply bind_inr in H as [u [Hu H]].
  apply high_mult_inr in Hu as [_ ->].
  apply bind_inr in H as [p [Hp H]].
  apply high_p_inv in Hp as [_ [Hne ->]].
  injection H as <-; simpl. unfold Spec.bin_up.
  set (u := exp (vola o * sqrt (tstep o / 365))) in *.
  set (d := 1 / u) in *.
  set (e := exp (rfr o * tstep o / 365)).
  assert (Hp : (e - d) / (u - d) * (u - d) = e - d) by (field; exact Hne).
  split; [| ring].
  replace ((e - d) / (u - d) * u + (1 - (e - d) / (u - d)) * d)
    with (d + (e - d) / (u - d) * (u - d)) by ring.
  rewrite Hp; ring.
Qed.

Lemma X4_binomial_risk_neutral_witness :
  exists q,
    BinOption.lattice_params testOp = inr q
    /\ BinOption.p_up q * BinOption.up q
       + BinOption.p_down q * (1 / BinOption.up q)
       = exp (rfr testOp * tstep testOp / 365).
Proof.
  destruct (bin_lattice_params_total testOp
              (sample_tstep_pos 200 eq_refl) sample_vola_nonzero) as [q Hq].
  exists q. split; [exact Hq |].
  apply (X4_binomial_risk_neutral testOp q Hq).
Defined.

(** X5.  The binomial probability is not clamped.  With a positive time
    step and volatility, [high_p] returns a [p] that is positive exactly
    when [- vola < rfr * sqrt(tstep/365)] and below 1 exactly when
    [rfr * sqrt(tstep/365) < vola]; outside that range of rates the
    "probabilities" [p] and [1 - p] leave the interval from 0 to 1. *)
Theorem X5_binomial_probability_range (r v ts : R) :
  0 < ts -> 0 < v ->
  exists p,
    high_p r v ts = inr p
    /\ (0 < p <-> - v < r * sqrt (ts / 365))
    /\ (p < 1 <-> r * sqrt (ts / 365) < v).
Proof.
  intros Hts Hv.
  assert (Hs : 0 < sqrt (ts / 365)) by (apply sqrt_lt_R0; lra).
  assert (Hss : sqrt (ts / 365) * sqrt (ts / 365) = ts / 365)
    by (apply sqrt_sqrt; lra).
  set (s := sqrt (ts / 365)) in *.
  assert (Hy : r * ts / 365 = r * s * s) by (rewrite Rmult_assoc, Hss; field).
  exists (Spec.bin_pUp r v ts).
  split; [apply high_p_total; [lra | apply bin_up_minus_down; lra] |].
  unfold Spec.bin_pUp, Spec.bin_down, Spec.bin_up. fold s. rewrite Hy.
  replace (1 / exp (v * s)) with (exp (- (v * s)))
    by (rewrite exp_Ropp; field; pose proof (exp_pos (v * s)); lra).
  assert (HD : 0 < exp (v * s) - exp (- (v * s))).
  { assert (exp (- (v * s)) < exp (v * s)) by (apply exp_increasing; nra).
    lra. }
  set (D := exp (v * s) - exp (- (v * s))) in *.
  set (N := exp (r * s * s) - exp (- (v * s))).
  assert (HND : N / D * D = N) by (field; lra).
  assert (Hpos : 0 < N / D <-> 0 < N).
  { split; intros H; [nra | now apply Rdiv_lt_0_compat]. }
  assert (Hone : N / D < 1 <-> N < D).
  { split; intros H; [nra |].
    apply (Rmult_lt_reg_r D); [exact HD | lra]. }
  rewrite Hpos, Hone. unfold N, D.
  split; split; intros H.
  - assert (exp (- (v * s)) < exp (r * s * s)) by lra.
    apply exp_lt_inv in H0. nra.
  - assert (exp (- (v * s)) < exp (r * s * s))
      by (apply exp_increasing; nra). lra.
  - assert (exp (r * s * s) < exp (v * s)) by lra.
    apply exp_lt_inv in H0. nra.
  - assert (exp (r * s * s) < exp (v * s))
      by (apply exp_increasing; nra). lra.
Qed.

Lemma X5_binomial_probability_range_witness :
  exists p,
    high_p (9 / 100) (4 / 10) 40 = inr p
    /\ (p < 1 <-> 9 / 100 * sqrt (40 / 365) < 4 / 10).
Proof.
  destruct (X5_binomial_probability_range (9 / 100) (4 / 10) 40)
    as [p [Hp [_ Hlt]]]; [lra | lra |].
  exists p. split; [exact Hp | exact Hlt].
Defined.

(** ** The trinomial lattice as two binomial half steps *)

Lemma sqrt_two_half (ts : R) :
  0 <= ts -> sqrt (2 * ts / 365) = 2 * sqrt (ts / 365 / 2).
Proof.
  intros Hts.
  replace (2 * ts / 365) with (2 * 2 * (ts / 365 / 2)) by field.
  rewrite sqrt_mult by lra.
  now rewrite sqrt_square by lra.
Qed.

Lemma tri_high_p_inv (r v ts p : R) :
  tri_high_p r v ts = inr p ->
  0 <= ts
  /\ exp (Spec.tri_c v ts) - exp (- Spec.tri_c v ts) <> 0
  /\ p = Spec.tri_pUp r v ts.
Proof.
  intros H. split; [| split; [| now apply tri_high_p_inr]];
    unfold tri_high_p in H;
    apply bind_inr in H as [s [Hs H]];
    apply py_sqrt_inr in Hs as [Hts ->];
    apply bind_inr in H as [x [Hx _]];
    apply py_div_inr in Hx as [Hne _].
  - lra.
  - exact Hne.
Qed.

Lemma tri_lattice_half_step (o : Option) (q : TrinOption.params) :
  TrinOption.lattice_params o = inr q ->
  exists u2 p2,
    high_mult (vola o) (tstep o / 2) = inr u2
    /\ high_p (rfr o) (vola o) (tstep o / 2) = inr p2
    /\ 0 < u2
    /\ p2 * u2 + (1 - p2) * (1 / u2) = exp (rfr o * tstep o / 365 / 2)
    /\ TrinOption.up q = u2 ^ 2
    /\ TrinOption.p_up q = p2 ^ 2
    /\ TrinOption.p_down q = (1 - p2) ^ 2
    /\ TrinOption.p_mid q = 2 * p2 * (1 - p2).
Proof.
  intros Hq.
  pose proof (tri_lattice_params_inr o q Hq) as [Hup [Hpu [Hpd Hpm]]].
  unfold TrinOption.lattice_params in Hq.
  apply bind_inr in Hq as [u [_ Hq]].
  apply bind_inr in Hq as [pu [Hpu' _]].
  apply tri_high_p_inv in Hpu' as [Hts [Hne _]].
  set (c := Spec.tri_c (vola o) (tstep o)) in *.
  set (E := exp (rfr o * tstep o / 365 / 2)).
  assert (Hc : vola o * sqrt (tstep o / 2 / 365) = c).
  { unfold c, Spec.tri_c.
    now replace (tstep o / 2 / 365) with (tstep o / 365 / 2) by field. }
  assert (Hinv : 1 / exp c = exp (- c)).
  { rewrite exp_Ropp. field. pose proof (exp_pos c); lra. }
  assert (Hden : Spec.bin_up (vola o) (tstep o / 2)
                 - Spec.bin_down (vola o) (tstep o / 2) <> 0).
  { unfold Spec.bin_down, Spec.bin_up. now rewrite Hc, Hinv. }
  assert (Hp2 : Spec.bin_pUp (rfr o) (vola o) (tstep o / 2)
                = (E - exp (- c)) / (exp c - exp (- c))).
  { unfold Spec.bin_pUp, Spec.bin_down, Spec.bin_up.
    rewrite Hc, Hinv. unfold E.
    now replace (rfr o * (tstep o / 2) / 365)
      with (rfr o * tstep o / 365 / 2) by field. }
  exists (exp c), ((E - exp (- c)) / (exp c - exp (- c))).
  set (a := (E - exp (- c)) / (exp c - exp (- c))) in *.
  assert (Ha : a * (exp c - exp (- c)) = E - exp (- c))
    by (unfold a; field; exact Hne).
  split.
  { rewrite high_mult_total by lra. unfold Spec.bin_up. now rewrite Hc. }
  split.
  { rewrite high_p_total by (try lra; exact Hden). now rewrite Hp2. }
  split; [apply exp_pos |].
  split.
  { rewrite Hinv.
    replace (a * exp c + (1 - a) * exp (- c))
      with (exp (- c) + a * (exp c - exp (- c))) by ring.
    rewrite Ha; ring. }
  split.
  { rewrite Hup. unfold Spec.tri_up.
    rewrite sqrt_two_half by exact Hts.
    replace (vola o * (2 * sqrt (tstep o / 365 / 2))) with (c + c)
      by (unfold c, Spec.tri_c; ring).
    rewrite exp_plus; ring. }
  split; [rewrite Hpu; reflexivity |].
  assert (Hb : (exp c - E) / (exp c - exp (- c)) = 1 - a)
    by (unfold a; field; exact Hne).
  split.
  { rewrite Hpd. unfold Spec.tri_pDown. fold c. fold E. now rewrite Hb. }
  rewrite Hpm. unfold Spec.tri_pMid, Spec.tri_pUp, Spec.tri_pDown.
  fold c. fold E. fold a. rewrite Hb. ring.
Qed.

(** X6.  The trinomial lattice is the binomial lattice of half the time
    step, taken two steps at a time: with [u2] and [p2] the binomial
    multiplier and probability for [tstep / 2], the trinomial parameters are
    [up = u2^2], [p_up = p2^2], [p_down = (1 - p2)^2] and
    [p_mid = 2 * p2 * (1 - p2)]. *)
Theorem X6_trinomial_is_two_half_steps (o : Option) (q : TrinOption.params) :
  TrinOption.lattice_params o = inr q ->
  exists u2 p2,
    high_mult (vola o) (tstep o / 2) = inr u2
    /\ high_p (rfr o) (vola o) (tstep o / 2) = inr p2
    /\ TrinOption.up q = u2 ^ 2
    /\ TrinOption.p_up q = p2 ^ 2
    /\ TrinOption.p_down q = (1 - p2) ^ 2
    /\ TrinOption.p_mid q = 2 * p2 * (1 - p2).
Proof.
  intros Hq.
  destruct (tri_lattice_half_step o q Hq)
    as [u2 [p2 [Hu [Hp [_ [_ [H1 [H2 [H3 H4]]]]]]]]].
  exists u2, p2. auto 10.
Qed.

Lemma X6_trinomial_is_two_half_steps_witness :
  exists q u2 p2,
    TrinOption.lattice_params testOp = inr q
    /\ high_p (rfr testOp) (vola testOp) (tstep testOp / 2) = inr p2
    /\ TrinOption.up q = u2 ^ 2
    /\ TrinOption.p_mid q = 2 * p2 * (1 - p2).
Proof.
  destruct (tri_lattice_params_total testOp
              (sample_tstep_pos 200 eq_refl) sample_vola_nonzero) as [q Hq].
  destruct (X6_trinomial_is_two_half_steps testOp q Hq)
    as [u2 [p2 [_ [Hp [Hu [_ [_ Hm]]]]]]].
  exists q, u2, p2. auto.
Defined.

(** X7.  The trinomial probabilities are risk neutral: they add up to 1,
    [p_up] and [p_down] are not negative, and the expected multiplier
    [p_up * up + p_mid * 1 + p_down * (1 / up)] is the growth
    [exp(rfr * tstep / 365)] of one step at the risk-free rate. *)
Theorem X7_trinomial_risk_neutral (o : Option) (q : TrinOption.params) :
  TrinOption.lattice_params o = inr q ->
  TrinOption.p_up q * TrinOption.up q + TrinOption.p_mid q * 1
  + TrinOption.p_down q * (1 / TrinOption.up q)
  = exp (rfr o * tstep o / 365)
  /\ TrinOption.p_up q + TrinOption.p_mid q + TrinOption.p_down q = 1
  /\ 0 <= TrinOption.p_up q
  /\ 0 <= TrinOption.p_down q.
Proof.
  intros Hq.
  destruct (tri_lattice_half_step o q Hq)
    as [u2 [p2 [_ [_ [Hu [Hm [-> [-> [-> ->]]]]]]]]].
  split; [| split; [ring | split; apply pow2_ge_0]].
  replace (exp (rfr o * tstep o / 365))
    with (exp (rfr o * tstep o / 365 / 2) * exp (rfr o * tstep o / 365 / 2))
    by (rewrite <- exp_plus; f_equal; field).
  rewrite <- Hm. field. lra.
Qed.

Lemma X7_trinomial_risk_neutral_witness :
  exists q,
    TrinOption.lattice_params testOp = inr q
    /\ TrinOption.p_up q * TrinOption.up q + TrinOption.p_mid q * 1
       + TrinOption.p_down q * (1 / TrinOption.up q)
       = exp (rfr testOp * tstep testOp / 365).
Proof.
  destruct (tri_lattice_params_total testOp
              (sample_tstep_pos 200 eq_refl) sample_vola_nonzero) as [q Hq].
  exists q. split; [exact Hq |].
  apply (X7_trinomial_risk_neutral testOp q Hq).
Defined.

(** ** Degenerate contracts *)

Lemma high_p_degenerate (r v ts : R) :
  0 <= ts -> v * sqrt (ts / 365) = 0 ->
  high_p r v ts = inl ZeroDivisionError.
Proof.
  intros Hts Hz. unfold high_p, high_mult.
  rewrite py_sqrt_nonneg by lra; simpl.
  rewrite Hz, exp_0.
  rewrite py_div_nonzero by lra; simpl.
  replace (1 - 1 / 1) with 0 by field.
  now rewrite py_div_zero.
Qed.

Lemma tri_high_p_degenerate (r v ts : R) :
  0 <= ts -> v * sqrt (ts / 365 / 2) = 0 ->
  tri_high_p r v ts = inl ZeroDivisionError.
Proof.
  intros Hts Hz. unfold tri_high_p.
  rewrite py_sqrt_nonneg by lra; simpl.
  rewrite Hz, Ropp_0, exp_0.
  replace (1 - 1) with 0 by ring.
  now rewrite py_div_zero.
Qed.

(** X8.  Without volatility or without time there is no lattice: when the
    time step is not negative and the volatility or the time step is 0,
    both pricers fail with [ZeroDivisionError], whatever the contract type,
    since the up and down multipliers coincide. *)
Theorem X8_zero_volatility_fails (o : Option) :
  0 <= tstep o ->
  vola o = 0 \/ tstep o = 0 ->
  BinOption.pricetree o = inl ZeroDivisionError
  /\ BinOption.value o = inl ZeroDivisionError
  /\ TrinOption.pricetree o = inl ZeroDivisionError
  /\ TrinOption.value o = inl ZeroDivisionError.
Proof.
  intros Hts Hz.
  assert (Hb : vola o * sqrt (tstep o / 365) = 0).
  { destruct Hz as [-> | ->]; [ring |].
    replace (0 / 365) with 0 by field. rewrite sqrt_0; ring. }
  assert (Ht : vola o * sqrt (tstep o / 365 / 2) = 0).
  { destruct Hz as [-> | ->]; [ring |].
    replace (0 / 365 / 2) with 0 by field. rewrite sqrt_0; ring. }
  assert (Hbp : BinOption.pricetree o = inl ZeroDivisionError).
  { unfold BinOption.pricetree, BinOption.lattice_params.
    rewrite high_mult_total by exact Hts; simpl.
    now rewrite high_p_degenerate. }
  assert (Htp : TrinOption.pricetree o = inl ZeroDivisionError).
  { unfold TrinOption.pricetree, TrinOption.lattice_params.
    rewrite tri_high_mult_total by exact Hts; simpl.
    now rewrite tri_high_p_degenerate. }
  unfold BinOption.value, TrinOption.value. rewrite Hbp, Htp. auto.
Qed.

Lemma X8_zero_volatility_fails_witness :
  BinOption.value flatOp = inl ZeroDivisionError
  /\ TrinOption.value flatOp = inl ZeroDivisionError.
Proof.
  destruct (X8_zero_volatility_fails flatOp) as [_ [Hb [_ Ht]]].
  - pose proof (sample_tstep_pos 3 eq_refl). simpl; lra.
  - left; reflexivity.
  - split; [exact Hb | exact Ht].
Defined.

Lemma tstep_neg_days (d p : Z) : (d < 0)%Z -> (0 < p)%Z -> IZR d / IZR p < 0.
Proof.
  intros Hd Hp.
  apply (IZR_lt d 0) in Hd. apply (IZR_lt 0 p) in Hp.
  unfold Rdiv.
  assert (0 < / IZR p) by (apply Rinv_0_lt_compat; exact Hp).
  nra.
Qed.

Lemma pricers_zero_tstep (o : Option) :
  tstep o = 0 ->
  BinOption.value o = inl ZeroDivisionError
  /\ TrinOption.value o = inl ZeroDivisionError.
Proof.
  intros Hz.
  unfold BinOption.value, BinOption.pricetree, BinOption.lattice_params,
    TrinOption.value, TrinOption.pricetree, TrinOption.lattice_params.
  rewrite high_mult_total, tri_high_mult_total by lra; simpl.
  rewrite high_p_degenerate, tri_high_p_degenerate; [auto | lra | | lra |].
  - rewrite Hz. replace (0 / 365 / 2) with 0 by field. rewrite sqrt_0; ring.
  - rewrite Hz. replace (0 / 365) with 0 by field. rewrite sqrt_0; ring.
Qed.

(** X9.  Expiry dates are not checked by the constructor.  With a positive
    period count, a contract whose expiry date is before its valuation date
    is constructed, and both pricers then fail with the [ValueError] of the
    square root of a negative time step; a contract that expires on its
    valuation date is constructed too, and both pricers fail with
    [ZeroDivisionError]. *)
Theorem X9_expiry_not_after_valuation (info : Info) :
  (0 < init_periods info)%Z ->
  (info_expi info <= info_today info)%Z ->
  exists o,
    Option_init info = inr o
    /\ ((info_expi info < info_today info)%Z ->
        BinOption.value o = inl ValueError
        /\ TrinOption.value o = inl ValueError)
    /\ (info_expi info = info_today info ->
        BinOption.value o = inl ZeroDivisionError
        /\ TrinOption.value o = inl ZeroDivisionError).
Proof.
  intros HP Hdate.
  eexists. split; [apply Option_init_nonzero; lia |].
  split.
  - intros Hlt.
    assert (Hts : IZR (info_expi info - info_today info)
                  / IZR (init_periods info) < 0)
      by (apply tstep_neg_days; lia).
    split.
    + now apply bin_pricetree_negative_tstep.
    + now apply tri_pricetree_negative_tstep.
  - intros Heq.
    assert (Hts : IZR (info_expi info - info_today info)
                  / IZR (init_periods info) = 0).
    { rewrite Heq, Z.sub_diag. unfold Rdiv; apply Rmult_0_l. }
    now apply pricers_zero_tstep.
Qed.

Lemma X9_expiry_not_after_valuation_witness :
  exists o,
    Option_init expiredInfo = inr o
    /\ BinOption.value o = inl ValueError
    /\ TrinOption.value o = inl ValueError.
Proof.
  destruct (X9_expiry_not_after_valuation expiredInfo)
    as [o [Ho [Hlt _]]]; [vm_compute; reflexivity | vm_compute; discriminate |].
  exists o. split; [exact Ho |].
  apply Hlt. vm_compute; reflexivity.
Defined.

Lemma xrange_down_negative_empty (hi : Z) : (hi < 0)%Z -> xrange_down hi = [].
Proof.
  intros Hhi; unfold xrange_down.
  now replace (Z.to_nat (hi + 1)) with O by lia.
Qed.

Lemma py_getitem_repeat_zero (n : nat) :
  py_getitem (repeat 0 n) 0
  = match n with
    | O => inl IndexError
    | S _ => inr 0
    end.
Proof. destruct n; reflexivity. Qed.

(** X10.  A negative period count skips the sweep.  When the lattice
    parameters are computed (the time step [days / periods] is then not
    negative, so the expiry date is not after the valuation date), the outer
    loop has no iteration and [pricetree()] returns the buffer of zeros as
    it was allocated, for any contract type, known or not.  [value()] then
    returns 0 when the buffer is not empty (binomial: [periods <= -3];
    trinomial: [periods <= -2]) and fails with [IndexError] when it is
    empty. *)
Theorem X10_negative_periods_skip_sweep (o : Option) :
  (periods o < 0)%Z ->
  (forall q, BinOption.lattice_params o = inr q ->
     BinOption.pricetree o
     = inr (repeat 0 (Z.to_nat (BinOption.size (periods o))))
     /\ ((periods o <= -3)%Z -> BinOption.value o = inr 0)
     /\ ((-3 < periods o)%Z -> BinOption.value o = inl IndexError))
  /\ (forall q, TrinOption.lattice_params o = inr q ->
        TrinOption.pricetree o
        = inr (repeat 0 (Z.to_nat (TrinOption.size (periods o))))
        /\ ((periods o <= -2)%Z -> TrinOption.value o = inr 0)
        /\ ((periods o = -1)%Z -> TrinOption.value o = inl IndexError)).
Proof.
  intros HP. split; intros q Hq.
  - assert (Ht : BinOption.pricetree o
                 = inr (repeat 0 (Z.to_nat (BinOption.size (periods o))))).
    { unfold BinOption.pricetree, BinOption.sweep.
      rewrite Hq; simpl.
      now rewrite xrange_down_negative_empty by exact HP. }
    split; [exact Ht |].
    unfold BinOption.value. rewrite Ht; simpl.
    rewrite py_getitem_repeat_zero.
    pose proof (bin_firstNode_double (periods o + 1)) as Hd.
    rewrite <- bin_size_firstNode in Hd.
    split; intros Hp.
    + destruct (Z.to_nat (BinOption.size (periods o))) eqn:E;
        [nia | reflexivity].
    + destruct (Z.to_nat (BinOption.size (periods o))) eqn:E;
        [reflexivity | nia].
  - assert (Ht : TrinOption.pricetree o
                 = inr (repeat 0 (Z.to_nat (TrinOption.size (periods o))))).
    { unfold TrinOption.pricetree, TrinOption.sweep.
      rewrite Hq; simpl.
      now rewrite xrange_down_negative_empty by exact HP. }
    split; [exact Ht |].
    unfold TrinOption.value. rewrite Ht; simpl.
    rewrite py_getitem_repeat_zero.
    unfold TrinOption.size.
    split; intros Hp.
    + destruct (Z.to_nat ((periods o + 1) ^ 2)) eqn:E; [nia | reflexivity].
    + rewrite Hp. reflexivity.
Qed.

Lemma X10_negative_periods_skip_sweep_witness :
  BinOption.value backdatedOp = inr 0
  /\ TrinOption.value backdatedOp = inr 0.
Proof.
  destruct (X10_negative_periods_skip_sweep backdatedOp) as [Hb Ht];
    [reflexivity |].
  assert (Hts : 0 < tstep backdatedOp).
  { simpl. replace (IZR (736713 - 736833) / IZR (-3)) with 40; [lra |].
    replace (736713 - 736833)%Z with (-120)%Z by reflexivity. field. }
  destruct (bin_lattice_params_total backdatedOp Hts sample_vola_nonzero)
    as [qb Hqb].
  destruct (tri_lattice_params_total backdatedOp Hts sample_vola_nonzero)
    as [qt Hqt].
  destruct (Hb qb Hqb) as [_ [Hb0 _]].
  destruct (Ht qt Hqt) as [_ [Ht0 _]].
  split; [apply Hb0 | apply Ht0]; simpl; lia.
Defined.

(** ** The escrow along the sweep *)

Lemma escrow_at_day (o : Option) (k : nat) :
  day (escrow_at o k)
  = (midnight (expi o) - Z.of_nat k * timedelta_days (tstep o))%Z.
Proof.
  unfold escrow_at. induction k as [| k IH].
  - simpl. lia.
  - simpl Nat.iter. rewrite escrow_update_day, IH. lia.
Qed.

(** [periods] rounded steps miss the whole span by at most half a
    microsecond each. *)
Lemma rounded_span (d p : Z) :
  (0 < p)%Z ->
  (- p <= 2 * (p * timedelta_days (IZR d / IZR p) - d * us_per_day) <= p)%Z.
Proof.
  intros Hp.
  pose proof (timedelta_days_near (IZR d / IZR p)) as [H1 H2].
  set (td := timedelta_days (IZR d / IZR p)) in *.
  assert (Hp' : 0 < IZR p) by (now apply (IZR_lt 0)).
  assert (Hx : IZR d / IZR p * IZR us_per_day * IZR p
               = IZR d * IZR us_per_day) by (field; lra).
  assert (Hlo : IZR (- p) <= IZR (2 * (p * td - d * us_per_day))).
  { rewrite opp_IZR, mult_IZR, minus_IZR, !mult_IZR. nra. }
  assert (Hhi : IZR (2 * (p * td - d * us_per_day)) <= IZR p).
  { rewrite mult_IZR, minus_IZR, !mult_IZR. nra. }
  apply le_IZR in Hlo, Hhi. lia.
Qed.

(** X11.  The dates of the sweep.  After [k] updates the running date is
    the expiry date minus [k] times the time step rounded to whole
    microseconds.  For a constructed contract with a positive period count
    the date reached when the root (step 0) is processed, after [periods]
    updates, is within [periods / 2] microseconds of the valuation date; it
    is the valuation date itself when the time step is a whole number of
    microseconds, that is when [periods] divides the span in
    microseconds. *)
Theorem X11_sweep_dates (info : Info) (o : Option) :
  Option_init info = inr o ->
  (forall k e, escrow_after o k = inr e ->
     day e = (midnight (expi o) - Z.of_nat k * timedelta_days (tstep o))%Z)
  /\ ((0 < periods o)%Z ->
      exists e,
        escrow_after o (Z.to_nat (periods o)) = inr e
        /\ (2 * Z.abs (day e - midnight (today o)) <= periods o)%Z
        /\ ((periods o | (expi o - today o) * us_per_day)%Z ->
            day e = midnight (today o))).
Proof.
  intros Hinit. split.
  - intros k e He.
    destruct (escrow_after_iter o k) as [Hrun _].
    rewrite Hrun in He; injection He as <-. apply escrow_at_day.
  - intros HP. exists (escrow_at o (Z.to_nat (periods o))).
    split; [apply escrow_after_iter |].
    rewrite escrow_at_day, Z2Nat.id by lia.
    apply Option_init_inr in Hinit as [Hnz ->].
    cbn [periods expi today tstep] in *.
    unfold midnight. split.
    + pose proof (rounded_span (info_expi info - info_today info)
                    (init_periods info) HP).
      lia.
    + intros [q Hq].
      rewrite (timedelta_days_whole _ _ q Hnz) by lia.
      lia.
Qed.

Lemma X11_sweep_dates_witness :
  (exists e,
     escrow_after testOp (Z.to_nat (periods testOp)) = inr e
     /\ day e = midnight (today testOp))
  /\ exists o e,
       Option_init seventhsInfo = inr o
       /\ escrow_after o (Z.to_nat (periods o)) = inr e
       /\ (2 * Z.abs (day e - midnight (today o)) <= periods o)%Z.
Proof.
  split.
  - assert (Hinit : Option_init testInfo = inr testOp).
    { rewrite Option_init_nonzero by (vm_compute; discriminate).
      reflexivity. }
    destruct (X11_sweep_dates testInfo testOp Hinit) as [_ H].
    destruct H as [e [He [_ Hexact]]]; [simpl; lia |].
    exists e. split; [exact He |].
    apply Hexact. exists 51840000000%Z. reflexivity.
  - destruct (Option_init seventhsInfo) as [err | o] eqn:Hinit.
    + rewrite Option_init_nonzero in Hinit by (vm_compute; discriminate).
      discriminate.
    + destruct (X11_sweep_dates seventhsInfo o Hinit) as [_ H].
      pose proof (Option_init_inr _ _ Hinit) as [_ Ho].
      destruct H as [e [He [Hnear _]]];
        [rewrite Ho; cbn [periods]; vm_compute; reflexivity |].
      exists o, e. auto.
Defined.

Lemma escrow_at_cursor (o : Option) (k : nat) :
  (Z.of_nat (length (divs o)) - 1 - Z.of_nat k
   <= last_div (escrow_at o k) <= Z.of_nat (length (divs o)) - 1)%Z.
Proof.
  unfold escrow_at. induction k as [| k IH].
  - simpl. lia.
  - simpl Nat.iter.
    pose proof (escrow_update_cursor o
                  (Nat.iter k (Spec.escrow_update o) (escrow_init o)))
      as [Hb _].
    lia.
Qed.

(** X12.  Dividends left out.  After [k] updates at most [k] dividends are
    absorbed.  So when a contract has more dividends than periods, the
    cursor still points at a dividend when the root is processed: that
    dividend was subtracted from the starting price and is never added
    back into the escrow. *)
Theorem X12_more_dividends_than_periods (o : Option) :
  (forall k e, escrow_after o k = inr e ->
     (Z.of_nat (length (divs o)) - 1 - Z.of_nat k
      <= last_div e <= Z.of_nat (length (divs o)) - 1)%Z)
  /\ ((0 <= periods o < Z.of_nat (length (divs o)))%Z ->
      exists e d,
        escrow_after o (Z.to_nat (periods o)) = inr e
        /\ (0 <= last_div e)%Z
        /\ nth_error (divs o) (Z.to_nat (last_div e)) = Some d).
Proof.
  split.
  - intros k e He.
    destruct (escrow_after_iter o k) as [Hrun _].
    rewrite Hrun in He; injection He as <-. apply escrow_at_cursor.
  - intros HP.
    destruct (escrow_after_iter o (Z.to_nat (periods o))) as [Hrun Hok].
    pose proof (escrow_at_cursor o (Z.to_nat (periods o))) as Hc.
    rewrite Z2Nat.id in Hc by lia.
    set (e := escrow_at o (Z.to_nat (periods o))) in *.
    destruct (nth_error (divs o) (Z.to_nat (last_div e))) as [d |] eqn:E.
    + exists e, d. split; [exact Hrun |]. split; [lia | exact E].
    + apply nth_error_None in E. lia.
Qed.

Lemma X12_more_dividends_than_periods_witness :
  exists e d,
    escrow_after
      {| today := 736713; type := "call"; price := 50; strike := 50;
         vola := 4 / 10; expi := 736833; rfr := 9 / 100; divs := testDivs;
         periods := 1; tstep := IZR (736833 - 736713) / IZR 1 |} 1
    = inr e
    /\ (0 <= last_div e)%Z
    /\ nth_error testDivs (Z.to_nat (last_div e)) = Some d.
Proof.
  destruct (X12_more_dividends_than_periods
              {| today := 736713; type := "call"; price := 50; strike := 50;
                 vola := 4 / 10; expi := 736833; rfr := 9 / 100;
                 divs := testDivs; periods := 1;
                 tstep := IZR (736833 - 736713) / IZR 1 |}) as [_ H].
  apply H. simpl; lia.
Defined.

(** ** Contracts without dividends *)

Lemma escrow_at_no_dividends (o : Option) (k : nat) :
  divs o = [] -> cur_div_val (escrow_at o k) = 0.
Proof.
  intros Hd. unfold escrow_at. induction k as [| k IH]; [reflexivity |].
  simpl Nat.iter. set (e := Nat.iter k _ _) in *.
  unfold Spec.escrow_update, Spec.escrow_update_by. rewrite Hd.
  destruct (0 <=? last_div e)%Z; rewrite ?nth_error_nil;
    cbn [cur_div_val fst snd]; rewrite IH; apply discount_zero_amount.
Qed.

Lemma max3_ge_exercise (c e : R) : e <= Spec.max3 c e 0.
Proof.
  unfold Spec.max3.
  apply Rle_trans with (Rmax c e); [apply Rmax_r | apply Rmax_l].
Qed.

Lemma root_price_no_dividends (o : Option) (u : R) :
  divs o = [] -> u <> 0 ->
  Spec.adjustedStartPrice o * powerRZ u 0
  + cur_div_val (escrow_at o (Z.to_nat (periods o - 0)))
  = price o.
Proof.
  intros Hd Hu.
  rewrite escrow_at_no_dividends by exact Hd.
  unfold Spec.adjustedStartPrice, Spec.initialDividendPV.
  rewrite Hd; simpl. ring.
Qed.

(** X13.  Early exercise at the root.  For a contract of type call or put
    without dividends and with a positive period count, the value either
    pricer returns is at least the immediate exercise value of the spot
    price, [price - strike] for a call and [strike - price] for a put. *)
Theorem X13_value_at_least_intrinsic (o : Option) :
  type o = "call"%string \/ type o = "put"%string ->
  (0 < periods o)%Z ->
  divs o = [] ->
  (forall v, BinOption.value o = inr v ->
     Spec.exerciseValue (type o) (price o) (strike o) <= v)
  /\ (forall v, TrinOption.value o = inr v ->
        Spec.exerciseValue (type o) (price o) (strike o) <= v).
Proof.
  intros Hty HP Hd. split; intros v Hv.
  - assert (Ht : exists t, BinOption.pricetree o = inr t).
    { unfold BinOption.value in Hv.
      apply bind_inr in Hv as [t [Ht _]]; eauto. }
    destruct Ht as [t Ht].
    destruct (bin_pricetree_inr_params o t Ht) as [q Hq].
    destruct (bin_pricetree_correct o q Hty ltac:(lia) Hq)
      as [t' [Hrun [Hlen Hval]]].
    destruct (bin_value_root o q Hty ltac:(lia) Hq) as [t'' [Hrun' [Hv' _]]].
    rewrite Hrun in Hrun'; injection Hrun' as <-.
    rewrite Hv' in Hv; injection Hv as <-.
    specialize (Hval 0%Z 0%Z ltac:(lia) ltac:(lia)).
    rewrite bin_firstNode_zero in Hval; simpl Z.add in Hval.
    rewrite Hval. unfold Spec.bin_nodeValue.
    change (2 * 0 - 0)%Z with 0%Z.
    rewrite (root_price_no_dividends o _ Hd (bin_up_nonzero o q Hq)).
    apply max3_ge_exercise.
  - assert (Ht : exists t, TrinOption.pricetree o = inr t).
    { unfold TrinOption.value in Hv.
      apply bind_inr in Hv as [t [Ht _]]; eauto. }
    destruct Ht as [t Ht].
    destruct (tri_pricetree_inr_params o t Ht) as [q Hq].
    destruct (tri_pricetree_correct o q Hty ltac:(lia) Hq)
      as [t' [Hrun [Hlen Hval]]].
    destruct (tri_value_root o q Hty ltac:(lia) Hq) as [t'' [Hrun' [Hv' _]]].
    rewrite Hrun in Hrun'; injection Hrun' as <-.
    rewrite Hv' in Hv; injection Hv as <-.
    specialize (Hval 0%Z 0%Z ltac:(lia) ltac:(lia)).
    change (TrinOption.firstNode 0) with 0%Z in Hval; simpl Z.add in Hval.
    rewrite Hval. unfold Spec.tri_nodeValue.
    change (0 - 0)%Z with 0%Z.
    rewrite (root_price_no_dividends o _ Hd (tri_up_nonzero o q Hq)).
    apply max3_ge_exercise.
Qed.

Lemma X13_value_at_least_intrinsic_witness :
  exists v,
    BinOption.value plainOp = inr v
    /\ Spec.exerciseValue (type plainOp) (price plainOp) (strike plainOp)
       <= v.
Proof.
  destruct (bin_lattice_params_total plainOp
              (sample_tstep_pos 3 eq_refl) sample_vola_nonzero) as [q Hq].
  destruct (bin_value_root plainOp q (or_introl eq_refl)
              ltac:(simpl; lia) Hq) as [t [_ [Hv _]]].
  exists (peek t 0). split; [exact Hv |].
  destruct (X13_value_at_least_intrinsic plainOp) as [Hb _];
    [left; reflexivity | simpl; lia | reflexivity |].
  apply Hb. exact Hv.
Defined.

(** ** The constructor on its own output *)

Lemma sort_by_date_sorted_id (l : list dividend) :
  StronglySorted by_date l -> sort_by_date l = l.
Proof.
  induction 1 as [| x xs Hs IH Hx]; [reflexivity |].
  simpl. rewrite IH.
  destruct xs as [| y ys]; [reflexivity |].
  simpl. inversion Hx as [| ? ? Hxy _]; subst.
  unfold by_date in Hxy.
  destruct (Z.leb_spec (fst x) (fst y)); [reflexivity | lia].
Qed.

Lemma filter_all_true {A : Type} (f : A -> bool) (l : list A) :
  (forall x, In x l -> f x = true) -> filter f l = l.
Proof.
  induction l as [| x xs IH]; intros H; [reflexivity |].
  simpl. rewrite (H x (or_introl eq_refl)).
  f_equal. apply IH. intros y Hy; apply H; now right.
Qed.

(** X14.  The constructor is idempotent on the dividends: given the [divs]
    of a constructed contract, with the same valuation date, it keeps
    the list as it is, nothing dropped and nothing moved. *)
Theorem X14_constructor_keeps_its_dividends (info info' : Info) (o : Option) :
  Option_init info = inr o ->
  info_divs info' = Some (divs o) ->
  info_today info' = today o ->
  init_divs info' = divs o
  /\ forall o', Option_init info' = inr o' -> divs o' = divs o.
Proof.
  intros Hinit Hd Ht.
  assert (Heq : init_divs info' = divs o).
  { apply Option_init_inr in Hinit as [_ Ho].
    unfold init_divs at 1. rewrite Hd, Ht.
    rewrite Ho; simpl.
    rewrite filter_all_true.
    - apply sort_by_date_sorted_id, init_divs_sorted.
    - intros d Hin.
      apply (Permutation_in _ (init_divs_perm info)) in Hin.
      now apply filter_In in Hin as [_ Hafter]. }
  split; [exact Heq |].
  intros o' Ho'. apply Option_init_inr in Ho' as [_ ->]. exact Heq.
Qed.

Lemma X14_constructor_keeps_its_dividends_witness :
  init_divs
    {| info_today := 736713; info_type := "put"; info_price := 50;
       info_strike := 50; info_vola := 4 / 10; info_expi := 736833;
       info_rfr := 9 / 100; info_divs := Some (divs testOp);
       info_periods := None |}
  = divs testOp.
Proof.
  assert (Hinit : Option_init testInfo = inr testOp).
  { rewrite Option_init_nonzero by (vm_compute; discriminate). reflexivity. }
  apply (X14_constructor_keeps_its_dividends testInfo _ testOp Hinit);
    reflexivity.
Defined.

(** X15.  The sort of the constructor is stable: the retained dividends of
    one date are in the contract in the order of the input. *)
Theorem X15_same_date_dividends_keep_order (info : Info) (o : Option) :
  Option_init info = inr o ->
  forall date : Z,
    filter (fun d => (fst d =? date)%Z) (divs o)
    = filter (fun d => (fst d =? date)%Z)
        (filter (after_today (info_today info)) (input_divs info)).
Proof.
  intros Hinit date.
  apply Option_init_inr in Hinit as [_ ->]; simpl.
  unfold init_divs, input_divs.
  destruct (info_divs info) as [ds |]; [| reflexivity].
  apply sort_by_date_stable.
Qed.

Lemma X15_same_date_dividends_keep_order_witness :
  exists o,
    Option_init testInfo = inr o
    /\ filter (fun d => (fst d =? 736803)%Z) (divs o) = [(736803%Z, 2)].
Proof.
  exists testOp.
  assert (Hinit : Option_init testInfo = inr testOp).
  { rewrite Option_init_nonzero by (vm_compute; discriminate). reflexivity. }
  split; [exact Hinit |].
  rewrite (X15_same_date_dividends_keep_order testInfo testOp Hinit).
  reflexivity.
Defined.

(** ** Comparing two contracts on one lattice *)

Lemma max3_monotone (c1 e1 c2 e2 : R) :
  c2 <= c1 -> e2 <= e1 -> Spec.max3 c2 e2 0 <= Spec.max3 c1 e1 0.
Proof.
  intros Hc He. unfold Spec.max3.
  apply Rmax_lub; [apply Rmax_lub |].
  - apply Rle_trans with (Rmax c1 e1); [| apply Rmax_l].
    apply Rle_trans with c1; [exact Hc | apply Rmax_l].
  - apply Rle_trans with (Rmax c1 e1); [| apply Rmax_l].
    apply Rle_trans with e1; [exact He | apply Rmax_r].
  - apply Rmax_r.
Qed.

Lemma discount_monotone (a b days r : R) :
  a <= b -> discount a days r <= discount b days r.
Proof.
  intros Hab. unfold discount.
  pose proof (exp_pos (- r * (days / 365))). nra.
Qed.

(** Two binomial buffers over the same lattice and escrow: when every node
    of the first contract has at least the exercise value of the second
    one and the probabilities are not negative, every node of the first
    buffer has at least the value of the second. *)
Lemma bin_lattice_monotone (o1 o2 : Option) (u pu pd : R) (cdv : Z -> R)
    (t1 t2 : list R) :
  periods o2 = periods o1 -> tstep o2 = tstep o1 -> rfr o2 = rfr o1 ->
  0 <= pu -> 0 <= pd ->
  (forall s i : Z,
     Spec.exerciseValue (type o2)
       (Spec.adjustedStartPrice o2 * powerRZ u (2 * i - s) + cdv s)
       (strike o2)
     <= Spec.exerciseValue (type o1)
          (Spec.adjustedStartPrice o1 * powerRZ u (2 * i - s) + cdv s)
          (strike o1)) ->
  binomial_backward_induction o1 u pu pd cdv t1 ->
  binomial_backward_induction o2 u pu pd cdv t2 ->
  forall s i : Z, (0 <= i <= s)%Z -> (s <= periods o1)%Z ->
    peek t2 (s * (s + 1) / 2 + i) <= peek t1 (s * (s + 1) / 2 + i).
Proof.
  intros HP Hts Hr Hpu Hpd Hex H1 H2.
  assert (Hn : forall (n : nat) (s i : Z),
             s = (periods o1 - Z.of_nat n)%Z ->
             (0 <= i <= s)%Z ->
             peek t2 (s * (s + 1) / 2 + i) <= peek t1 (s * (s + 1) / 2 + i)).
  { induction n as [| n IH]; intros s i Hs Hi.
    - rewrite (H1 s i Hi ltac:(lia)), (H2 s i Hi ltac:(lia)).
      unfold Spec.bin_nodeValue. rewrite HP.
      destruct (Z.eqb_spec s (periods o1)); [| lia].
      apply max3_monotone; [lra | apply Hex].
    - rewrite (H1 s i Hi ltac:(lia)), (H2 s i Hi ltac:(lia)).
      unfold Spec.bin_nodeValue. rewrite HP, Hts, Hr.
      destruct (Z.eqb_spec s (periods o1)); [lia |].
      apply max3_monotone; [| apply Hex].
      apply discount_monotone.
      pose proof (IH (s + 1)%Z i ltac:(lia) ltac:(lia)) as Hc0.
      pose proof (IH (s + 1)%Z (i + 1)%Z ltac:(lia) ltac:(lia)) as Hc1.
      replace ((s + 1) * (s + 1 + 1))%Z with ((s + 1) * (s + 2))%Z in Hc0, Hc1
        by ring.
      rewrite Z.add_assoc in Hc1.
      nra. }
  intros s i Hi Hs.
  apply (Hn (Z.to_nat (periods o1 - s))); [lia | exact Hi].
Qed.

Lemma tri_lattice_monotone (o1 o2 : Option) (u pu pm pd : R) (cdv : Z -> R)
    (t1 t2 : list R) :
  periods o2 = periods o1 -> tstep o2 = tstep o1 -> rfr o2 = rfr o1 ->
  0 <= pu -> 0 <= pm -> 0 <= pd ->
  (forall s i : Z,
     Spec.exerciseValue (type o2)
       (Spec.adjustedStartPrice o2 * powerRZ u (i - s) + cdv s)
       (strike o2)
     <= Spec.exerciseValue (type o1)
          (Spec.adjustedStartPrice o1 * powerRZ u (i - s) + cdv s)
          (strike o1)) ->
  trinomial_backward_induction o1 u pu pm pd cdv t1 ->
  trinomial_backward_induction o2 u pu pm pd cdv t2 ->
  forall s i : Z, (0 <= i <= 2 * s)%Z -> (s <= periods o1)%Z ->
    peek t2 (s ^ 2 + i) <= peek t1 (s ^ 2 + i).
Proof.
  intros HP Hts Hr Hpu Hpm Hpd Hex H1 H2.
  assert (Hn : forall (n : nat) (s i : Z),
             s = (periods o1 - Z.of_nat n)%Z ->
             (0 <= i <= 2 * s)%Z ->
             peek t2 (s ^ 2 + i) <= peek t1 (s ^ 2 + i)).
  { induction n as [| n IH]; intros s i Hs Hi.
    - rewrite (H1 s i Hi ltac:(lia)), (H2 s i Hi ltac:(lia)).
      unfold Spec.tri_nodeValue. rewrite HP.
      destruct (Z.eqb_spec s (periods o1)); [| lia].
      apply max3_monotone; [lra | apply Hex].
    - rewrite (H1 s i Hi ltac:(lia)), (H2 s i Hi ltac:(lia)).
      unfold Spec.tri_nodeValue. rewrite HP, Hts, Hr.
      destruct (Z.eqb_spec s (periods o1)); [lia |].
      apply max3_monotone; [| apply Hex].
      apply discount_monotone.
      pose proof (IH (s + 1)%Z i ltac:(lia) ltac:(lia)) as Hc0.
      pose proof (IH (s + 1)%Z (i + 1)%Z ltac:(lia) ltac:(lia)) as Hc1.
      pose proof (IH (s + 1)%Z (i + 2)%Z ltac:(lia) ltac:(lia)) as Hc2.
      rewrite Z.add_assoc in Hc1, Hc2.
      nra. }
  intros s i Hi Hs.
  apply (Hn (Z.to_nat (periods o1 - s))); [lia | exact Hi].
Qed.

Lemma bin_values_ordered (o1 o2 : Option) (q : BinOption.params) :
  type o1 = "call"%string \/ type o1 = "put"%string ->
  type o2 = "call"%string \/ type o2 = "put"%string ->
  (0 < periods o1)%Z ->
  periods o2 = periods o1 -> tstep o2 = tstep o1 -> rfr o2 = rfr o1 ->
  (forall k, escrow_at o2 k = escrow_at o1 k) ->
  BinOption.lattice_params o1 = inr q ->
  BinOption.lattice_params o2 = inr q ->
  0 <= BinOption.p_up q -> 0 <= BinOption.p_down q ->
  (forall (x : Z) (c : R),
     Spec.exerciseValue (type o2)
       (Spec.adjustedStartPrice o2 * powerRZ (BinOption.up q) x + c)
       (strike o2)
     <= Spec.exerciseValue (type o1)
          (Spec.adjustedStartPrice o1 * powerRZ (BinOption.up q) x + c)
          (strike o1)) ->
  exists v1 v2,
    BinOption.value o1 = inr v1 /\ BinOption.value o2 = inr v2 /\ v2 <= v1.
Proof.
  intros Hty1 Hty2 HP HP2 Hts Hr Hesc Hq1 Hq2 Hpu Hpd Hex.
  destruct (bin_pricetree_correct o1 q Hty1 ltac:(lia) Hq1)
    as [t1 [Hrun1 [_ Hval1]]].
  destruct (bin_pricetree_correct o2 q Hty2 ltac:(lia) Hq2)
    as [t2 [Hrun2 [_ Hval2]]].
  destruct (bin_value_root o1 q Hty1 ltac:(lia) Hq1) as [t1' [Hr1 [Hv1 _]]].
  destruct (bin_value_root o2 q Hty2 ltac:(lia) Hq2) as [t2' [Hr2 [Hv2 _]]].
  rewrite Hrun1 in Hr1; injection Hr1 as <-.
  rewrite Hrun2 in Hr2; injection Hr2 as <-.
  exists (peek t1 0), (peek t2 0).
  split; [exact Hv1 |]. split; [exact Hv2 |].
  apply (bin_lattice_monotone o1 o2 (BinOption.up q) (BinOption.p_up q)
           (BinOption.p_down q)
           (fun s => cur_div_val (escrow_at o1 (Z.to_nat (periods o1 - s))))
           t1 t2 HP2 Hts Hr Hpu Hpd) with (s := 0%Z) (i := 0%Z);
    try lia.
  - intros s i; apply Hex.
  - intros s i Hi Hs. exact (Hval1 s i ltac:(lia) ltac:(lia)).
  - intros s i Hi Hs.
    pose proof (Hval2 s i ltac:(lia) ltac:(lia)) as H.
    rewrite Hesc, HP2 in H. exact H.
Qed.

Lemma tri_values_ordered (o1 o2 : Option) (q : TrinOption.params) :
  type o1 = "call"%string \/ type o1 = "put"%string ->
  type o2 = "call"%string \/ type o2 = "put"%string ->
  (0 < periods o1)%Z ->
  periods o2 = periods o1 -> tstep o2 = tstep o1 -> rfr o2 = rfr o1 ->
  (forall k, escrow_at o2 k = escrow_at o1 k) ->
  TrinOption.lattice_params o1 = inr q ->
  TrinOption.lattice_params o2 = inr q ->
  0 <= TrinOption.p_mid q ->
  (forall (x : Z) (c : R),
     Spec.exerciseValue (type o2)
       (Spec.adjustedStartPrice o2 * powerRZ (TrinOption.up q) x + c)
       (strike o2)
     <= Spec.exerciseValue (type o1)
          (Spec.adjustedStartPrice o1 * powerRZ (TrinOption.up q) x + c)
          (strike o1)) ->
  exists v1 v2,
    TrinOption.value o1 = inr v1 /\ TrinOption.value o2 = inr v2 /\ v2 <= v1.
Proof.
  intros Hty1 Hty2 HP HP2 Hts Hr Hesc Hq1 Hq2 Hpm Hex.
  destruct (tri_lattice_params_inr o1 q Hq1) as [_ [Hpu [Hpd _]]].
  assert (Hpu0 : 0 <= TrinOption.p_up q)
    by (rewrite Hpu; unfold Spec.tri_pUp; apply pow2_ge_0).
  assert (Hpd0 : 0 <= TrinOption.p_down q)
    by (rewrite Hpd; unfold Spec.tri_pDown; apply pow2_ge_0).
  destruct (tri_pricetree_correct o1 q Hty1 ltac:(lia) Hq1)
    as [t1 [Hrun1 [_ Hval1]]].
  destruct (tri_pricetree_correct o2 q Hty2 ltac:(lia) Hq2)
    as [t2 [Hrun2 [_ Hval2]]].
  destruct (tri_value_root o1 q Hty1 ltac:(lia) Hq1) as [t1' [Hr1 [Hv1 _]]].
  destruct (tri_value_root o2 q Hty2 ltac:(lia) Hq2) as [t2' [Hr2 [Hv2 _]]].
  rewrite Hrun1 in Hr1; injection Hr1 as <-.
  rewrite Hrun2 in Hr2; injection Hr2 as <-.
  exists (peek t1 0), (peek t2 0).
  split; [exact Hv1 |]. split; [exact Hv2 |].
  apply (tri_lattice_monotone o1 o2 (TrinOption.up q) (TrinOption.p_up q)
           (TrinOption.p_mid q) (TrinOption.p_down q)
           (fun s => cur_div_val (escrow_at o1 (Z.to_nat (periods o1 - s))))
           t1 t2 HP2 Hts Hr Hpu0 Hpm Hpd0) with (s := 0%Z) (i := 0%Z);
    try lia.
  - intros s i; apply Hex.
  - intros s i Hi Hs. exact (Hval1 s i ltac:(lia) ltac:(lia)).
  - intros s i Hi Hs.
    pose proof (Hval2 s i ltac:(lia) ltac:(lia)) as H.
    rewrite Hesc, HP2 in H. exact H.
Qed.

Lemma adjustedStartPrice_with_strike (o : Option) (k : R) :
  Spec.adjustedStartPrice (with_strike o k) = Spec.adjustedStartPrice o.
Proof. reflexivity. Qed.

Lemma adjustedStartPrice_with_price (o : Option) (s : R) :
  Spec.adjustedStartPrice (with_price o s)
  = Spec.adjustedStartPrice o + (s - price o).
Proof.
  unfold Spec.adjustedStartPrice.
  change (Spec.initialDividendPV (with_price o s))
    with (Spec.initialDividendPV o).
  simpl. ring.
Qed.

(** X16.  The strike.  On a lattice whose probabilities are not negative
    (binomial: [0 <= p_up <= 1]; trinomial: [0 <= p_mid]), raising the
    strike of a contract does not raise the value of a call and does not
    lower the value of a put, in either pricer; both values are returned. *)
Theorem X16_value_monotone_in_strike (o : Option) (k : R) :
  type o = "call"%string \/ type o = "put"%string ->
  (0 < periods o)%Z ->
  strike o <= k ->
  (forall q, BinOption.lattice_params o = inr q ->
     0 <= BinOption.p_up q <= 1 ->
     exists v vk,
       BinOption.value o = inr v
       /\ BinOption.value (with_strike o k) = inr vk
       /\ (type o = "call"%string -> vk <= v)
       /\ (type o = "put"%string -> v <= vk))
  /\ (forall q, TrinOption.lattice_params o = inr q ->
        0 <= TrinOption.p_mid q ->
        exists v vk,
          TrinOption.value o = inr v
          /\ TrinOption.value (with_strike o k) = inr vk
          /\ (type o = "call"%string -> vk <= v)
          /\ (type o = "put"%string -> v <= vk)).
Proof.
  intros Hty HP Hk. split.
  - intros q Hq [Hp0 Hp1].
    assert (Hpd : 0 <= BinOption.p_down q).
    { destruct (bin_lattice_params_inr o q Hq) as [_ [Hpu ->]].
      unfold Spec.bin_pDown. rewrite <- Hpu. lra. }
    destruct Hty as [Hc | Hp].
    + destruct (bin_values_ordered o (with_strike o k) q) as [v [vk [Hv [Hvk Hle]]]];
        auto; try reflexivity.
      * intros x c. rewrite adjustedStartPrice_with_strike; simpl.
        rewrite Hc. unfold Spec.exerciseValue; simpl. lra.
      * exists v, vk. repeat split; auto.
        intros Hput; rewrite Hc in Hput; discriminate.
    + destruct (bin_values_ordered (with_strike o k) o q) as [vk [v [Hvk [Hv Hle]]]];
        auto; try reflexivity.
      * intros x c. rewrite adjustedStartPrice_with_strike; simpl.
        rewrite Hp. unfold Spec.exerciseValue; simpl. lra.
      * exists v, vk. repeat split; auto.
        intros Hcall; rewrite Hp in Hcall; discriminate.
  - intros q Hq Hpm.
    destruct Hty as [Hc | Hp].
    + destruct (tri_values_ordered o (with_strike o k) q) as [v [vk [Hv [Hvk Hle]]]];
        auto; try reflexivity.
      * intros x c. rewrite adjustedStartPrice_with_strike; simpl.
        rewrite Hc. unfold Spec.exerciseValue; simpl. lra.
      * exists v, vk. repeat split; auto.
        intros Hput; rewrite Hc in Hput; discriminate.
    + destruct (tri_values_ordered (with_strike o k) o q) as [vk [v [Hvk [Hv Hle]]]];
        auto; try reflexivity.
      * intros x c. rewrite adjustedStartPrice_with_strike; simpl.
        rewrite Hp. unfold Spec.exerciseValue; simpl. lra.
      * exists v, vk. repeat split; auto.
        intros Hcall; rewrite Hp in Hcall; discriminate.
Qed.

(** With a rate between 0 and [vola / sqrt(tstep/365)] the binomial
    probability is a probability. *)
Lemma bin_pUp_in_unit_interval (r v ts : R) :
  0 < ts -> 0 < v -> 0 <= r -> r * sqrt (ts / 365) <= v ->
  0 <= Spec.bin_pUp r v ts <= 1.
Proof.
  intros Hts Hv Hr Hrv.
  assert (Hs : 0 < sqrt (ts / 365)) by (apply sqrt_lt_R0; lra).
  assert (Hss : sqrt (ts / 365) * sqrt (ts / 365) = ts / 365)
    by (apply sqrt_sqrt; lra).
  unfold Spec.bin_pUp, Spec.bin_down, Spec.bin_up.
  set (s := sqrt (ts / 365)) in *.
  replace (r * ts / 365) with (r * s * s) by (rewrite Rmult_assoc, Hss; field).
  replace (1 / exp (v * s)) with (exp (- (v * s)))
    by (rewrite exp_Ropp; field; pose proof (exp_pos (v * s)); lra).
  assert (HD : exp (- (v * s)) < exp (v * s)) by (apply exp_increasing; nra).
  assert (HN : exp (- (v * s)) < exp (r * s * s))
    by (apply exp_increasing; nra).
  assert (HU : exp (r * s * s) <= exp (v * s)).
  { destruct (Req_dec (r * s * s) (v * s)) as [-> | Hne]; [lra |].
    left; apply exp_increasing; nra. }
  split.
  - apply Rle_mult_inv_pos; lra.
  - apply (Rmult_le_reg_r (exp (v * s) - exp (- (v * s)))); [lra |].
    unfold Rdiv. rewrite Rmult_assoc, Rinv_l by lra. lra.
Qed.

Lemma sample_rate_small (ts : R) :
  0 <= ts <= 365 -> 9 / 100 * sqrt (ts / 365) <= 4 / 10.
Proof.
  intros Hts.
  assert (sqrt (ts / 365) <= 1).
  { rewrite <- sqrt_1. apply sqrt_le_1_alt. lra. }
  pose proof (sqrt_pos (ts / 365)). nra.
Qed.

Lemma sample_bin_probability (p : Z) (o : Option) (q : BinOption.params) :
  (1 <= p)%Z ->
  rfr o = 9 / 100 -> vola o = 4 / 10 ->
  tstep o = IZR (736833 - 736713) / IZR p ->
  BinOption.lattice_params o = inr q ->
  0 <= BinOption.p_up q <= 1.
Proof.
  intros Hp Hr Hv Hts Hq.
  destruct (bin_lattice_params_inr o q Hq) as [_ [-> _]].
  assert (H1 : 1 <= IZR p) by (now apply IZR_le).
  assert (Hpos : 0 < tstep o)
    by (rewrite Hts; apply sample_tstep_pos; lia).
  assert (Hle : tstep o <= 365).
  { rewrite Hts. replace (736833 - 736713)%Z with 120%Z by reflexivity.
    apply (Rmult_le_reg_r (IZR p)); [lra |].
    unfold Rdiv. rewrite Rmult_assoc, Rinv_l by lra. lra. }
  rewrite Hr, Hv.
  apply bin_pUp_in_unit_interval; try lra.
  apply sample_rate_small; lra.
Qed.

Lemma X16_value_monotone_in_strike_witness :
  exists v vk,
    BinOption.value testOp = inr v
    /\ BinOption.value (with_strike testOp 55) = inr vk
    /\ vk <= v.
Proof.
  destruct (bin_lattice_params_total testOp
              (sample_tstep_pos 200 eq_refl) sample_vola_nonzero) as [q Hq].
  destruct (X16_value_monotone_in_strike testOp 55) as [Hb _];
    [left; reflexivity | simpl; lia | simpl; lra |].
  destruct (Hb q Hq) as [v [vk [Hv [Hvk [Hcall _]]]]].
  - apply (sample_bin_probability 200 testOp q); try reflexivity;
      [lia | exact Hq].
  - exists v, vk. split; [exact Hv |]. split; [exact Hvk |].
    apply Hcall; reflexivity.
Defined.

(** X17.  The spot price.  On a lattice whose probabilities are not
    negative (binomial: [0 <= p_up <= 1]; trinomial: [0 <= p_mid]), raising
    the spot price of a contract does not lower the value of a call and
    does not raise the value of a put, in either pricer; both values are
    returned. *)
Theorem X17_value_monotone_in_price (o : Option) (s : R) :
  type o = "call"%string \/ type o = "put"%string ->
  (0 < periods o)%Z ->
  price o <= s ->
  (forall q, BinOption.lattice_params o = inr q ->
     0 <= BinOption.p_up q <= 1 ->
     exists v vs,
       BinOption.value o = inr v
       /\ BinOption.value (with_price o s) = inr vs
       /\ (type o = "call"%string -> v <= vs)
       /\ (type o = "put"%string -> vs <= v))
  /\ (forall q, TrinOption.lattice_params o = inr q ->
        0 <= TrinOption.p_mid q ->
        exists v vs,
          TrinOption.value o = inr v
          /\ TrinOption.value (with_price o s) = inr vs
          /\ (type o = "call"%string -> v <= vs)
          /\ (type o = "put"%string -> vs <= v)).
Proof.
  intros Hty HP Hs.
  assert (Hmul : forall u x, u <> 0 -> 0 < u ->
            Spec.adjustedStartPrice o * powerRZ u x
            <= Spec.adjustedStartPrice (with_price o s) * powerRZ u x).
  { intros u x _ Hu. rewrite adjustedStartPrice_with_price.
    pose proof (powerRZ_lt u x Hu). nra. }
  split.
  - intros q Hq [Hp0 Hp1].
    assert (Hpd : 0 <= BinOption.p_down q).
    { destruct (bin_lattice_params_inr o q Hq) as [_ [Hpu ->]].
      unfold Spec.bin_pDown. rewrite <- Hpu. lra. }
    assert (Hu : 0 < BinOption.up q).
    { destruct (bin_lattice_params_inr o q Hq) as [-> _]. apply bin_up_pos. }
    destruct Hty as [Hc | Hp].
    + destruct (bin_values_ordered (with_price o s) o q)
        as [vs [v [Hvs [Hv Hle]]]]; auto; try reflexivity.
      * intros x c. specialize (Hmul (BinOption.up q) x ltac:(lra) Hu).
        simpl type; simpl strike. rewrite Hc.
        unfold Spec.exerciseValue; simpl. lra.
      * exists v, vs. repeat split; auto.
        intros Hput; rewrite Hc in Hput; discriminate.
    + destruct (bin_values_ordered o (with_price o s) q)
        as [v [vs [Hv [Hvs Hle]]]]; auto; try reflexivity.
      * intros x c. specialize (Hmul (BinOption.up q) x ltac:(lra) Hu).
        simpl type; simpl strike. rewrite Hp.
        unfold Spec.exerciseValue; simpl. lra.
      * exists v, vs. repeat split; auto.
        intros Hcall; rewrite Hp in Hcall; discriminate.
  - intros q Hq Hpm.
    assert (Hu : 0 < TrinOption.up q).
    { destruct (tri_lattice_params_inr o q Hq) as [-> _]. apply exp_pos. }
    destruct Hty as [Hc | Hp].
    + destruct (tri_values_ordered (with_price o s) o q)
        as [vs [v [Hvs [Hv Hle]]]]; auto; try reflexivity.
      * intros x c. specialize (Hmul (TrinOption.up q) x ltac:(lra) Hu).
        simpl type; simpl strike. rewrite Hc.
        unfold Spec.exerciseValue; simpl. lra.
      * exists v, vs. repeat split; auto.
        intros Hput; rewrite Hc in Hput; discriminate.
    + destruct (tri_values_ordered o (with_price o s) q)
        as [v [vs [Hv [Hvs Hle]]]]; auto; try reflexivity.
      * intros x c. specialize (Hmul (TrinOption.up q) x ltac:(lra) Hu).
        simpl type; simpl strike. rewrite Hp.
        unfold Spec.exerciseValue; simpl. lra.
      * exists v, vs. repeat split; auto.
        intros Hcall; rewrite Hp in Hcall; discriminate.
Qed.

Lemma X17_value_monotone_in_price_witness :
  exists v vs,
    BinOption.value testOp = inr v
    /\ BinOption.value (with_price testOp 55) = inr vs
    /\ v <= vs.
Proof.
  destruct (bin_lattice_params_total testOp
              (sample_tstep_pos 200 eq_refl) sample_vola_nonzero) as [q Hq].
  destruct (X17_value_monotone_in_price testOp 55) as [Hb _];
    [left; reflexivity | simpl; lia | simpl; lra |].
  destruct (Hb q Hq) as [v [vs [Hv [Hvs [Hcall _]]]]].
  - apply (sample_bin_probability 200 testOp q); try reflexivity;
      [lia | exact Hq].
  - exists v, vs. split; [exact Hv |]. split; [exact Hvs |].
    apply Hcall; reflexivity.
Defined.

(** ** Bounds on the value *)

Lemma max3_upper (c e b : R) :
  c <= b -> e <= b -> 0 <= b -> Spec.max3 c e 0 <= b.
Proof.
  intros Hc He Hb. unfold Spec.max3.
  apply Rmax_lub; [apply Rmax_lub |]; assumption.
Qed.

Lemma discount_factor_le_1 (ts r : R) :
  0 <= ts -> 0 <= r -> 0 < exp (- r * (ts / 365)) <= 1.
Proof.
  intros Hts Hr. split; [apply exp_pos |].
  apply exp_nonpos_le_1.
  assert (0 <= ts / 365) by lra. nra.
Qed.

Lemma escrow_at_nonneg (o : Option) (k : nat) :
  (forall d, In d (divs o) -> 0 <= snd d) ->
  0 <= cur_div_val (escrow_at o k).
Proof.
  intros Hd. unfold escrow_at. induction k as [| k IH]; [simpl; lra |].
  simpl Nat.iter.
  set (e := Nat.iter k (Spec.escrow_update o) (escrow_init o)) in *.
  unfold Spec.escrow_update, Spec.escrow_update_by.
  pose proof (exp_pos (- rfr o * (tstep o / 365))) as Hexp.
  destruct (0 <=? last_div e)%Z; simpl; unfold discount; [| nra].
  destruct (nth_error (divs o) (Z.to_nat (last_div e))) as [d |] eqn:E;
    simpl; [| nra].
  apply nth_error_In in E. specialize (Hd d E).
  destruct (day e - timedelta_days (tstep o) <? midnight (fst d))%Z;
    simpl; nra.
Qed.

(** A put is bounded by its strike at every node of a binomial buffer. *)
Lemma bin_put_bounded (o : Option) (u pu pd : R) (cdv : Z -> R)
    (t : list R) :
  type o = "put"%string ->
  0 <= pu -> 0 <= pd -> pu + pd = 1 ->
  0 <= tstep o -> 0 <= rfr o -> 0 <= strike o ->
  (forall s i : Z,
     0 <= Spec.adjustedStartPrice o * powerRZ u (2 * i - s) + cdv s) ->
  binomial_backward_induction o u pu pd cdv t ->
  forall s i : Z, (0 <= i <= s)%Z -> (s <= periods o)%Z ->
    peek t (s * (s + 1) / 2 + i) <= strike o.
Proof.
  intros Hty Hpu Hpd Hsum Hts Hr Hk Hprice Hind.
  pose proof (discount_factor_le_1 (tstep o) (rfr o) Hts Hr) as [Hf0 Hf1].
  assert (Hn : forall (n : nat) (s i : Z),
             s = (periods o - Z.of_nat n)%Z -> (0 <= i <= s)%Z ->
             peek t (s * (s + 1) / 2 + i) <= strike o).
  { induction n as [| n IH]; intros s i Hs Hi;
      rewrite (Hind s i Hi ltac:(lia)); unfold Spec.bin_nodeValue;
      rewrite Hty; unfold Spec.exerciseValue; simpl String.eqb; cbv iota;
      specialize (Hprice s i).
    - destruct (Z.eqb_spec s (periods o)); [| lia].
      apply max3_upper; lra.
    - destruct (Z.eqb_spec s (periods o)); [lia |].
      apply max3_upper; try lra.
      pose proof (IH (s + 1)%Z i ltac:(lia) ltac:(lia)) as Hc0.
      pose proof (IH (s + 1)%Z (i + 1)%Z ltac:(lia) ltac:(lia)) as Hc1.
      replace ((s + 1) * (s + 1 + 1))%Z with ((s + 1) * (s + 2))%Z in Hc0, Hc1
        by ring.
      rewrite Z.add_assoc in Hc1.
      unfold discount.
      set (c0 := peek t ((s + 1) * (s + 2) / 2 + i)) in *.
      set (c1 := peek t ((s + 1) * (s + 2) / 2 + i + 1)) in *.
      assert (pd * c0 + pu * c1 <= strike o) by nra.
      nra. }
  intros s i Hi Hs.
  apply (Hn (Z.to_nat (periods o - s))); [lia | exact Hi].
Qed.

Lemma tri_put_bounded (o : Option) (u pu pm pd : R) (cdv : Z -> R)
    (t : list R) :
  type o = "put"%string ->
  0 <= pu -> 0 <= pm -> 0 <= pd -> pu + pm + pd = 1 ->
  0 <= tstep o -> 0 <= rfr o -> 0 <= strike o ->
  (forall s i : Z,
     0 <= Spec.adjustedStartPrice o * powerRZ u (i - s) + cdv s) ->
  trinomial_backward_induction o u pu pm pd cdv t ->
  forall s i : Z, (0 <= i <= 2 * s)%Z -> (s <= periods o)%Z ->
    peek t (s ^ 2 + i) <= strike o.
Proof.
  intros Hty Hpu Hpm Hpd Hsum Hts Hr Hk Hprice Hind.
  pose proof (discount_factor_le_1 (tstep o) (rfr o) Hts Hr) as [Hf0 Hf1].
  assert (Hn : forall (n : nat) (s i : Z),
             s = (periods o - Z.of_nat n)%Z -> (0 <= i <= 2 * s)%Z ->
             peek t (s ^ 2 + i) <= strike o).
  { induction n as [| n IH]; intros s i Hs Hi;
      rewrite (Hind s i Hi ltac:(lia)); unfold Spec.tri_nodeValue;
      rewrite Hty; unfold Spec.exerciseValue; simpl String.eqb; cbv iota;
      specialize (Hprice s i).
    - destruct (Z.eqb_spec s (periods o)); [| lia].
      apply max3_upper; lra.
    - destruct (Z.eqb_spec s (periods o)); [lia |].
      apply max3_upper; try lra.
      pose proof (IH (s + 1)%Z i ltac:(lia) ltac:(lia)) as Hc0.
      pose proof (IH (s + 1)%Z (i + 1)%Z ltac:(lia) ltac:(lia)) as Hc1.
      pose proof (IH (s + 1)%Z (i + 2)%Z ltac:(lia) ltac:(lia)) as Hc2.
      rewrite Z.add_assoc in Hc1, Hc2.
      unfold discount.
      set (c0 := peek t ((s + 1) ^ 2 + i)) in *.
      set (c1 := peek t ((s + 1) ^ 2 + i + 1)) in *.
      set (c2 := peek t ((s + 1) ^ 2 + i + 2)) in *.
      assert (pd * c0 + pm * c1 + pu * c2 <= strike o) by nra.
      nra. }
  intros s i Hi Hs.
  apply (Hn (Z.to_nat (periods o - s))); [lia | exact Hi].
Qed.

Lemma bin_lattice_params_tstep (o : Option) (q : BinOption.params) :
  BinOption.lattice_params o = inr q -> 0 <= tstep o.
Proof.
  unfold BinOption.lattice_params; intros H.
  apply bind_inr in H as [u [Hu _]].
  now apply high_mult_inr in Hu as [Hts _].
Qed.

Lemma tri_lattice_params_tstep (o : Option) (q : TrinOption.params) :
  TrinOption.lattice_params o = inr q -> 0 <= tstep o.
Proof.
  unfold TrinOption.lattice_params; intros H.
  apply bind_inr in H as [u [Hu _]].
  now apply tri_high_mult_inr in Hu as [Hts _].
Qed.

Lemma node_price_nonneg (o : Option) (u : R) (x : Z) (k : nat) :
  0 < u -> 0 <= Spec.adjustedStartPrice o ->
  (forall d, In d (divs o) -> 0 <= snd d) ->
  0 <= Spec.adjustedStartPrice o * powerRZ u x + cur_div_val (escrow_at o k).
Proof.
  intros Hu Hadj Hd.
  pose proof (powerRZ_lt u x Hu).
  pose proof (escrow_at_nonneg o k Hd).
  nra.
Qed.

(** X18.  A put is never worth more than its strike.  For a put with a
    positive period count, a rate and a strike that are not negative,
    dividends of non-negative amounts and a starting price that, net of
    their present value, is not negative: on a lattice whose probabilities
    are not negative, the value either pricer returns is at most the
    strike. *)
Theorem X18_put_at_most_strike (o : Option) :
  type o = "put"%string ->
  (0 < periods o)%Z ->
  0 <= rfr o -> 0 <= strike o -> 0 <= adj_price o ->
  (forall d, In d (divs o) -> 0 <= snd d) ->
  (forall q v, BinOption.lattice_params o = inr q ->
     0 <= BinOption.p_up q <= 1 ->
     BinOption.value o = inr v -> v <= strike o)
  /\ (forall q v, TrinOption.lattice_params o = inr q ->
        0 <= TrinOption.p_mid q ->
        TrinOption.value o = inr v -> v <= strike o).
Proof.
  intros Hty HP Hr Hk Hadj Hd.
  assert (Hadj' : 0 <= Spec.adjustedStartPrice o).
  { unfold adj_price in Hadj. rewrite start_div_val_sum in Hadj.
    exact Hadj. }
  split.
  - intros q v Hq [Hp0 Hp1] Hv.
    destruct (bin_lattice_params_inr o q Hq) as [Hu [_ Hpd]].
    destruct (bin_pricetree_correct o q (or_intror Hty) ltac:(lia) Hq)
      as [t [Hrun [_ Hval]]].
    destruct (bin_value_root o q (or_intror Hty) ltac:(lia) Hq)
      as [t' [Hrun' [Hv' _]]].
    rewrite Hrun in Hrun'; injection Hrun' as <-.
    rewrite Hv' in Hv; injection Hv as <-.
    apply (bin_put_bounded o (BinOption.up q) (BinOption.p_up q)
             (BinOption.p_down q)
             (fun s => cur_div_val (escrow_at o (Z.to_nat (periods o - s))))
             t) with (s := 0%Z) (i := 0%Z); auto; try lia.
    + rewrite Hpd. unfold Spec.bin_pDown.
      destruct (bin_lattice_params_inr o q Hq) as [_ [<- _]]. lra.
    + rewrite Hpd. unfold Spec.bin_pDown.
      destruct (bin_lattice_params_inr o q Hq) as [_ [<- _]]. lra.
    + now apply (bin_lattice_params_tstep o q).
    + intros s i. apply node_price_nonneg; auto.
      rewrite Hu. apply bin_up_pos.
    + intros s i Hi Hs. exact (Hval s i ltac:(lia) ltac:(lia)).
  - intros q v Hq Hpm Hv.
    destruct (tri_lattice_params_inr o q Hq) as [Hu [Hpu [Hpd Hm]]].
    destruct (tri_pricetree_correct o q (or_intror Hty) ltac:(lia) Hq)
      as [t [Hrun [_ Hval]]].
    destruct (tri_value_root o q (or_intror Hty) ltac:(lia) Hq)
      as [t' [Hrun' [Hv' _]]].
    rewrite Hrun in Hrun'; injection Hrun' as <-.
    rewrite Hv' in Hv; injection Hv as <-.
    apply (tri_put_bounded o (TrinOption.up q) (TrinOption.p_up q)
             (TrinOption.p_mid q) (TrinOption.p_down q)
             (fun s => cur_div_val (escrow_at o (Z.to_nat (periods o - s))))
             t) with (s := 0%Z) (i := 0%Z); auto; try lia.
    + rewrite Hpu. unfold Spec.tri_pUp. apply pow2_ge_0.
    + rewrite Hpd. unfold Spec.tri_pDown. apply pow2_ge_0.
    + rewrite Hm. unfold Spec.tri_pMid. rewrite <- Hpu, <- Hpd. ring.
    + now apply (tri_lattice_params_tstep o q).
    + intros s i. apply node_price_nonneg; auto.
      rewrite Hu. apply exp_pos.
    + intros s i Hi Hs. exact (Hval s i ltac:(lia) ltac:(lia)).
Qed.

Lemma discount_between (amt days r : R) :
  0 <= amt -> 0 <= days -> 0 <= r -> 0 <= discount amt days r <= amt.
Proof.
  intros Ha Hd Hr. unfold discount.
  pose proof (discount_factor_le_1 days r Hd Hr). nra.
Qed.

Lemma putOp_adj_price : 0 <= adj_price putOp.
Proof.
  unfold adj_price, start_div_val; simpl.
  pose proof (discount_between 2 90 (9 / 100)
                ltac:(lra) ltac:(lra) ltac:(lra)).
  pose proof (discount_between 2 92 (9 / 100)
                ltac:(lra) ltac:(lra) ltac:(lra)).
  lra.
Qed.

Lemma testDivs_nonneg (d : dividend) : In d testDivs -> 0 <= snd d.
Proof. intros [<- | [<- | []]]; simpl; lra. Qed.

Lemma X18_put_at_most_strike_witness :
  exists v, BinOption.value putOp = inr v /\ v <= strike putOp.
Proof.
  destruct (bin_lattice_params_total putOp
              (sample_tstep_pos 3 eq_refl) sample_vola_nonzero) as [q Hq].
  destruct (bin_value_root putOp q (or_intror eq_refl)
              ltac:(simpl; lia) Hq) as [t [_ [Hv _]]].
  exists (peek t 0). split; [exact Hv |].
  destruct (X18_put_at_most_strike putOp) as [Hb _];
    [reflexivity | simpl; lia | simpl; lra | simpl; lra
    | exact putOp_adj_price | exact testDivs_nonneg |].
  apply (Hb q (peek t 0) Hq); [| exact Hv].
  apply (sample_bin_probability 3 putOp q); try reflexivity; [lia | exact Hq].
Defined.

(** ** A call and the spot price *)

Lemma powerRZ_pred (u : R) (x : Z) :
  u <> 0 -> powerRZ u (x - 1) = powerRZ u x * (1 / u).
Proof.
  intros Hu. unfold Z.sub. rewrite powerRZ_add by exact Hu.
  simpl. f_equal. field. exact Hu.
Qed.

Lemma powerRZ_succ (u : R) (x : Z) :
  u <> 0 -> powerRZ u (x + 1) = powerRZ u x * u.
Proof.
  intros Hu. rewrite powerRZ_add by exact Hu.
  now rewrite powerRZ_1.
Qed.

Lemma growth_discounted (ts r : R) :
  exp (r * ts / 365) * exp (- r * (ts / 365)) = 1.
Proof.
  rewrite <- exp_plus, <- exp_0. f_equal. field.
Qed.

(** Without dividends, on a risk-neutral binomial lattice a call is
    bounded by the price of the underlying at every node. *)
Lemma bin_call_bounded (o : Option) (u pu pd : R) (t : list R) :
  type o = "call"%string ->
  0 < u -> 0 <= pu -> 0 <= pd ->
  pu * u + pd * (1 / u) = exp (rfr o * tstep o / 365) ->
  0 <= strike o -> 0 <= Spec.adjustedStartPrice o ->
  binomial_backward_induction o u pu pd (fun _ => 0) t ->
  forall s i : Z, (0 <= i <= s)%Z -> (s <= periods o)%Z ->
    peek t (s * (s + 1) / 2 + i)
    <= Spec.adjustedStartPrice o * powerRZ u (2 * i - s).
Proof.
  intros Hty Hu Hpu Hpd Hrn Hk Hadj Hind.
  pose proof (exp_pos (- rfr o * (tstep o / 365))) as Hf.
  pose proof (growth_discounted (tstep o) (rfr o)) as Hg.
  assert (Hn : forall (n : nat) (s i : Z),
             s = (periods o - Z.of_nat n)%Z -> (0 <= i <= s)%Z ->
             peek t (s * (s + 1) / 2 + i)
             <= Spec.adjustedStartPrice o * powerRZ u (2 * i - s)).
  { induction n as [| n IH]; intros s i Hs Hi;
      rewrite (Hind s i Hi ltac:(lia)); unfold Spec.bin_nodeValue;
      rewrite Hty; unfold Spec.exerciseValue; simpl String.eqb; cbv iota;
      pose proof (powerRZ_lt u (2 * i - s) Hu) as Hpw;
      set (S := Spec.adjustedStartPrice o * powerRZ u (2 * i - s));
      assert (HS : 0 <= S) by (unfold S; nra).
    - destruct (Z.eqb_spec s (periods o)); [| lia].
      apply max3_upper; lra.
    - destruct (Z.eqb_spec s (periods o)); [lia |].
      apply max3_upper; try lra.
      pose proof (IH (s + 1)%Z i ltac:(lia) ltac:(lia)) as Hc0.
      pose proof (IH (s + 1)%Z (i + 1)%Z ltac:(lia) ltac:(lia)) as Hc1.
      replace ((s + 1) * (s + 1 + 1))%Z with ((s + 1) * (s + 2))%Z in Hc0, Hc1
        by ring.
      rewrite Z.add_assoc in Hc1.
      replace (2 * i - (s + 1))%Z with (2 * i - s - 1)%Z in Hc0 by ring.
      replace (2 * (i + 1) - (s + 1))%Z with (2 * i - s + 1)%Z in Hc1 by ring.
      rewrite powerRZ_pred in Hc0 by lra.
      rewrite powerRZ_succ in Hc1 by lra.
      unfold discount.
      set (c0 := peek t ((s + 1) * (s + 2) / 2 + i)) in *.
      set (c1 := peek t ((s + 1) * (s + 2) / 2 + i + 1)) in *.
      set (f := exp (- rfr o * (tstep o / 365))) in *.
      set (g := exp (rfr o * tstep o / 365)) in *.
      set (w := powerRZ u (2 * i - s)) in *.
      set (a := Spec.adjustedStartPrice o) in *.
      assert (Hsum : pd * c0 + pu * c1 <= S * g).
      { unfold S. rewrite <- Hrn.
        assert (pd * c0 <= pd * (a * (w * (1 / u)))) by nra.
        assert (pu * c1 <= pu * (a * (w * u))) by nra.
        lra. }
      assert ((pd * c0 + pu * c1) * f <= S * g * f) by nra.
      rewrite Rmult_assoc, Hg in H. lra. }
  intros s i Hi Hs.
  apply (Hn (Z.to_nat (periods o - s))); [lia | exact Hi].
Qed.

Lemma tri_call_bounded (o : Option) (u pu pm pd : R) (t : list R) :
  type o = "call"%string ->
  0 < u -> 0 <= pu -> 0 <= pm -> 0 <= pd ->
  pu * u + pm + pd * (1 / u) = exp (rfr o * tstep o / 365) ->
  0 <= strike o -> 0 <= Spec.adjustedStartPrice o ->
  trinomial_backward_induction o u pu pm pd (fun _ => 0) t ->
  forall s i : Z, (0 <= i <= 2 * s)%Z -> (s <= periods o)%Z ->
    peek t (s ^ 2 + i) <= Spec.adjustedStartPrice o * powerRZ u (i - s).
Proof.
  intros Hty Hu Hpu Hpm Hpd Hrn Hk Hadj Hind.
  pose proof (exp_pos (- rfr o * (tstep o / 365))) as Hf.
  pose proof (growth_discounted (tstep o) (rfr o)) as Hg.
  assert (Hn : forall (n : nat) (s i : Z),
             s = (periods o - Z.of_nat n)%Z -> (0 <= i <= 2 * s)%Z ->
             peek t (s ^ 2 + i)
             <= Spec.adjustedStartPrice o * powerRZ u (i - s)).
  { induction n as [| n IH]; intros s i Hs Hi;
      rewrite (Hind s i Hi ltac:(lia)); unfold Spec.tri_nodeValue;
      rewrite Hty; unfold Spec.exerciseValue; simpl String.eqb; cbv iota;
      pose proof (powerRZ_lt u (i - s) Hu) as Hpw;
      set (S := Spec.adjustedStartPrice o * powerRZ u (i - s));
      assert (HS : 0 <= S) by (unfold S; nra).
    - destruct (Z.eqb_spec s (periods o)); [| lia].
      apply max3_upper; lra.
    - destruct (Z.eqb_spec s (periods o)); [lia |].
      apply max3_upper; try lra.
      pose proof (IH (s + 1)%Z i ltac:(lia) ltac:(lia)) as Hc0.
      pose proof (IH (s + 1)%Z (i + 1)%Z ltac:(lia) ltac:(lia)) as Hc1.
      pose proof (IH (s + 1)%Z (i + 2)%Z ltac:(lia) ltac:(lia)) as Hc2.
      rewrite Z.add_assoc in Hc1, Hc2.
      replace (i - (s + 1))%Z with (i - s - 1)%Z in Hc0 by ring.
      replace (i + 1 - (s + 1))%Z with (i - s)%Z in Hc1 by ring.
      replace (i + 2 - (s + 1))%Z with (i - s + 1)%Z in Hc2 by ring.
      rewrite powerRZ_pred in Hc0 by lra.
      rewrite powerRZ_succ in Hc2 by lra.
      unfold discount.
      set (c0 := peek t ((s + 1) ^ 2 + i)) in *.
      set (c1 := peek t ((s + 1) ^ 2 + i + 1)) in *.
      set (c2 := peek t ((s + 1) ^ 2 + i + 2)) in *.
      set (f := exp (- rfr o * (tstep o / 365))) in *.
      set (g := exp (rfr o * tstep o / 365)) in *.
      set (w := powerRZ u (i - s)) in *.
      set (a := Spec.adjustedStartPrice o) in *.
      assert (Hsum : pd * c0 + pm * c1 + pu * c2 <= S * g).
      { unfold S. rewrite <- Hrn.
        assert (pd * c0 <= pd * (a * (w * (1 / u)))) by nra.
        assert (pm * c1 <= pm * (a * w)) by nra.
        assert (pu * c2 <= pu * (a * (w * u))) by nra.
        lra. }
      assert ((pd * c0 + pm * c1 + pu * c2) * f <= S * g * f) by nra.
      rewrite Rmult_assoc, Hg in H. lra. }
  intros s i Hi Hs.
  apply (Hn (Z.to_nat (periods o - s))); [lia | exact Hi].
Qed.

Lemma bin_expected_multiplier (o : Option) (q : BinOption.params) :
  BinOption.lattice_params o = inr q ->
  0 < BinOption.up q
  /\ BinOption.p_down q = 1 - BinOption.p_up q
  /\ BinOption.p_up q * BinOption.up q
     + BinOption.p_down q * (1 / BinOption.up q)
     = exp (rfr o * tstep o / 365).
Proof.
  intros Hq.
  pose proof (bin_lattice_params_inr o q Hq) as [Hu [Hp Hd]].
  assert (Hne : Spec.bin_up (vola o) (tstep o)
                - Spec.bin_down (vola o) (tstep o) <> 0).
  { unfold BinOption.lattice_params in Hq.
    apply bind_inr in Hq as [u [_ Hq]].
    apply bind_inr in Hq as [p [Hp' _]].
    now apply high_p_inr in Hp' as [Hne _]. }
  rewrite Hu, Hp, Hd.
  split; [apply bin_up_pos |]. split; [reflexivity |].
  unfold Spec.bin_pDown, Spec.bin_pUp.
  fold (Spec.bin_down (vola o) (tstep o)).
  set (u := Spec.bin_up (vola o) (tstep o)) in *.
  set (d := Spec.bin_down (vola o) (tstep o)) in *.
  set (e := exp (rfr o * tstep o / 365)).
  assert (Hpd : (e - d) / (u - d) * (u - d) = e - d) by (field; exact Hne).
  replace ((e - d) / (u - d) * u + (1 - (e - d) / (u - d)) * d)
    with (d + (e - d) / (u - d) * (u - d)) by ring.
  rewrite Hpd; ring.
Qed.

Lemma tri_expected_multiplier (o : Option) (q : TrinOption.params) :
  TrinOption.lattice_params o = inr q ->
  0 < TrinOption.up q
  /\ 0 <= TrinOption.p_up q /\ 0 <= TrinOption.p_down q
  /\ TrinOption.p_up q * TrinOption.up q + TrinOption.p_mid q
     + TrinOption.p_down q * (1 / TrinOption.up q)
     = exp (rfr o * tstep o / 365).
Proof.
  intros Hq.
  destruct (tri_lattice_half_step o q Hq)
    as [u2 [p2 [_ [_ [Hu [Hm [-> [-> [-> ->]]]]]]]]].
  split; [nra |]. split; [apply pow2_ge_0 |]. split; [apply pow2_ge_0 |].
  replace (exp (rfr o * tstep o / 365))
    with (exp (rfr o * tstep o / 365 / 2) * exp (rfr o * tstep o / 365 / 2))
    by (rewrite <- exp_plus; f_equal; field).
  rewrite <- Hm. field. lra.
Qed.

(** X19.  A call is never worth more than the underlying.  For a call
    without dividends, with a positive period count and a strike and a spot
    price that are not negative: on a lattice whose probabilities are not
    negative, the value either pricer returns is at most the spot price.
    (The proof rests on the expected multiplier of a step being the growth
    at the risk-free rate.) *)
Theorem X19_call_at_most_spot (o : Option) :
  type o = "call"%string ->
  (0 < periods o)%Z ->
  divs o = [] ->
  0 <= strike o -> 0 <= price o ->
  (forall q v, BinOption.lattice_params o = inr q ->
     0 <= BinOption.p_up q <= 1 ->
     BinOption.value o = inr v -> v <= price o)
  /\ (forall q v, TrinOption.lattice_params o = inr q ->
        0 <= TrinOption.p_mid q ->
        TrinOption.value o = inr v -> v <= price o).
Proof.
  intros Hty HP Hd Hk Hs.
  assert (Hadj : Spec.adjustedStartPrice o = price o).
  { unfold Spec.adjustedStartPrice, Spec.initialDividendPV.
    rewrite Hd; simpl; ring. }
  assert (Hroot : forall u, u <> 0 ->
            Spec.adjustedStartPrice o * powerRZ u 0 = price o).
  { intros u _. rewrite Hadj. simpl. ring. }
  split.
  - intros q v Hq [Hp0 Hp1] Hv.
    destruct (bin_expected_multiplier o q Hq) as [Hu [Hpd Hrn]].
    destruct (bin_pricetree_correct o q (or_introl Hty) ltac:(lia) Hq)
      as [t [Hrun [_ Hval]]].
    destruct (bin_value_root o q (or_introl Hty) ltac:(lia) Hq)
      as [t' [Hrun' [Hv' _]]].
    rewrite Hrun in Hrun'; injection Hrun' as <-.
    rewrite Hv' in Hv; injection Hv as <-.
    rewrite <- (Hroot (BinOption.up q)) by lra.
    apply (bin_call_bounded o (BinOption.up q) (BinOption.p_up q)
             (BinOption.p_down q) t) with (s := 0%Z) (i := 0%Z);
      auto; try lia; try lra.
    intros s i Hi Hs'.
    pose proof (Hval s i ltac:(lia) ltac:(lia)) as H.
    rewrite escrow_at_no_dividends in H by exact Hd. exact H.
  - intros q v Hq Hpm Hv.
    destruct (tri_expected_multiplier o q Hq) as [Hu [Hpu [Hpd Hrn]]].
    destruct (tri_pricetree_correct o q (or_introl Hty) ltac:(lia) Hq)
      as [t [Hrun [_ Hval]]].
    destruct (tri_value_root o q (or_introl Hty) ltac:(lia) Hq)
      as [t' [Hrun' [Hv' _]]].
    rewrite Hrun in Hrun'; injection Hrun' as <-.
    rewrite Hv' in Hv; injection Hv as <-.
    rewrite <- (Hroot (TrinOption.up q)) by lra.
    apply (tri_call_bounded o (TrinOption.up q) (TrinOption.p_up q)
             (TrinOption.p_mid q) (TrinOption.p_down q) t)
      with (s := 0%Z) (i := 0%Z); auto; try lia; try lra.
    intros s i Hi Hs'.
    pose proof (Hval s i ltac:(lia) ltac:(lia)) as H.
    rewrite escrow_at_no_dividends in H by exact Hd. exact H.
Qed.

Lemma X19_call_at_most_spot_witness :
  exists v, BinOption.value plainOp = inr v /\ v <= price plainOp.
Proof.
  destruct (bin_lattice_params_total plainOp
              (sample_tstep_pos 3 eq_refl) sample_vola_nonzero) as [q Hq].
  destruct (bin_value_root plainOp q (or_introl eq_refl)
              ltac:(simpl; lia) Hq) as [t [_ [Hv _]]].
  exists (peek t 0). split; [exact Hv |].
  destruct (X19_call_at_most_spot plainOp) as [Hb _];
    [reflexivity | simpl; lia | reflexivity | simpl; lra | simpl; lra |].
  apply (Hb q (peek t 0) Hq); [| exact Hv].
  apply (sample_bin_probability 3 plainOp q); try reflexivity;
    [lia | exact Hq].
Defined.
